(** * The image combiner of the media editor: compositing engine

    A shallow embedding of the client-side compositing code
    ([components/image-combiner/index.tsx],
    [components/image-combiner/combined-preview-area.tsx],
    [components/image-combiner/control-panel.tsx] and [lib/utils.ts])
    together with the properties of its draw transform, exporter, media
    loader and gesture handlers; and of the code around it: the download
    button ([components/image-combiner/download-section.tsx]), the layer
    store ([lib/layer-store.tsx]) and the transcription action
    ([server/transcribe.ts]).

    Part I holds the definitions, Part II the lemmas and theorems. *)

From Stdlib Require Import QArith Qround ZArith Bool List String Ascii Lia Lqa SpecFloat.
Import ListNotations.

Set Implicit Arguments.

(* ================================================================== *)
(** * Part I. Definitions *)
(* ================================================================== *)

(** ** JavaScript numbers

    A JavaScript [number] is a finite value, one of the two infinities or
    NaN.  Every finite double is a rational, so finite values are carried
    by [Q]; arithmetic is exact (rounding is not modelled) and results are
    kept in lowest terms, so that equal values are equal terms.  Zero has
    no sign: [x / 0] takes the zero as [+0].  The roundings of double
    precision are the matter of [Binary64], further down in Part I. *)

Inductive number : Type :=
| Fin (q : Q)
| PosInf
| NegInf
| NaN.

Declare Scope js_scope.
Delimit Scope js_scope with js.
Bind Scope js_scope with number.

Definition fin (q : Q) : number := Fin (Qred q).
Definition ofZ (z : Z) : number := Fin (inject_Z z).

Definition Qltb (x y : Q) : bool := negb (Qle_bool y x).

(** Sign of a rational: [Lt] negative, [Eq] zero, [Gt] positive. *)
Definition Qsgn (q : Q) : comparison := (q ?= 0)%Q.

Definition neg (a : number) : number :=
  match a with
  | Fin q => fin (- q)
  | PosInf => NegInf
  | NegInf => PosInf
  | NaN => NaN
  end.

Definition add (a b : number) : number :=
  match a, b with
  | NaN, _ | _, NaN => NaN
  | Fin x, Fin y => fin (x + y)
  | PosInf, NegInf | NegInf, PosInf => NaN
  | PosInf, _ | _, PosInf => PosInf
  | NegInf, _ | _, NegInf => NegInf
  end.

Definition sub (a b : number) : number := add a (neg b).

(** An infinity of the sign of [s] times the sign of the infinity;
    [0 * Infinity] is NaN. *)
Definition signedInf (s : comparison) (positive : bool) : number :=
  match s with
  | Eq => NaN
  | Gt => if positive then PosInf else NegInf
  | Lt => if positive then NegInf else PosInf
  end.

Definition mul (a b : number) : number :=
  match a, b with
  | NaN, _ | _, NaN => NaN
  | Fin x, Fin y => fin (x * y)
  | Fin x, PosInf | PosInf, Fin x => signedInf (Qsgn x) true
  | Fin x, NegInf | NegInf, Fin x => signedInf (Qsgn x) false
  | PosInf, PosInf | NegInf, NegInf => PosInf
  | PosInf, NegInf | NegInf, PosInf => NegInf
  end.

Definition div (a b : number) : number :=
  match a, b with
  | NaN, _ | _, NaN => NaN
  | Fin x, Fin y =>
      match Qsgn y with
      | Eq => signedInf (Qsgn x) true
      | _ => fin (x / y)
      end
  | Fin _, (PosInf | NegInf) => Fin 0
  | PosInf, Fin y => match Qsgn y with Lt => NegInf | _ => PosInf end
  | NegInf, Fin y => match Qsgn y with Lt => PosInf | _ => NegInf end
  | (PosInf | NegInf), (PosInf | NegInf) => NaN
  end.

(** [a < b]; every comparison with NaN is false. *)
Definition lt (a b : number) : bool :=
  match a, b with
  | NaN, _ | _, NaN => false
  | Fin x, Fin y => Qltb x y
  | NegInf, (Fin _ | PosInf) => true
  | Fin _, PosInf => true
  | _, _ => false
  end.

(** [a <= b]. *)
Definition le (a b : number) : bool :=
  match a, b with
  | NaN, _ | _, NaN => false
  | Fin x, Fin y => Qle_bool x y
  | NegInf, _ => true
  | _, PosInf => true
  | _, _ => false
  end.

(** [a > b] and [a >= b]. *)
Definition gt (a b : number) : bool := lt b a.
Definition ge (a b : number) : bool := le b a.

(** [a === b] and [a !== b] on numbers: NaN is different from itself. *)
Definition strictEq (a b : number) : bool :=
  match a, b with
  | Fin x, Fin y => Qeq_bool x y
  | PosInf, PosInf | NegInf, NegInf => true
  | _, _ => false
  end.
Definition strictNe (a b : number) : bool := negb (strictEq a b).

(** [Number.isFinite], [isNaN], and the truthiness of a number
    ([0] and NaN are falsy). *)
Definition Number_isFinite (a : number) : bool :=
  match a with Fin _ => true | _ => false end.

Definition isNaN (a : number) : bool :=
  match a with NaN => true | _ => false end.

Definition truthy (a : number) : bool :=
  match a with
  | Fin q => negb (Qeq_bool q 0)
  | PosInf | NegInf => true
  | NaN => false
  end.

(** [a || b] on numbers. *)
Definition orElse (a b : number) : number := if truthy a then a else b.

(** [Math.max] and [Math.min] of two numbers, and [Math.max] of three. *)
Definition Math_max (a b : number) : number :=
  match a, b with
  | NaN, _ | _, NaN => NaN
  | _, _ => if lt a b then b else a
  end.

Definition Math_min (a b : number) : number :=
  match a, b with
  | NaN, _ | _, NaN => NaN
  | _, _ => if lt b a then b else a
  end.

Definition Math_max3 (a b c : number) : number := Math_max (Math_max a b) c.

Definition Math_ceil (a : number) : number :=
  match a with
  | Fin q => ofZ (Qceiling q)
  | _ => a
  end.

Definition Math_floor (a : number) : number :=
  match a with
  | Fin q => ofZ (Qfloor q)
  | _ => a
  end.

Notation "a + b" := (add a b) : js_scope.
Notation "a - b" := (sub a b) : js_scope.
Notation "a * b" := (mul a b) : js_scope.
Notation "a / b" := (div a b) : js_scope.
Notation "a <? b" := (lt a b) (at level 70) : js_scope.
Notation "a <=? b" := (le a b) (at level 70) : js_scope.
Notation "a >? b" := (gt a b) (at level 70) : js_scope.
Notation "a >=? b" := (ge a b) (at level 70) : js_scope.

(** Integer literals of the source. *)
Definition n0 : number := Fin 0.
Definition n1 : number := Fin 1.
Definition n2 : number := Fin 2.
Definition n100 : number := Fin 100.

(** ** [lib/utils.ts] *)

(** [export const clamp = (num, min, max) => Math.min(Math.max(num, min), max)] *)
Definition clamp (num min max : number) : number :=
  Math_min (Math_max num min) max.

(** ** DOM media elements and canvas calls

    An image element exposes [naturalWidth]/[naturalHeight], a video
    element [videoWidth]/[videoHeight] and its [readyState]; both carry
    their [src].  A 2D context is modelled by the list of calls made on
    it, in order. *)

Record HTMLImageElement : Type := {
  naturalWidth : Z;
  naturalHeight : Z;
  img_src : string
}.

Record HTMLVideoElement : Type := {
  videoWidth : Z;
  videoHeight : Z;
  readyState : Z;
  video_src : string
}.

Inductive MediaElement : Type :=
| Image (img : HTMLImageElement)
| Video (video : HTMLVideoElement).

Definition element_src (el : MediaElement) : string :=
  match el with
  | Image img => img_src img
  | Video v => video_src v
  end.

(** [type RelativeFocus = { x: number; y: number }], also the shape of
    the logo position and of the drag origin. *)
Record RelativeFocus : Type := { x : number; y : number }.

(** ['left' | 'right'], and [Exclude<DragType, null>], which adds
    ['logo']. *)
Inductive Side : Type := Left | Right.

Inductive Target : Type :=
| Slot (side : Side)
| Logo.

Inductive CanvasCall : Type :=
| save
| restore
| clearRect (cx cy cw ch : number)
| beginPath
| rect (cx cy cw ch : number)
| clip
| fillStyle (style : string)
| fillRect (cx cy cw ch : number)
| drawImage (el : MediaElement)
    (sx sy sWidth sHeight dx dy dWidth dHeight : number)
| drawImageAt (el : MediaElement) (dx dy dWidth dHeight : number).

(** ** [combined-preview-area.tsx]: the per-slot draw of the live preview *)

Definition MIN_ZOOM : number := Fin 10.
Definition MAX_ZOOM : number := Fin 500.

(** [drawMediaSection]: the calls made on the slot's preview context.
    The early returns call [ctx.restore()] and run the [finally] block,
    which restores once more.  The [catch] block only runs when a canvas
    method throws, which the model does not do. *)
Definition drawMediaSection (mediaElement : option MediaElement)
    (section : Side) (targetCanvasWidth targetCanvasHeight zoomPercent : number)
    (relativeFocus : RelativeFocus) : list CanvasCall :=
  let dWidth := (targetCanvasWidth / n2)%js in
  let dHeight := targetCanvasHeight in
  let dx := n0 in
  let dy := n0 in
  [save; clearRect dx dy dWidth dHeight] ++
  match mediaElement with
  | None => [restore; restore]
  | Some el =>
    let sourceWidth :=
      orElse (match el with
              | Image img => ofZ (naturalWidth img)
              | Video v => ofZ (videoWidth v) end) n0 in
    let sourceHeight :=
      orElse (match el with
              | Image img => ofZ (naturalHeight img)
              | Video v => ofZ (videoHeight v) end) n0 in
    if negb (truthy sourceWidth) || negb (truthy sourceHeight)
       || (sourceWidth <=? n0)%js || (sourceHeight <=? n0)%js
    then [restore; restore]
    else
      let overallScale := (zoomPercent / n100)%js in
      let sourceAspect := (sourceWidth / sourceHeight)%js in
      let destAspect := (dWidth / dHeight)%js in
      let coverScale :=
        if (sourceAspect >? destAspect)%js
        then (dHeight / sourceHeight)%js
        else (dWidth / sourceWidth)%js in
      let finalScale := (coverScale * overallScale)%js in
      if (finalScale <=? n0)%js || negb (Number_isFinite finalScale)
      then [restore; restore]
      else
        let sWidthFinal := (dWidth / finalScale)%js in
        let sHeightFinal := (dHeight / finalScale)%js in
        let sxIdeal := (sourceWidth * x relativeFocus - sWidthFinal / n2)%js in
        let syIdeal := (sourceHeight * y relativeFocus - sHeightFinal / n2)%js in
        let sx := clamp sxIdeal n0 (Math_max n0 (sourceWidth - sWidthFinal)%js) in
        let sy := clamp syIdeal n0 (Math_max n0 (sourceHeight - sHeightFinal)%js) in
        let sWidth := sWidthFinal in
        let sHeight := sHeightFinal in
        let dX := dx in
        let dY := dy in
        let dW := dWidth in
        let dH := dHeight in
        (if (sWidth >? n0)%js && (sHeight >? n0)%js
            && (dW >? n0)%js && (dH >? n0)%js
            && Number_isFinite sx && Number_isFinite sy
            && Number_isFinite sWidth && Number_isFinite sHeight
         then [drawImage el sx sy sWidth sHeight dX dY dW dH]
         else [])
        ++ [restore]
  end.

(** ** [index.tsx]: the per-slot draw of the exporter *)

(** [drawFinalMedia], local to [saveCompositeImage]: the calls made on the
    export context for one half of the output. *)
Definition drawFinalMedia (mediaEl : HTMLImageElement) (section : Side)
    (outputWidth outputHeight zoom : number) (focus : RelativeFocus)
    : list CanvasCall :=
  let sectionWidth := (outputWidth / n2)%js in
  let sectionHeight := outputHeight in
  let sectionDx := match section with Left => n0 | Right => sectionWidth end in
  let sectionDy := n0 in
  [save; beginPath; rect sectionDx sectionDy sectionWidth sectionHeight; clip] ++
  let sourceWidth := ofZ (naturalWidth mediaEl) in
  let sourceHeight := ofZ (naturalHeight mediaEl) in
  if (sourceWidth <=? n0)%js || (sourceHeight <=? n0)%js
  then [restore]
  else
    let overallScale := (zoom / n100)%js in
    let sourceAspect := (sourceWidth / sourceHeight)%js in
    let destAspect := (sectionWidth / sectionHeight)%js in
    let coverScale :=
      if (sourceAspect >? destAspect)%js
      then (sectionHeight / sourceHeight)%js
      else (sectionWidth / sourceWidth)%js in
    let finalScale := (coverScale * overallScale)%js in
    if (finalScale <=? n0)%js || negb (Number_isFinite finalScale)
    then [restore]
    else
      let sWidthFinal := (sectionWidth / finalScale)%js in
      let sHeightFinal := (sectionHeight / finalScale)%js in
      let sxIdeal := (sourceWidth * x focus - sWidthFinal / n2)%js in
      let syIdeal := (sourceHeight * y focus - sHeightFinal / n2)%js in
      let sx := clamp sxIdeal n0 (Math_max n0 (sourceWidth - sWidthFinal)%js) in
      let sy := clamp syIdeal n0 (Math_max n0 (sourceHeight - sHeightFinal)%js) in
      let sWidth := sWidthFinal in
      let sHeight := sHeightFinal in
      (if (sWidth >? n0)%js && (sHeight >? n0)%js
          && Number_isFinite sx && Number_isFinite sy
          && Number_isFinite sWidth && Number_isFinite sHeight
       then [drawImage (Image mediaEl) sx sy sWidth sHeight
                       sectionDx sectionDy sectionWidth sectionHeight]
       else [])
      ++ [restore].

(** The source rectangle [(sx, sy, sWidth, sHeight)] of the [drawImage]
    call of a draw, if it made one. *)
Record SourceRect : Type := {
  rect_sx : number; rect_sy : number;
  rect_sWidth : number; rect_sHeight : number
}.

Fixpoint sourceRectOf (calls : list CanvasCall) : option SourceRect :=
  match calls with
  | [] => None
  | drawImage _ sx sy sw sh _ _ _ _ :: _ =>
      Some {| rect_sx := sx; rect_sy := sy; rect_sWidth := sw; rect_sHeight := sh |}
  | _ :: rest => sourceRectOf rest
  end.

(** ** [index.tsx]: state of the [ImageCombiner] component

    The component keeps one group of [useState] cells per slot; the
    generic loader [loadMediaEffect] receives the setters of one group,
    which the model renders as the slot it works on. *)

Inductive MediaType : Type := image | video.

(** Left and right slot: [leftMedia], [leftMediaType], [leftMediaElement],
    [leftZoom], [leftRelativeFocus], [leftLoadError], [isLoadingLeft]
    (and the same with [right]). *)
Record MediaSlot : Type := {
  sMedia : option string;
  sMediaType : option MediaType;
  sElement : option MediaElement;
  sZoom : number;
  sFocus : RelativeFocus;
  sLoadError : option string;
  sLoading : bool
}.

(** Logo slot: [logo], [logoElement], [logoZoom], [logoPosition],
    [logoLoadError], [isLoadingLogo]. *)
Record LogoSlot : Type := {
  logo : option string;
  logoElement : option HTMLImageElement;
  logoZoom : number;
  logoPosition : RelativeFocus;
  logoLoadError : option string;
  isLoadingLogo : bool
}.

(** The messages [setSaveError] receives. *)
Inductive ExportFailure : Type :=
| invalidFinalDimensions (finalWidth finalHeight : number)
| noContext2d.

Inductive SaveMessage : Type :=
| saveNotReady
| saveBlobFailed
| saveFailed (cause : ExportFailure).

Open Scope string_scope.

Definition exportFailureText (e : ExportFailure) : string :=
  match e with
  | invalidFinalDimensions _ _ => "Final image dimensions calculated invalid"
  | noContext2d => "Could not get 2D context for final canvas."
  end.

Definition saveMessageText (m : SaveMessage) : string :=
  match m with
  | saveNotReady =>
      "Select two valid image files and ensure the logo (if selected) is loaded. Both left and right sides must be images."
  | saveBlobFailed => "Falha ao gerar o blob da imagem final."
  | saveFailed cause => "Falha ao salvar: " ++ exportFailureText cause
  end.

Record CombinerState : Type := {
  leftSlot : MediaSlot;
  rightSlot : MediaSlot;
  logoSlot : LogoSlot;
  isSaving : bool;
  saveError : option SaveMessage;
  isMounted : bool
}.

Definition half : number := Fin (1 # 2).

Definition initialSlot : MediaSlot := {|
  sMedia := None; sMediaType := None; sElement := None;
  sZoom := n100; sFocus := {| x := half; y := half |};
  sLoadError := None; sLoading := false
|}.

Definition initialLogoSlot : LogoSlot := {|
  logo := None; logoElement := None; logoZoom := Fin 10;
  logoPosition := {| x := Fin 50; y := Fin 90 |};
  logoLoadError := None; isLoadingLogo := false
|}.

Definition initialCombiner : CombinerState := {|
  leftSlot := initialSlot; rightSlot := initialSlot; logoSlot := initialLogoSlot;
  isSaving := false; saveError := None; isMounted := true
|}.

Definition getSlot (side : Side) (st : CombinerState) : MediaSlot :=
  match side with Left => leftSlot st | Right => rightSlot st end.

Definition setSlot (side : Side) (slot : MediaSlot) (st : CombinerState)
    : CombinerState :=
  match side with
  | Left => {| leftSlot := slot; rightSlot := rightSlot st; logoSlot := logoSlot st;
               isSaving := isSaving st; saveError := saveError st;
               isMounted := isMounted st |}
  | Right => {| leftSlot := leftSlot st; rightSlot := slot; logoSlot := logoSlot st;
                isSaving := isSaving st; saveError := saveError st;
                isMounted := isMounted st |}
  end.

Definition setLogoSlot (slot : LogoSlot) (st : CombinerState) : CombinerState :=
  {| leftSlot := leftSlot st; rightSlot := rightSlot st; logoSlot := slot;
     isSaving := isSaving st; saveError := saveError st; isMounted := isMounted st |}.

Definition setSaveError (e : option SaveMessage) (st : CombinerState)
    : CombinerState :=
  {| leftSlot := leftSlot st; rightSlot := rightSlot st; logoSlot := logoSlot st;
     isSaving := isSaving st; saveError := e; isMounted := isMounted st |}.

Definition setIsSaving (b : bool) (st : CombinerState) : CombinerState :=
  {| leftSlot := leftSlot st; rightSlot := rightSlot st; logoSlot := logoSlot st;
     isSaving := b; saveError := saveError st; isMounted := isMounted st |}.

Definition setIsMounted (b : bool) (st : CombinerState) : CombinerState :=
  {| leftSlot := leftSlot st; rightSlot := rightSlot st; logoSlot := logoSlot st;
     isSaving := isSaving st; saveError := saveError st; isMounted := b |}.

(** Setters of one slot's cells. *)
Definition setMedia (m : option string) (t : option MediaType) (s : MediaSlot)
    : MediaSlot :=
  {| sMedia := m; sMediaType := t; sElement := sElement s; sZoom := sZoom s;
     sFocus := sFocus s; sLoadError := sLoadError s; sLoading := sLoading s |}.

Definition setMediaElement (el : option MediaElement) (s : MediaSlot) : MediaSlot :=
  {| sMedia := sMedia s; sMediaType := sMediaType s; sElement := el;
     sZoom := sZoom s; sFocus := sFocus s; sLoadError := sLoadError s;
     sLoading := sLoading s |}.

Definition setZoom (z : number) (s : MediaSlot) : MediaSlot :=
  {| sMedia := sMedia s; sMediaType := sMediaType s; sElement := sElement s;
     sZoom := z; sFocus := sFocus s; sLoadError := sLoadError s;
     sLoading := sLoading s |}.

Definition setRelativeFocus (f : RelativeFocus) (s : MediaSlot) : MediaSlot :=
  {| sMedia := sMedia s; sMediaType := sMediaType s; sElement := sElement s;
     sZoom := sZoom s; sFocus := f; sLoadError := sLoadError s;
     sLoading := sLoading s |}.

Definition setLoadError (e : option string) (s : MediaSlot) : MediaSlot :=
  {| sMedia := sMedia s; sMediaType := sMediaType s; sElement := sElement s;
     sZoom := sZoom s; sFocus := sFocus s; sLoadError := e;
     sLoading := sLoading s |}.

Definition setLoading (b : bool) (s : MediaSlot) : MediaSlot :=
  {| sMedia := sMedia s; sMediaType := sMediaType s; sElement := sElement s;
     sZoom := sZoom s; sFocus := sFocus s; sLoadError := sLoadError s;
     sLoading := b |}.

Definition setLogo (l : option string) (s : LogoSlot) : LogoSlot :=
  {| logo := l; logoElement := logoElement s; logoZoom := logoZoom s;
     logoPosition := logoPosition s; logoLoadError := logoLoadError s;
     isLoadingLogo := isLoadingLogo s |}.

Definition setLogoElement (el : option HTMLImageElement) (s : LogoSlot) : LogoSlot :=
  {| logo := logo s; logoElement := el; logoZoom := logoZoom s;
     logoPosition := logoPosition s; logoLoadError := logoLoadError s;
     isLoadingLogo := isLoadingLogo s |}.

Definition setLogoZoom (z : number) (s : LogoSlot) : LogoSlot :=
  {| logo := logo s; logoElement := logoElement s; logoZoom := z;
     logoPosition := logoPosition s; logoLoadError := logoLoadError s;
     isLoadingLogo := isLoadingLogo s |}.

Definition setLogoPosition (p : RelativeFocus) (s : LogoSlot) : LogoSlot :=
  {| logo := logo s; logoElement := logoElement s; logoZoom := logoZoom s;
     logoPosition := p; logoLoadError := logoLoadError s;
     isLoadingLogo := isLoadingLogo s |}.

Definition setLogoLoadError (e : option string) (s : LogoSlot) : LogoSlot :=
  {| logo := logo s; logoElement := logoElement s; logoZoom := logoZoom s;
     logoPosition := logoPosition s; logoLoadError := e;
     isLoadingLogo := isLoadingLogo s |}.

Definition setIsLoadingLogo (b : bool) (s : LogoSlot) : LogoSlot :=
  {| logo := logo s; logoElement := logoElement s; logoZoom := logoZoom s;
     logoPosition := logoPosition s; logoLoadError := logoLoadError s;
     isLoadingLogo := b |}.

(** The names the source gives to the cells. *)
Definition leftMediaElement (st : CombinerState) := sElement (leftSlot st).
Definition rightMediaElement (st : CombinerState) := sElement (rightSlot st).
Definition leftZoom (st : CombinerState) := sZoom (leftSlot st).
Definition rightZoom (st : CombinerState) := sZoom (rightSlot st).
Definition leftRelativeFocus (st : CombinerState) := sFocus (leftSlot st).
Definition rightRelativeFocus (st : CombinerState) := sFocus (rightSlot st).
Definition isLoadingLeft (st : CombinerState) := sLoading (leftSlot st).
Definition isLoadingRight (st : CombinerState) := sLoading (rightSlot st).

Open Scope list_scope.

(** ** Effects

    What a handler does outside the component state, in order: object
    URLs, timers, writes to the element being loaded, the export canvas
    and the download. *)

Inductive Effect : Type :=
| revokeObjectURL (url : string)
| setTimeout (ms : Z)
| clearTimeout
| setElementSrc (src : string)
| videoLoad
| createCanvas (width height : number)
| ctx (call : CanvasCall)
| toBlob (type : string) (quality : number)
| createObjectURL
| anchorClick (download : string)
| requestAnimationFrame
| cancelAnimationFrame.

(** ** [index.tsx]: [loadMediaElement]

    The promise is modelled by its start, which arms the timer and
    creates the element, and by the event that settles it. *)

Inductive LoadFailure : Type :=
| loadTimeout (side : Target)
| imageInvalidDimensions (side : Target)
| imageError (side : Target)
| videoInvalid (side : Target)
| videoError (side : Target).

Definition sideName (side : Target) : string :=
  match side with
  | Slot Left => "left"
  | Slot Right => "right"
  | Logo => "logo"
  end.

(** The message of the [Error] the promise is rejected with (for a video
    error, up to the browser's own text). *)
Definition failureMessage (e : LoadFailure) : string :=
  (match e with
  | loadTimeout s => "Timeout loading media (" ++ sideName s ++ ")"
  | imageInvalidDimensions s =>
      "Image loaded but with invalid dimensions (" ++ sideName s ++ ")"
  | imageError s => "Error loading image (" ++ sideName s ++ ")"
  | videoInvalid s =>
      "Video loaded but with invalid dimensions or readyState (" ++ sideName s ++ ")"
  | videoError s => "Error loading video (" ++ sideName s ++ ")"
  end)%string.

Inductive Settled : Type :=
| resolved (element : option MediaElement)
| rejected (error : LoadFailure).

(** A load in flight: the element created for it, known by its kind and
    its [src], and the timer armed for it. *)
Record PendingLoad : Type := {
  pSide : Target;
  pType : MediaType;
  pSrc : string;
  pTimeout : Z
}.

Inductive LoadStart : Type :=
| resolvedNull
| pending (p : PendingLoad) (effects : list Effect).

(** [loadMediaElement(dataUrl, type, side)] up to the return of the
    promise.  A [type] outside ['image' | 'video'] cannot be passed. *)
Definition loadMediaElement (dataUrl : string) (type : option MediaType)
    (side : Target) : LoadStart :=
  match type with
  | None => resolvedNull
  | Some t =>
    if dataUrl =? "" then resolvedNull
    else
      pending {| pSide := side; pType := t; pSrc := dataUrl; pTimeout := 20000 |}
              (setTimeout 20000 ::
               match t with
               | image => [setElementSrc dataUrl]
               | video => [setElementSrc dataUrl; videoLoad]
               end)
  end.

(** What can happen to a load in flight. *)
Inductive LoadEvent : Type :=
| timeoutFired
| img_onload (naturalWidth naturalHeight : Z)
| img_onerror
| video_handleReady (videoWidth videoHeight readyState : Z)
| video_onerror.

(** The callback of [setTimeout]: the element's [src] is cleared (and the
    cleared [src] is what [revokeObjectURL] is given), a video is told to
    [load()] again, and the promise is rejected. *)
Definition onTimeout (p : PendingLoad) : list Effect * Settled :=
  ((if negb (pSrc p =? "") && prefix "blob:" (pSrc p)
    then [setElementSrc ""; revokeObjectURL ""]
    else [setElementSrc ""])
   ++ (match pType p with video => [videoLoad] | image => [] end)
   ++ [clearTimeout],
   rejected (loadTimeout (pSide p))).

(** The handler that settles the promise for each event; [None] when the
    event cannot reach an element of that kind. *)
Definition settle (p : PendingLoad) (ev : LoadEvent)
    : option (list Effect * Settled) :=
  match ev, pType p with
  | timeoutFired, _ => Some (onTimeout p)
  | img_onload w h, image =>
      Some ([clearTimeout],
            if (0 <? w)%Z && (0 <? h)%Z
            then resolved (Some (Image {| naturalWidth := w; naturalHeight := h;
                                          img_src := pSrc p |}))
            else rejected (imageInvalidDimensions (pSide p)))
  | img_onerror, image => Some ([clearTimeout], rejected (imageError (pSide p)))
  | video_handleReady w h rs, video =>
      Some ([clearTimeout],
            if (0 <? w)%Z && (0 <? h)%Z && (2 <=? rs)%Z
            then resolved (Some (Video {| videoWidth := w; videoHeight := h;
                                          readyState := rs; video_src := pSrc p |}))
            else rejected (videoInvalid (pSide p)))
  | video_onerror, video => Some ([clearTimeout], rejected (videoError (pSide p)))
  | _, _ => None
  end.

(** ** [index.tsx]: [loadMediaEffect] and [loadLogoEffect] *)

(** A string or [null] is falsy when it is [null] or empty. *)
Definition falsy (s : option string) : bool :=
  match s with
  | None => true
  | Some str => str =? ""
  end.

Definition isBlobUrl (src : string) : bool :=
  negb (src =? "") && prefix "blob:" src.

Definition cleanupObjectURL (element : option MediaElement) : list Effect :=
  match element with
  | Some el => if isBlobUrl (element_src el)
               then [revokeObjectURL (element_src el)] else []
  | None => []
  end.

(** [resetFocusZoom] of the left and right triggers. *)
Definition resetFocusZoom (s : MediaSlot) : MediaSlot :=
  setZoom n100 (setRelativeFocus {| x := half; y := half |} s).

(** [resetLogoPosZoom] of the logo trigger. *)
Definition resetLogoPosZoom (s : LogoSlot) : LogoSlot :=
  setLogoZoom (Fin 10) (setLogoPosition {| x := Fin 50; y := Fin 90 |} s).

(** [loadMediaEffect] up to its first [await]: the new state, the effects,
    and the URL whose fetch is awaited when a load goes on. *)
Definition loadMediaEffect_start (mediaUrl : option string)
    (mediaType : option MediaType) (side : Side) (st : CombinerState)
    : CombinerState * list Effect * option (string * MediaType) :=
  let slot := getSlot side st in
  let effects := cleanupObjectURL (sElement slot) in
  let slot1 :=
    resetFocusZoom
      (setLoadError None (setMediaElement None (setLoading true slot))) in
  let st1 := setSaveError None (setSlot side slot1 st) in
  match mediaUrl, mediaType with
  | Some url, Some t =>
      if url =? ""
      then (setSlot side (setLoading false slot1) st1, effects, None)
      else (st1, effects, Some (url, t))
  | _, _ => (setSlot side (setLoading false slot1) st1, effects, None)
  end.

(** After the fetch: [fetched] is the object URL made from the blob, or
    [None] when making it threw; then [loadMediaElement] is started. *)
Definition loadMediaEffect_fetched (mediaUrl : string) (mediaType : MediaType)
    (side : Side) (fetched : option string) (st : CombinerState)
    : CombinerState * option string * LoadStart :=
  match fetched with
  | Some loadingUrl =>
      (st, Some loadingUrl, loadMediaElement loadingUrl (Some mediaType) (Slot side))
  | None =>
      (setSlot side
         (setLoadError (Some "Failed to process file for preview.") (getSlot side st)) st,
       None, loadMediaElement mediaUrl (Some mediaType) (Slot side))
  end.

Definition revokeTemp (objectUrlToClean : option string) : list Effect :=
  match objectUrlToClean with
  | Some url => if url =? "" then [] else [revokeObjectURL url]
  | None => []
  end.

(** After [loadMediaElement] has settled: the [try]/[catch]/[finally]
    around the second [await]. *)
Definition loadMediaEffect_settled (side : Side) (objectUrlToClean : option string)
    (outcome : Settled) (st : CombinerState) : CombinerState * list Effect :=
  let slot := getSlot side st in
  match outcome with
  | resolved element =>
      if isMounted st
      then (setSlot side (setLoading false (setMediaElement element slot)) st, [])
      else (st, cleanupObjectURL element ++ revokeTemp objectUrlToClean)
  | rejected _ =>
      if isMounted st
      then (setSlot side
              (setLoading false
                 (setLoadError (Some "Error loading media.")
                    (setMediaElement None slot))) st,
            revokeTemp objectUrlToClean)
      else (st, revokeTemp objectUrlToClean)
  end.

Definition cleanupLogoURL (element : option HTMLImageElement) : list Effect :=
  match element with
  | Some img => cleanupObjectURL (Some (Image img))
  | None => []
  end.

(** [loadLogoEffect] up to its first [await] (or up to [loadMediaElement]
    for an SVG data URL, which is not fetched). *)
Definition loadLogoEffect_start (logoUrl : option string) (st : CombinerState)
    : CombinerState * list Effect * option string :=
  let slot := logoSlot st in
  let effects := cleanupLogoURL (logoElement slot) in
  let slot1 :=
    resetLogoPosZoom
      (setLogoLoadError None (setLogoElement None (setIsLoadingLogo true slot))) in
  let st1 := setSaveError None (setLogoSlot slot1 st) in
  match logoUrl with
  | Some url =>
      if url =? ""
      then (setLogoSlot (setIsLoadingLogo false slot1) st1, effects, None)
      else (st1, effects, Some url)
  | None => (setLogoSlot (setIsLoadingLogo false slot1) st1, effects, None)
  end.

(** The logo's fetch step: skipped for an SVG data URL; a fetch that
    throws ends the attempt. *)
Definition loadLogoEffect_fetched (logoUrl : string) (fetched : option string)
    (st : CombinerState) : CombinerState * option string * option LoadStart :=
  if prefix "data:image/svg+xml" logoUrl
  then (st, None, Some (loadMediaElement logoUrl (Some image) Logo))
  else
    match fetched with
    | Some loadingUrl =>
        (st, Some loadingUrl, Some (loadMediaElement loadingUrl (Some image) Logo))
    | None =>
        (setLogoSlot
           (setLogoLoadError (Some "Failed to process logo for preview.")
              (setIsLoadingLogo false (logoSlot st))) st,
         None, None)
    end.

Definition asImage (element : option MediaElement) : option HTMLImageElement :=
  match element with
  | Some (Image img) => Some img
  | _ => None
  end.

Definition loadLogoEffect_settled (objectUrlToClean : option string)
    (outcome : Settled) (st : CombinerState) : CombinerState * list Effect :=
  let slot := logoSlot st in
  match outcome with
  | resolved element =>
      if isMounted st
      then (setLogoSlot (setIsLoadingLogo false
                           (setLogoElement (asImage element) slot)) st, [])
      else (st, cleanupObjectURL element ++ revokeTemp objectUrlToClean)
  | rejected _ =>
      if isMounted st
      then (setLogoSlot
              (setIsLoadingLogo false
                 (setLogoLoadError (Some "Error loading logo.")
                    (setLogoElement None slot))) st,
            revokeTemp objectUrlToClean)
      else (st, revokeTemp objectUrlToClean)
  end.

(** ** [index.tsx]: the file inputs and the effects they trigger

    [onFileSelect] reads the file as a data URL; on success it stores the
    detected type and the URL.  The load effect of the slot depends on
    both cells and runs when one of them has changed. *)

Definition detectType (fileType : string) : option MediaType :=
  if prefix "video/" fileType then Some video
  else if prefix "image/" fileType then Some image
  else None.

Definition optStringEq (a b : option string) : bool :=
  match a, b with
  | Some s, Some t => s =? t
  | None, None => true
  | _, _ => false
  end.

Definition optTypeEq (a b : option MediaType) : bool :=
  match a, b with
  | Some image, Some image | Some video, Some video | None, None => true
  | _, _ => false
  end.

Definition onFileSelect (side : Side) (fileType : string) (result : option string)
    (st : CombinerState)
    : CombinerState * list Effect * option (string * MediaType) :=
  let slot := getSlot side st in
  match result with
  | None =>
      (setSlot side (setLoadError (Some "Erro interno ao processar arquivo.") slot) st,
       [], None)
  | Some dataUrl =>
    match detectType fileType with
    | None =>
        (setSlot side (setLoadError (Some "Tipo de arquivo nao suportado") slot) st,
         [], None)
    | Some t =>
        let st1 :=
          setSlot side (setLoadError None (setMedia (Some dataUrl) (Some t) slot)) st in
        if optStringEq (sMedia slot) (Some dataUrl) && optTypeEq (sMediaType slot) (Some t)
        then (st1, [], None)
        else loadMediaEffect_start (Some dataUrl) (Some t) side st1
    end
  end.

Definition onLogoSelect (fileType : string) (result : option string)
    (st : CombinerState) : CombinerState * list Effect * option string :=
  let slot := logoSlot st in
  if negb (prefix "image/" fileType)
  then (setLogoSlot (setLogoLoadError (Some "Arquivo de logo deve ser uma imagem.") slot) st,
        [], None)
  else
    match result with
    | None => (setLogoSlot (setLogoLoadError (Some "Erro interno ao ler logo.") slot) st,
               [], None)
    | Some dataUrl =>
        let st1 := setLogoSlot (setLogoLoadError None (setLogo (Some dataUrl) slot)) st in
        if optStringEq (logo slot) (Some dataUrl)
        then (st1, [], None)
        else loadLogoEffect_start (Some dataUrl) st1
    end.

(** ** [index.tsx]: the exporter *)

Definition isLoadedImage (element : option MediaElement) : bool :=
  match element with
  | Some (Image img) => (0 <? naturalWidth img)%Z && (0 <? naturalHeight img)%Z
  | _ => false
  end.

(** [canSaveComposite] *)
Definition canSaveComposite (st : CombinerState) : bool :=
  let leftIsLoadedImage := isLoadedImage (leftMediaElement st) in
  let rightIsLoadedImage := isLoadedImage (rightMediaElement st) in
  let logoIsLoadedImageOrNotProvided :=
    falsy (logo (logoSlot st))
    || (match logoElement (logoSlot st) with
        | Some img => (0 <? naturalWidth img)%Z && (0 <? naturalHeight img)%Z
        | None => false
        end && negb (isLoadingLogo (logoSlot st))) in
  leftIsLoadedImage && rightIsLoadedImage && logoIsLoadedImageOrNotProvided
  && negb (isLoadingLeft st) && negb (isLoadingRight st).

(** The element [document.getElementById('combined-preview-container')]
    finds, by its layout size. *)
Record Container : Type := { offsetWidth : Z; offsetHeight : Z }.

Definition defaultAspect : number := (Fin 16 / Fin 9)%js.

Definition displayAspect (container : option Container) : number :=
  match container with
  | Some c =>
      if (0 <? offsetWidth c)%Z && (0 <? offsetHeight c)%Z
      then (ofZ (offsetWidth c) / ofZ (offsetHeight c))%js
      else defaultAspect
  | None => defaultAspect
  end.

(** The aspect ratio of the live preview container as a rational:
    its layout width over its layout height, or 16:9 when the container
    is missing or has no size. *)
Definition containerAspect (container : option Container) : Q :=
  match container with
  | Some c =>
      if (0 <? offsetWidth c)%Z && (0 <? offsetHeight c)%Z
      then inject_Z (offsetWidth c) / inject_Z (offsetHeight c)
      else 16 # 9
  | None => 16 # 9
  end.


(** The logo overlay of the export. *)
Definition drawFinalLogo (safeLogoElement : HTMLImageElement)
    (finalWidth finalHeight zoom : number) (position : RelativeFocus)
    : list CanvasCall :=
  let logoAspectRatio :=
    (ofZ (naturalHeight safeLogoElement) / ofZ (naturalWidth safeLogoElement))%js in
  let targetLogoWidth := (finalWidth * zoom / n100)%js in
  let targetLogoHeight :=
    (targetLogoWidth * (if isNaN logoAspectRatio then n1 else logoAspectRatio))%js in
  let logoCenterX := (finalWidth * x position / n100)%js in
  let logoCenterY := (finalHeight * y position / n100)%js in
  let logoDrawX := (logoCenterX - targetLogoWidth / n2)%js in
  let logoDrawY := (logoCenterY - targetLogoHeight / n2)%js in
  let logoDrawX := clamp logoDrawX n0 (Math_max n0 (finalWidth - targetLogoWidth)%js) in
  let logoDrawY := clamp logoDrawY n0 (Math_max n0 (finalHeight - targetLogoHeight)%js) in
  if (targetLogoWidth >? n0)%js && (targetLogoHeight >? n0)%js
  then [drawImageAt (Image safeLogoElement) logoDrawX logoDrawY
                    targetLogoWidth targetLogoHeight]
  else [].

(** [saveCompositeImage] up to the call of [canvas.toBlob]; [getContext]
    tells whether the new canvas yields a 2D context.  The two casts to
    [HTMLImageElement] are covered by [canSaveComposite]. *)
Definition saveCompositeImage (container : option Container) (getContext : bool)
    (st : CombinerState) : CombinerState * list Effect :=
  if negb (canSaveComposite st)
  then (setSaveError (Some saveNotReady) st, [])
  else
    match leftMediaElement st, rightMediaElement st with
    | Some (Image safeLeftElement), Some (Image safeRightElement) =>
      let safeLogoElement := logoElement (logoSlot st) in
      let st1 := setSaveError None (setIsSaving true st) in
      let failWith (cause : ExportFailure) (done : list Effect) :=
        if isMounted st1
        then (setIsSaving false (setSaveError (Some (saveFailed cause)) st1), done)
        else (st1, done) in
      let targetWidthPerImage :=
        Math_max3 (ofZ (naturalWidth safeLeftElement))
                  (ofZ (naturalWidth safeRightElement)) (Fin 500) in
      let finalWidth := (targetWidthPerImage * n2)%js in
      let finalHeight := Math_ceil (finalWidth / displayAspect container)%js in
      if negb (Number_isFinite finalWidth) || (finalWidth <=? n0)%js
         || negb (Number_isFinite finalHeight) || (finalHeight <=? n0)%js
      then failWith (invalidFinalDimensions finalWidth finalHeight) []
      else if negb getContext
      then failWith noContext2d [createCanvas finalWidth finalHeight]
      else
        (st1,
         createCanvas finalWidth finalHeight
         :: map ctx
              ([fillStyle "#ffffff"; fillRect n0 n0 finalWidth finalHeight]
               ++ drawFinalMedia safeLeftElement Left finalWidth finalHeight
                    (leftZoom st) (leftRelativeFocus st)
               ++ drawFinalMedia safeRightElement Right finalWidth finalHeight
                    (rightZoom st) (rightRelativeFocus st)
               ++ match safeLogoElement with
                  | Some img =>
                      drawFinalLogo img finalWidth finalHeight
                        (logoZoom (logoSlot st)) (logoPosition (logoSlot st))
                  | None => []
                  end)
         ++ [toBlob "image/png" (Fin (19 # 20))])
    | _, _ => (st, [])
    end.

(** The callback of [canvas.toBlob]: [blob] is the object URL made for
    the blob, or [None] when the canvas produced no blob. *)
Definition saveCompositeImage_onBlob (blob : option string) (st : CombinerState)
    : CombinerState * list Effect :=
  match blob with
  | Some url =>
      if isMounted st
      then (setIsSaving false st,
            [createObjectURL; anchorClick "imagem-combinada.png"; revokeObjectURL url])
      else (st, [])
  | None =>
      if negb (isMounted st) then (st, [])
      else (setIsSaving false (setSaveError (Some saveBlobFailed) st), [])
  end.

(** The export canvas of a save, by its size, and the name of the file a
    run of effects offers for download. *)
Fixpoint canvasSize (effects : list Effect) : option (number * number) :=
  match effects with
  | [] => None
  | createCanvas w h :: _ => Some (w, h)
  | _ :: rest => canvasSize rest
  end.

Fixpoint downloadName (effects : list Effect) : option string :=
  match effects with
  | [] => None
  | anchorClick name :: _ => Some name
  | _ :: rest => downloadName rest
  end.

Fixpoint blobType (effects : list Effect) : option string :=
  match effects with
  | [] => None
  | toBlob type _ :: _ => Some type
  | _ :: rest => blobType rest
  end.

Definition isCanvasWork (e : Effect) : bool :=
  match e with
  | createCanvas _ _ | ctx _ | toBlob _ _ => true
  | _ => false
  end.

(** ** [combined-preview-area.tsx]: interaction state

    The preview area receives the combiner's cells as props and its
    setters as callbacks; its own cells hold the gesture session. *)

Record GestureState : Type := {
  activeDrag : option Target;
  dragStart : RelativeFocus;
  initialDragFocus : RelativeFocus;
  initialLogoPos : RelativeFocus;
  isTouching : bool;
  isPinching : bool;
  initialPinchDistance : number;
  pinchSide : option Side;
  zoomAtPinchStart : number;
  animationFrameId : bool
}.

Definition initialGesture : GestureState := {|
  activeDrag := None;
  dragStart := {| x := n0; y := n0 |};
  initialDragFocus := {| x := half; y := half |};
  initialLogoPos := {| x := Fin 50; y := Fin 90 |};
  isTouching := false;
  isPinching := false;
  initialPinchDistance := n0;
  pinchSide := None;
  zoomAtPinchStart := n100;
  animationFrameId := false
|}.

Definition setActiveDrag (d : option Target) (g : GestureState) : GestureState :=
  {| activeDrag := d; dragStart := dragStart g;
     initialDragFocus := initialDragFocus g; initialLogoPos := initialLogoPos g;
     isTouching := isTouching g; isPinching := isPinching g;
     initialPinchDistance := initialPinchDistance g; pinchSide := pinchSide g;
     zoomAtPinchStart := zoomAtPinchStart g;
     animationFrameId := animationFrameId g |}.

Definition setDragStart (p : RelativeFocus) (g : GestureState) : GestureState :=
  {| activeDrag := activeDrag g; dragStart := p;
     initialDragFocus := initialDragFocus g; initialLogoPos := initialLogoPos g;
     isTouching := isTouching g; isPinching := isPinching g;
     initialPinchDistance := initialPinchDistance g; pinchSide := pinchSide g;
     zoomAtPinchStart := zoomAtPinchStart g;
     animationFrameId := animationFrameId g |}.

Definition setInitialDragFocus (f : RelativeFocus) (g : GestureState) : GestureState :=
  {| activeDrag := activeDrag g; dragStart := dragStart g;
     initialDragFocus := f; initialLogoPos := initialLogoPos g;
     isTouching := isTouching g; isPinching := isPinching g;
     initialPinchDistance := initialPinchDistance g; pinchSide := pinchSide g;
     zoomAtPinchStart := zoomAtPinchStart g;
     animationFrameId := animationFrameId g |}.

Definition setInitialLogoPos (p : RelativeFocus) (g : GestureState) : GestureState :=
  {| activeDrag := activeDrag g; dragStart := dragStart g;
     initialDragFocus := initialDragFocus g; initialLogoPos := p;
     isTouching := isTouching g; isPinching := isPinching g;
     initialPinchDistance := initialPinchDistance g; pinchSide := pinchSide g;
     zoomAtPinchStart := zoomAtPinchStart g;
     animationFrameId := animationFrameId g |}.

Definition setIsTouching (b : bool) (g : GestureState) : GestureState :=
  {| activeDrag := activeDrag g; dragStart := dragStart g;
     initialDragFocus := initialDragFocus g; initialLogoPos := initialLogoPos g;
     isTouching := b; isPinching := isPinching g;
     initialPinchDistance := initialPinchDistance g; pinchSide := pinchSide g;
     zoomAtPinchStart := zoomAtPinchStart g;
     animationFrameId := animationFrameId g |}.

Definition setIsPinching (b : bool) (g : GestureState) : GestureState :=
  {| activeDrag := activeDrag g; dragStart := dragStart g;
     initialDragFocus := initialDragFocus g; initialLogoPos := initialLogoPos g;
     isTouching := isTouching g; isPinching := b;
     initialPinchDistance := initialPinchDistance g; pinchSide := pinchSide g;
     zoomAtPinchStart := zoomAtPinchStart g;
     animationFrameId := animationFrameId g |}.

Definition setInitialPinchDistance (d : number) (g : GestureState) : GestureState :=
  {| activeDrag := activeDrag g; dragStart := dragStart g;
     initialDragFocus := initialDragFocus g; initialLogoPos := initialLogoPos g;
     isTouching := isTouching g; isPinching := isPinching g;
     initialPinchDistance := d; pinchSide := pinchSide g;
     zoomAtPinchStart := zoomAtPinchStart g;
     animationFrameId := animationFrameId g |}.

Definition setPinchSide (s : option Side) (g : GestureState) : GestureState :=
  {| activeDrag := activeDrag g; dragStart := dragStart g;
     initialDragFocus := initialDragFocus g; initialLogoPos := initialLogoPos g;
     isTouching := isTouching g; isPinching := isPinching g;
     initialPinchDistance := initialPinchDistance g; pinchSide := s;
     zoomAtPinchStart := zoomAtPinchStart g;
     animationFrameId := animationFrameId g |}.

Definition setZoomAtPinchStart (z : number) (g : GestureState) : GestureState :=
  {| activeDrag := activeDrag g; dragStart := dragStart g;
     initialDragFocus := initialDragFocus g; initialLogoPos := initialLogoPos g;
     isTouching := isTouching g; isPinching := isPinching g;
     initialPinchDistance := initialPinchDistance g; pinchSide := pinchSide g;
     zoomAtPinchStart := z;
     animationFrameId := animationFrameId g |}.

Definition setAnimationFrameId (b : bool) (g : GestureState) : GestureState :=
  {| activeDrag := activeDrag g; dragStart := dragStart g;
     initialDragFocus := initialDragFocus g; initialLogoPos := initialLogoPos g;
     isTouching := isTouching g; isPinching := isPinching g;
     initialPinchDistance := initialPinchDistance g; pinchSide := pinchSide g;
     zoomAtPinchStart := zoomAtPinchStart g;
     animationFrameId := b |}.

(** The combiner together with its preview area. *)
Record App : Type := {
  combiner : CombinerState;
  gesture : GestureState
}.

Definition initialApp : App :=
  {| combiner := initialCombiner; gesture := initialGesture |}.

Definition withCombiner (f : CombinerState -> CombinerState) (a : App) : App :=
  {| combiner := f (combiner a); gesture := gesture a |}.

Definition withGesture (f : GestureState -> GestureState) (a : App) : App :=
  {| combiner := combiner a; gesture := f (gesture a) |}.

(** The callbacks the preview area is given: [onLeftZoomChange],
    [onLeftFocusChange], [onLogoPositionChange] and their likes. *)
Definition onZoomChange (side : Side) (z : number) (a : App) : App :=
  withCombiner (fun st => setSlot side (setZoom z (getSlot side st)) st) a.

Definition onFocusChange (side : Side) (f : RelativeFocus) (a : App) : App :=
  withCombiner (fun st => setSlot side (setRelativeFocus f (getSlot side st)) st) a.

Definition onLogoPositionChange (p : RelativeFocus) (a : App) : App :=
  withCombiner (fun st => setLogoSlot (setLogoPosition p (logoSlot st)) st) a.

Definition onLogoZoomChange (z : number) (a : App) : App :=
  withCombiner (fun st => setLogoSlot (setLogoZoom z (logoSlot st)) st) a.

(** A touch point or a pointer position; the DOM gives finite
    coordinates.  [DOMRect] is the container's bounding rectangle. *)
Record Touch : Type := { clientX : Q; clientY : Q }.

Record DOMRect : Type := { width : Q; height : Q }.

(** [mediaExists] of the two start handlers. *)
Definition mediaExists (type : Target) (st : CombinerState) : bool :=
  match type with
  | Slot side => match sElement (getSlot side st) with Some _ => true | None => false end
  | Logo => match logoElement (logoSlot st) with Some _ => true | None => false end
  end.

Definition isSome {A : Type} (o : option A) : bool :=
  match o with Some _ => true | None => false end.

(** [requestDraw]: one frame at most is pending. *)
Definition requestDraw (a : App) : App :=
  if animationFrameId (gesture a) then a
  else withGesture (setAnimationFrameId true) a.

(** [handleInteractionStart]; the test on [isPinching] reads the cell as
    it was when the handler was created. *)
Definition handleInteractionStart (cX cY : Q) (type : Target) (isTouch : bool)
    (a : App) : App * bool :=
  let a1 :=
    withGesture
      (fun g => setIsTouching isTouch
                  (setInitialPinchDistance n0
                     (setPinchSide None (setIsPinching false (setActiveDrag None g)))))
      a in
  if negb (mediaExists type (combiner a))
  then (withGesture (setIsTouching false) a1, false)
  else if isTouch && isPinching (gesture a)
  then (a1, false)
  else
    let a2 :=
      withGesture
        (fun g => setDragStart {| x := Fin cX; y := Fin cY |}
                    (setActiveDrag (Some type) g)) a1 in
    (match type with
     | Slot side =>
         withGesture (setInitialDragFocus (sFocus (getSlot side (combiner a)))) a2
     | Logo =>
         withGesture (setInitialLogoPos (logoPosition (logoSlot (combiner a)))) a2
     end, true).

(** [panMedia], local to [handleDragMove]: the new focus of the dragged
    slot, when the move yields one that differs from the current. *)
Definition panMedia (mediaElement : MediaElement) (zoom : number)
    (initialFocus current : RelativeFocus)
    (deltaX deltaY previewHalfWidth containerHeight : number)
    : option RelativeFocus :=
  let currentZoom := (zoom / n100)%js in
  let sourceWidth :=
    orElse (match mediaElement with
            | Image img => ofZ (naturalWidth img)
            | Video v => ofZ (videoWidth v) end) n1 in
  let sourceHeight :=
    orElse (match mediaElement with
            | Image img => ofZ (naturalHeight img)
            | Video v => ofZ (videoHeight v) end) n1 in
  let destAspect := (previewHalfWidth / containerHeight)%js in
  let sourceAspect := (sourceWidth / sourceHeight)%js in
  let scaleToCover :=
    if (sourceAspect >? destAspect)%js
    then (containerHeight / sourceHeight)%js
    else (previewHalfWidth / sourceWidth)%js in
  let finalScale := (scaleToCover * currentZoom)%js in
  if (finalScale <=? n0)%js || negb (Number_isFinite finalScale) then None
  else
    let effectiveFocusDeltaX := (deltaX / (sourceWidth * finalScale))%js in
    let effectiveFocusDeltaY := (deltaY / (sourceHeight * finalScale))%js in
    let newFocusX := clamp (x initialFocus - effectiveFocusDeltaX)%js n0 n1 in
    let newFocusY := clamp (y initialFocus - effectiveFocusDeltaY)%js n0 n1 in
    if strictNe newFocusX (x current) || strictNe newFocusY (y current)
    then Some {| x := newFocusX; y := newFocusY |}
    else None.

(** [handleDragMove]; [container] is the bounding rectangle of the
    preview container, when the container is there. *)
Definition handleDragMove (cX cY : Q) (container : option DOMRect) (a : App) : App :=
  let g := gesture a in
  let st := combiner a in
  match activeDrag g with
  | None => a
  | Some drag =>
    if isPinching g then a
    else
      let deltaX := (Fin cX - x (dragStart g))%js in
      let deltaY := (Fin cY - y (dragStart g))%js in
      match container with
      | None => a
      | Some containerRect =>
        let containerWidth := Fin (width containerRect) in
        let containerHeight := Fin (height containerRect) in
        if (containerWidth <=? n0)%js || (containerHeight <=? n0)%js then a
        else
          let previewHalfWidth := (containerWidth / n2)%js in
          match drag with
          | Slot side =>
            match sElement (getSlot side st) with
            | Some mediaElement =>
              match panMedia mediaElement (sZoom (getSlot side st))
                      (initialDragFocus g) (sFocus (getSlot side st))
                      deltaX deltaY previewHalfWidth containerHeight with
              | Some focus => requestDraw (onFocusChange side focus a)
              | None => a
              end
            | None => a
            end
          | Logo =>
            match logoElement (logoSlot st) with
            | Some _ =>
              let percentDeltaX := (deltaX / containerWidth * n100)%js in
              let percentDeltaY := (deltaY / containerHeight * n100)%js in
              let newLogoX := clamp (x (initialLogoPos g) + percentDeltaX)%js n0 n100 in
              let newLogoY := clamp (y (initialLogoPos g) + percentDeltaY)%js n0 n100 in
              if strictNe newLogoX (x (logoPosition (logoSlot st)))
                 || strictNe newLogoY (y (logoPosition (logoSlot st)))
              then onLogoPositionChange {| x := newLogoX; y := newLogoY |} a
              else a
            | None => a
            end
          end
      end
  end.

(** [handleDragEnd] *)
Definition handleDragEnd (a : App) : App :=
  let a1 := if isSome (activeDrag (gesture a))
            then withGesture (setActiveDrag None) a else a in
  if animationFrameId (gesture a1)
  then withGesture (setAnimationFrameId false) a1
  else a1.

(** [handleMouseDown]; [onArea] tells whether the event target is the
    interactive area of [type] (or lies in the logo container). *)
Definition handleMouseDown (button : Z) (onArea : bool) (type : Target)
    (cX cY : Q) (a : App) : App :=
  if negb (button =? 0)%Z then a
  else if onArea then fst (handleInteractionStart cX cY type false a)
  else a.

Definition handleMouseMove (cX cY : Q) (container : option DOMRect) (a : App) : App :=
  let g := gesture a in
  if isSome (activeDrag g) && negb (isTouching g) && negb (isPinching g)
  then handleDragMove cX cY container a
  else a.

Definition handleMouseUp (button : Z) (a : App) : App :=
  let g := gesture a in
  let a1 :=
    if (button =? 0)%Z && isSome (activeDrag g)
       && negb (isTouching g) && negb (isPinching g)
    then handleDragEnd a else a in
  if isTouching g then withGesture (setIsTouching false) a1 else a1.

(** [handleWheelZoom] *)
Definition handleWheelZoom (deltaY : Q) (side : Side) (a : App) : App :=
  let zoomAmount := (Fin deltaY * Fin (- (15 # 100)))%js in
  let currentZoom := sZoom (getSlot side (combiner a)) in
  match sElement (getSlot side (combiner a)) with
  | None => a
  | Some _ =>
      let newZoom := clamp (currentZoom + zoomAmount)%js MIN_ZOOM MAX_ZOOM in
      if strictNe newZoom currentZoom
      then requestDraw (onZoomChange side newZoom a)
      else a
  end.

(** ** [combined-preview-area.tsx]: touch handlers

    [Math.sqrt] is the platform's; the handlers are given it. *)

Section Touches.

Variable Math_sqrt : number -> number.

(** [calculateDistance] *)
Definition calculateDistance (touch1 touch2 : Touch) : number :=
  let dx := (Fin (clientX touch1) - Fin (clientX touch2))%js in
  let dy := (Fin (clientY touch1) - Fin (clientY touch2))%js in
  Math_sqrt (dx * dx + dy * dy)%js.

(** [handleTouchStart]; [touches] is [e.touches], every touch currently
    on the screen. *)
Definition handleTouchStart (onArea : bool) (type : Target) (touches : list Touch)
    (a : App) : App :=
  if negb onArea then a
  else if negb (mediaExists type (combiner a)) then a
  else
    match touches, type with
    | [touch], _ =>
        if negb (isPinching (gesture a))
        then fst (handleInteractionStart (clientX touch) (clientY touch) type true a)
        else a
    | [touch0; touch1], Slot side =>
        let a1 := if isSome (activeDrag (gesture a)) then handleDragEnd a else a in
        let initialDist := calculateDistance touch0 touch1 in
        withGesture
          (fun g => setZoomAtPinchStart (sZoom (getSlot side (combiner a)))
                      (setInitialPinchDistance initialDist
                         (setPinchSide (Some side)
                            (setIsTouching false (setIsPinching true g)))))
          a1
    | _, _ => a
    end.

(** [handleTouchMove] *)
Definition handleTouchMove (touches : list Touch) (container : option DOMRect)
    (a : App) : App :=
  let g := gesture a in
  match isPinching g, touches, pinchSide g with
  | true, [touch0; touch1], Some side =>
      let currentDist := calculateDistance touch0 touch1 in
      if (initialPinchDistance g <=? n0)%js then a
      else
        let scale := (currentDist / initialPinchDistance g)%js in
        let newZoom := clamp (zoomAtPinchStart g * scale)%js MIN_ZOOM MAX_ZOOM in
        if strictNe (sZoom (getSlot side (combiner a))) newZoom
        then requestDraw (onZoomChange side newZoom a)
        else a
  | _, _, _ =>
      match touches with
      | [touch] =>
          if isSome (activeDrag g) && isTouching g && negb (isPinching g)
          then handleDragMove (clientX touch) (clientY touch) container a
          else a
      | _ => a
      end
  end.

(** [handleTouchEnd], also the handler of [touchcancel]; [touches] is
    what remains on the screen. *)
Definition handleTouchEnd (touches : list Touch) (a : App) : App :=
  let g := gesture a in
  match touches with
  | [] =>
      let a1 := if isSome (activeDrag g) && isTouching g
                then handleDragEnd a else a in
      withGesture
        (fun g1 => setInitialPinchDistance n0
                     (setPinchSide None (setIsPinching false (setIsTouching false g1))))
        a1
  | [_] =>
      if isPinching g
      then withGesture
             (fun g1 => setInitialPinchDistance n0
                          (setPinchSide None (setIsPinching false g1))) a
      else a
  | _ => a
  end.

End Touches.

(** ** [combined-preview-area.tsx]: the frame callback *)

(** [drawPreviewCanvases]: the calls made on the left and on the right
    preview context ([resizedLeft] and [resizedRight] tell whether the
    canvas had to take a new size), and the frame is no longer pending. *)
Definition drawPreviewCanvases (container : option DOMRect)
    (resizedLeft resizedRight : bool) (a : App)
    : App * list CanvasCall * list CanvasCall :=
  let a' := withGesture (setAnimationFrameId false) a in
  match container with
  | None => (a', [], [])
  | Some containerRect =>
    let containerWidth := Fin (width containerRect) in
    let containerHeight := Fin (height containerRect) in
    if (containerWidth <=? n0)%js || (containerHeight <=? n0)%js
    then (a', [], [])
    else
      let previewHalfWidth := Math_max n1 (Math_floor (containerWidth / n2)%js) in
      let previewHeight := Math_max n1 containerHeight in
      let st := combiner a in
      (a',
       (if resizedLeft then [clearRect n0 n0 previewHalfWidth previewHeight] else [])
       ++ drawMediaSection (leftMediaElement st) Left containerWidth previewHeight
            (leftZoom st) (leftRelativeFocus st),
       (if resizedRight then [clearRect n0 n0 previewHalfWidth previewHeight] else [])
       ++ drawMediaSection (rightMediaElement st) Right containerWidth previewHeight
            (rightZoom st) (rightRelativeFocus st))
  end.

(** ** [control-panel.tsx] *)

(** The [value] of an [<input type="number">]: the browser hands out the
    empty string unless the text is a valid number. *)
Inductive InputValue : Type :=
| emptyValue
| numericValue (q : Q).

(** [Number(e.target.value)] *)
Definition Number_of (v : InputValue) : number :=
  match v with
  | emptyValue => n0
  | numericValue q => fin q
  end.

(** [onChange] of the horizontal and of the vertical position input. *)
Definition onLogoXChange (v : InputValue) (st : CombinerState) : CombinerState :=
  let logoPosition := logoPosition (logoSlot st) in
  setLogoSlot
    (setLogoPosition {| x := clamp (Number_of v) n0 n100; y := y logoPosition |}
       (logoSlot st)) st.

Definition onLogoYChange (v : InputValue) (st : CombinerState) : CombinerState :=
  let logoPosition := logoPosition (logoSlot st) in
  setLogoSlot
    (setLogoPosition {| x := x logoPosition; y := clamp (Number_of v) n0 n100 |}
       (logoSlot st)) st.

(** [onValueChange] of the three sliders. *)
Definition onZoomSlider (side : Side) (v : number) (st : CombinerState)
    : CombinerState :=
  setSlot side (setZoom v (getSlot side st)) st.

Definition onLogoZoomSlider (v : number) (st : CombinerState) : CombinerState :=
  setLogoSlot (setLogoZoom v (logoSlot st)) st.

(** ** The combiner as a transition system

    One event per handler and per continuation of an asynchronous
    function; [step] runs the handler on the current cells. *)

Inductive Event : Type :=
| FileSelected (side : Side) (fileType : string) (result : option string)
| Fetched (side : Side) (mediaUrl : string) (mediaType : MediaType)
    (fetched : option string)
| LoadSettled (side : Side) (objectUrlToClean : option string) (outcome : Settled)
| LogoSelected (fileType : string) (result : option string)
| LogoFetched (logoUrl : string) (fetched : option string)
| LogoSettled (objectUrlToClean : option string) (outcome : Settled)
| SaveClicked (container : option Container) (getContext : bool)
| BlobReady (blob : option string)
| Unmounted
| MouseDown (button : Z) (onArea : bool) (type : Target) (cX cY : Q)
| MouseMove (cX cY : Q) (container : option DOMRect)
| MouseUp (button : Z)
| TouchStart (onArea : bool) (type : Target) (touches : list Touch)
| TouchMove (touches : list Touch) (container : option DOMRect)
| TouchEnd (touches : list Touch)
| Wheel (deltaY : Q) (side : Side)
| AnimationFrame (container : option DOMRect) (resizedLeft resizedRight : bool)
| ZoomSlider (side : Side) (v : number)
| LogoZoomSlider (v : number)
| LogoXInput (v : InputValue)
| LogoYInput (v : InputValue).

Section Steps.

Variable Math_sqrt : number -> number.

Definition step (a : App) (ev : Event) : App :=
  match ev with
  | FileSelected side fileType result =>
      withCombiner (fun st => fst (fst (onFileSelect side fileType result st))) a
  | Fetched side mediaUrl mediaType fetched =>
      withCombiner
        (fun st => fst (fst (loadMediaEffect_fetched mediaUrl mediaType side fetched st))) a
  | LoadSettled side objectUrlToClean outcome =>
      withCombiner
        (fun st => fst (loadMediaEffect_settled side objectUrlToClean outcome st)) a
  | LogoSelected fileType result =>
      withCombiner (fun st => fst (fst (onLogoSelect fileType result st))) a
  | LogoFetched logoUrl fetched =>
      withCombiner (fun st => fst (fst (loadLogoEffect_fetched logoUrl fetched st))) a
  | LogoSettled objectUrlToClean outcome =>
      withCombiner (fun st => fst (loadLogoEffect_settled objectUrlToClean outcome st)) a
  | SaveClicked container getContext =>
      withCombiner (fun st => fst (saveCompositeImage container getContext st)) a
  | BlobReady blob =>
      withCombiner (fun st => fst (saveCompositeImage_onBlob blob st)) a
  | Unmounted => withCombiner (setIsMounted false) a
  | MouseDown button onArea type cX cY => handleMouseDown button onArea type cX cY a
  | MouseMove cX cY container => handleMouseMove cX cY container a
  | MouseUp button => handleMouseUp button a
  | TouchStart onArea type touches => handleTouchStart Math_sqrt onArea type touches a
  | TouchMove touches container => handleTouchMove Math_sqrt touches container a
  | TouchEnd touches => handleTouchEnd touches a
  | Wheel deltaY side => handleWheelZoom deltaY side a
  | AnimationFrame container resizedLeft resizedRight =>
      fst (fst (drawPreviewCanvases container resizedLeft resizedRight a))
  | ZoomSlider side v => withCombiner (onZoomSlider side v) a
  | LogoZoomSlider v => withCombiner (onLogoZoomSlider v) a
  | LogoXInput v => withCombiner (onLogoXChange v) a
  | LogoYInput v => withCombiner (onLogoYChange v) a
  end.

Definition run (a : App) (events : list Event) : App := fold_left step events a.

(** The states the component can be in: those a run of events reaches
    from the initial render. *)
Inductive reachable : App -> Prop :=
| reachable_init : reachable initialApp
| reachable_step : forall a ev, reachable a -> reachable (step a ev).

End Steps.

(** ** Domains of the stored view parameters *)

Definition inRange (lo hi : Q) (n : number) : Prop :=
  match n with
  | Fin q => (lo <= q /\ q <= hi)%Q
  | _ => False
  end.

Definition focusInDomain (f : RelativeFocus) : Prop :=
  inRange 0 1 (x f) /\ inRange 0 1 (y f).

Definition positionInDomain (p : RelativeFocus) : Prop :=
  inRange 0 100 (x p) /\ inRange 0 100 (y p).

(** A [Math.sqrt] for running the handlers on examples: exact on the
    squares of integers. *)
Definition sqrtSquares (n : number) : number :=
  match n with
  | Fin q => if Qle_bool 0 q then ofZ (Z.sqrt (Qnum q / Zpos (Qden q))) else NaN
  | PosInf => PosInf
  | _ => NaN
  end.

(** ** The per-slot draw as the design document words it

    Steps 1 to 4 of the draw algorithm, for a source of size
    [sourceW] x [sourceH], a destination of size [dW] x [dH], a zoom of
    [z] percent and a focus [(fx, fy)]: the cover scale, the final scale,
    the visible source size, and the source top-left clamped into
    [[0, sourceDim - visibleDim]], or to [0] when that bound is negative. *)

Definition elementWidth (el : MediaElement) : Z :=
  match el with
  | Image img => naturalWidth img
  | Video v => videoWidth v
  end.

Definition elementHeight (el : MediaElement) : Z :=
  match el with
  | Image img => naturalHeight img
  | Video v => videoHeight v
  end.

Definition specCoverScale (sourceW sourceH dW dH : number) : number :=
  if (sourceW / sourceH >? dW / dH)%js then (dH / sourceH)%js else (dW / sourceW)%js.

Definition specFinalScale (sourceW sourceH dW dH z : number) : number :=
  (specCoverScale sourceW sourceH dW dH * (z / n100))%js.

Definition specAborted (finalScale : number) : bool :=
  negb (Number_isFinite finalScale) || (finalScale <=? n0)%js.

Definition specClampInto (v upper : number) : number :=
  if (upper <? n0)%js then n0 else clamp v n0 upper.

Definition specSourceRect (sourceW sourceH dW dH z : number) (focus : RelativeFocus)
    : SourceRect :=
  let finalScale := specFinalScale sourceW sourceH dW dH z in
  let visibleW := (dW / finalScale)%js in
  let visibleH := (dH / finalScale)%js in
  {| rect_sx := specClampInto (sourceW * x focus - visibleW / n2)%js
                              (sourceW - visibleW)%js;
     rect_sy := specClampInto (sourceH * y focus - visibleH / n2)%js
                              (sourceH - visibleH)%js;
     rect_sWidth := visibleW;
     rect_sHeight := visibleH |}.

(** The source rectangle as both draw routines compute it once the
    final scale has passed its test, and the test both make before
    [drawImage]. *)
Definition codeSourceRect (sourceWidth sourceHeight dWidth dHeight finalScale : number)
    (focus : RelativeFocus) : SourceRect :=
  let sWidthFinal := (dWidth / finalScale)%js in
  let sHeightFinal := (dHeight / finalScale)%js in
  {| rect_sx := clamp (sourceWidth * x focus - sWidthFinal / n2)%js n0
                      (Math_max n0 (sourceWidth - sWidthFinal)%js);
     rect_sy := clamp (sourceHeight * y focus - sHeightFinal / n2)%js n0
                      (Math_max n0 (sourceHeight - sHeightFinal)%js);
     rect_sWidth := sWidthFinal;
     rect_sHeight := sHeightFinal |}.

Definition drawable (r : SourceRect) : bool :=
  (rect_sWidth r >? n0)%js && (rect_sHeight r >? n0)%js
  && Number_isFinite (rect_sx r) && Number_isFinite (rect_sy r)
  && Number_isFinite (rect_sWidth r) && Number_isFinite (rect_sHeight r).

(** What both routines hand to [drawImage], if anything: nothing when
    the final scale fails its test or the rectangle is not [drawable]. *)
Definition drawPlan (sourceWidth sourceHeight dWidth dHeight zoom : number)
    (focus : RelativeFocus) : option SourceRect :=
  let finalScale := specFinalScale sourceWidth sourceHeight dWidth dHeight zoom in
  if specAborted finalScale then None
  else
    let r := codeSourceRect sourceWidth sourceHeight dWidth dHeight finalScale focus in
    if drawable r then Some r else None.

(** A number in lowest terms. *)
Definition canonical (n : number) : Prop :=
  match n with
  | Fin q => Qred q = q
  | _ => True
  end.

Definition finite (n : number) : Prop :=
  match n with Fin _ => True | _ => False end.

(** The [drawImage] calls among the calls of a draw. *)
Definition isDrawImage (c : CanvasCall) : bool :=
  match c with
  | drawImage _ _ _ _ _ _ _ _ _ => true
  | _ => false
  end.

(** ** Conditions under which the export is denied *)

(** A left or right slot that does not hold a loaded image of positive
    size (it is empty, still loading, or holds a video), or is loading. *)
Definition slotNotReady (s : MediaSlot) : Prop :=
  isLoadedImage (sElement s) = false \/ sLoading s = true.

(** A logo whose source was provided and that is not a loaded image
    yet. *)
Definition logoNotReady (l : LogoSlot) : Prop :=
  falsy (logo l) = false
  /\ (isLoadedImage (option_map Image (logoElement l)) = false
      \/ isLoadingLogo l = true).

(** ** States and elements of the scenarios *)

Definition imageOf (w h : Z) (src : string) : HTMLImageElement :=
  {| naturalWidth := w; naturalHeight := h; img_src := src |}.

Definition loadedImageSlot (w h : Z) (src : string) : MediaSlot :=
  {| sMedia := Some "data:image/png;base64,iVBORw0KGgo=";
     sMediaType := Some image;
     sElement := Some (Image (imageOf w h src));
     sZoom := n100; sFocus := {| x := half; y := half |};
     sLoadError := None; sLoading := false |}.

Definition loadingSlot : MediaSlot :=
  {| sMedia := Some "data:image/png;base64,iVBORw0KGgo=";
     sMediaType := Some image;
     sElement := None;
     sZoom := n100; sFocus := {| x := half; y := half |};
     sLoadError := None; sLoading := true |}.

(** Scenario A: an 800x600 image on the left, a 1200x900 image on the
    right, no logo. *)
Definition scenarioA : CombinerState :=
  {| leftSlot := loadedImageSlot 800 600 "blob:left";
     rightSlot := loadedImageSlot 1200 900 "blob:right";
     logoSlot := initialLogoSlot;
     isSaving := false; saveError := None; isMounted := true |}.

(** Scenario B: the right slot is still loading. *)
Definition scenarioB : CombinerState :=
  {| leftSlot := loadedImageSlot 800 600 "blob:left";
     rightSlot := loadingSlot;
     logoSlot := initialLogoSlot;
     isSaving := false; saveError := None; isMounted := true |}.


(** An 800x600 image on the left, nothing on the right, no logo. *)
Definition leftOnly : CombinerState :=
  {| leftSlot := loadedImageSlot 800 600 "blob:left";
     rightSlot := initialSlot;
     logoSlot := initialLogoSlot;
     isSaving := false; saveError := None; isMounted := true |}.

(** Scenario A after the left image was zoomed to 250% and panned. *)
Definition zoomedLeft : CombinerState :=
  setSlot Left
    (setZoom (Fin 250)
       (setRelativeFocus {| x := Fin (1 # 5); y := Fin (4 # 5) |}
          (leftSlot scenarioA))) scenarioA.

(** ** Gesture sessions and stored view parameters *)

(** Two numbers that are the same value. *)
Definition sameValue (a b : number) : Prop :=
  match a, b with
  | Fin p, Fin q => (p == q)%Q
  | PosInf, PosInf | NegInf, NegInf | NaN, NaN => True
  | _, _ => False
  end.

(** A pinch session on [side] with baseline distance [d0] and pinch-start
    zoom [z0]. *)
Definition pinchSession (side : Side) (d0 z0 : number) (g : GestureState) : Prop :=
  isPinching g = true /\ pinchSide g = Some side
  /\ initialPinchDistance g = d0 /\ zoomAtPinchStart g = z0.

(** A [touchmove] with two touches on the screen, and a run of them. *)
Definition pinchMove (Math_sqrt : number -> number) (a : App)
    (m : Touch * Touch * option DOMRect) : App :=
  handleTouchMove Math_sqrt [fst (fst m); snd (fst m)] (snd m) a.

Definition pinchMoves (Math_sqrt : number -> number)
    (moves : list (Touch * Touch * option DOMRect)) (a : App) : App :=
  fold_left (pinchMove Math_sqrt) moves a.

(** Every stored focus and position, and the snapshots a drag starts
    from, lie in their domain. *)
Definition viewInDomain (a : App) : Prop :=
  focusInDomain (sFocus (leftSlot (combiner a)))
  /\ focusInDomain (sFocus (rightSlot (combiner a)))
  /\ positionInDomain (logoPosition (logoSlot (combiner a)))
  /\ focusInDomain (initialDragFocus (gesture a))
  /\ positionInDomain (initialLogoPos (gesture a))
  /\ finite (x (dragStart (gesture a)))
  /\ finite (y (dragStart (gesture a))).

(** What a handler of the combiner does to the stored focus and position
    values: it keeps them, or resets them to their initial values. *)
Definition viewKept (st st' : CombinerState) : Prop :=
  (sFocus (leftSlot st') = sFocus (leftSlot st)
   \/ sFocus (leftSlot st') = {| x := half; y := half |})
  /\ (sFocus (rightSlot st') = sFocus (rightSlot st)
      \/ sFocus (rightSlot st') = {| x := half; y := half |})
  /\ (logoPosition (logoSlot st') = logoPosition (logoSlot st)
      \/ logoPosition (logoSlot st') = {| x := Fin 50; y := Fin 90 |}).

(** A one-finger drag in flight on the left slot of [leftOnly]. *)
Definition draggingLeft : App :=
  handleTouchStart sqrtSquares true (Slot Left)
    [{| clientX := 100; clientY := 100 |}]
    {| combiner := leftOnly; gesture := initialGesture |}.

(** An image is loaded on the left, grabbed with the mouse at (100, 100)
    and dragged far to the lower left in a 800x450 container. *)
Definition farDrag : list Event :=
  [ FileSelected Left "image/png" (Some "data:image/png;base64,iVBORw0KGgo=");
    Fetched Left "data:image/png;base64,iVBORw0KGgo=" image (Some "blob:left");
    LoadSettled Left (Some "blob:left")
      (resolved (Some (Image (imageOf 800 600 "blob:left"))));
    MouseDown 0 true (Slot Left) 100 100;
    MouseMove (-5000) 3000 (Some {| width := 800; height := 450 |}) ].

(** ** Snapshots of a gesture session

    A drag works from the focus, or from the logo position, that its
    start has stored, and a pinch from the zoom that its start has
    stored; when the session is over the cells keep what was stored.
    [liveSnapshots] keeps the snapshots of the session in flight and
    puts the others back to their initial values. *)
Definition liveSnapshots (g : GestureState) : GestureState :=
  {| activeDrag := activeDrag g; dragStart := dragStart g;
     initialDragFocus :=
       match activeDrag g with
       | Some (Slot _) => initialDragFocus g
       | _ => initialDragFocus initialGesture
       end;
     initialLogoPos :=
       match activeDrag g with
       | Some Logo => initialLogoPos g
       | _ => initialLogoPos initialGesture
       end;
     isTouching := isTouching g; isPinching := isPinching g;
     initialPinchDistance := initialPinchDistance g; pinchSide := pinchSide g;
     zoomAtPinchStart :=
       if isPinching g then zoomAtPinchStart g else zoomAtPinchStart initialGesture;
     animationFrameId := animationFrameId g |}.

Definition liveView (a : App) : App := withGesture liveSnapshots a.

(** The component as it would be had the media of [side] been viewed at
    [zoom] and [focus], the last drag of a slot having started from
    [dragFocus] and the last pinch from [pinchZoom]. *)
Definition withPreviousView (side : Side) (zoom : number)
    (focus dragFocus : RelativeFocus) (pinchZoom : number) (a : App) : App :=
  {| combiner :=
       setSlot side
         (setZoom zoom (setRelativeFocus focus (getSlot side (combiner a))))
         (combiner a);
     gesture := setZoomAtPinchStart pinchZoom (setInitialDragFocus dragFocus (gesture a)) |}.

(** The same for the logo: its position and relative width, and the
    position the last drag of the logo started from. *)
Definition withPreviousLogoView (position : RelativeFocus) (zoom : number)
    (dragPosition : RelativeFocus) (a : App) : App :=
  {| combiner :=
       setLogoSlot
         (setLogoZoom zoom (setLogoPosition position (logoSlot (combiner a))))
         (combiner a);
     gesture := setInitialLogoPos dragPosition (gesture a) |}.

(** An image is loaded on the left, panned to the focus (0.625, 0.5) by a
    drag in a 800x450 container, and grabbed again; while that second
    drag is in flight another file is chosen for the slot and its load
    settles. *)
Definition draggedLeft : list Event :=
  [ FileSelected Left "image/png" (Some "data:image/png;base64,iVBORw0KGgo=");
    Fetched Left "data:image/png;base64,iVBORw0KGgo=" image (Some "blob:left");
    LoadSettled Left (Some "blob:left")
      (resolved (Some (Image (imageOf 800 600 "blob:left"))));
    MouseDown 0 true (Slot Left) 100 100;
    MouseMove 25 100 (Some {| width := 800; height := 450 |});
    MouseUp 0;
    MouseDown 0 true (Slot Left) 300 200 ].

Definition replaceLeft : list Event :=
  [ FileSelected Left "image/jpeg" (Some "data:image/jpeg;base64,/9j/4AAQ");
    Fetched Left "data:image/jpeg;base64,/9j/4AAQ" image (Some "blob:new");
    LoadSettled Left (Some "blob:new")
      (resolved (Some (Image (imageOf 640 480 "blob:new")))) ].

(** An image is loaded on the left, zoomed to 200 by a pinch that doubles
    the distance of the two fingers, and pinched again; the second pinch
    is in flight. *)
Definition pinchedLeft : list Event :=
  [ FileSelected Left "image/png" (Some "data:image/png;base64,iVBORw0KGgo=");
    Fetched Left "data:image/png;base64,iVBORw0KGgo=" image (Some "blob:left");
    LoadSettled Left (Some "blob:left")
      (resolved (Some (Image (imageOf 800 600 "blob:left"))));
    TouchStart true (Slot Left)
      [{| clientX := 100; clientY := 100 |}; {| clientX := 200; clientY := 100 |}];
    TouchMove
      [{| clientX := 50; clientY := 100 |}; {| clientX := 250; clientY := 100 |}]
      (Some {| width := 800; height := 450 |});
    TouchEnd [];
    TouchStart true (Slot Left)
      [{| clientX := 100; clientY := 100 |}; {| clientX := 200; clientY := 100 |}] ].

(** ** Double precision

    The numbers of this development carry exact values: where JavaScript
    rounds a result to the nearest double, the value is kept unrounded.
    The theorems over them state what rounding does not change: the
    calls a routine makes and their order, how a clamped value lies with
    respect to its bounds, in which direction a value moves, and the
    equality of values computed by the same operations from the same
    operands.  Where rounding itself decides the outcome, [Binary64]
    runs the routine on IEEE 754 binary64 numbers: the operations are
    those of [SpecFloat] for a mantissa of 53 bits, rounded to nearest,
    ties to even. *)

Module Binary64.

Definition prec : Z := 53.
Definition emax : Z := 1024.

Definition double : Type := spec_float.

(** An integer as a double; exact below [2^53]. *)
Definition ofZ (z : Z) : double := binary_normalize prec emax z 0 false.

Definition add (a b : double) : double := SFadd prec emax a b.
Definition sub (a b : double) : double := SFsub prec emax a b.
Definition mul (a b : double) : double := SFmul prec emax a b.
Definition div (a b : double) : double := SFdiv prec emax a b.

Definition lt (a b : double) : bool := SFltb a b.
Definition le (a b : double) : bool := SFleb a b.
Definition gt (a b : double) : bool := SFltb b a.

Definition isNaN (a : double) : bool :=
  match a with S754_nan => true | _ => false end.

Definition Number_isFinite (a : double) : bool :=
  match a with
  | S754_zero _ | S754_finite _ _ _ => true
  | _ => false
  end.

(** [Math.max] and [Math.min]; [+0] counts as larger than [-0]. *)
Definition Math_max (a b : double) : double :=
  if isNaN a || isNaN b then S754_nan
  else if lt a b then b
  else match a, b with
       | S754_zero true, S754_zero false => b
       | _, _ => a
       end.

Definition Math_min (a b : double) : double :=
  if isNaN a || isNaN b then S754_nan
  else if lt b a then b
  else match a, b with
       | S754_zero false, S754_zero true => b
       | _, _ => a
       end.

Definition clamp (num min max : double) : double :=
  Math_min (Math_max num min) max.

(** [Math.ceil]: a finite double is [m * 2^e] up to its sign, and a
    negative one above [-1] goes to [-0]. *)
Definition Math_ceil (a : double) : double :=
  match a with
  | S754_finite s m e =>
      if (0 <=? e)%Z then a
      else
        let z := (- Z.shiftr (if s then Zpos m else Zneg m) (- e))%Z in
        if (z =? 0)%Z then S754_zero s else ofZ z
  | _ => a
  end.

(** The arguments [sx], [sy], [sWidth] and [sHeight] of a [drawImage]
    call. *)
Record SourceRect : Type := {
  rect_sx : double; rect_sy : double;
  rect_sWidth : double; rect_sHeight : double
}.

(** [drawMediaSection] of the preview, by the source rectangle it hands
    to [drawImage]; [None] when it returns without calling it.  The
    sizes of an element are integers, for which [(w || 0)], [!w] and
    [w <= 0] come to the one test [w <= 0]. *)
Definition drawMediaSection (mediaElement : option MediaElement)
    (targetCanvasWidth targetCanvasHeight zoomPercent focusX focusY : double)
    : option SourceRect :=
  let dWidth := div targetCanvasWidth (ofZ 2) in
  let dHeight := targetCanvasHeight in
  match mediaElement with
  | None => None
  | Some el =>
    if (elementWidth el <=? 0)%Z || (elementHeight el <=? 0)%Z then None
    else
      let sourceWidth := ofZ (elementWidth el) in
      let sourceHeight := ofZ (elementHeight el) in
      let overallScale := div zoomPercent (ofZ 100) in
      let sourceAspect := div sourceWidth sourceHeight in
      let destAspect := div dWidth dHeight in
      let coverScale :=
        if gt sourceAspect destAspect
        then div dHeight sourceHeight
        else div dWidth sourceWidth in
      let finalScale := mul coverScale overallScale in
      if le finalScale (ofZ 0) || negb (Number_isFinite finalScale) then None
      else
        let sWidthFinal := div dWidth finalScale in
        let sHeightFinal := div dHeight finalScale in
        let sxIdeal := sub (mul sourceWidth focusX) (div sWidthFinal (ofZ 2)) in
        let syIdeal := sub (mul sourceHeight focusY) (div sHeightFinal (ofZ 2)) in
        let sx := clamp sxIdeal (ofZ 0) (Math_max (ofZ 0) (sub sourceWidth sWidthFinal)) in
        let sy := clamp syIdeal (ofZ 0) (Math_max (ofZ 0) (sub sourceHeight sHeightFinal)) in
        if gt sWidthFinal (ofZ 0) && gt sHeightFinal (ofZ 0)
           && gt dWidth (ofZ 0) && gt dHeight (ofZ 0)
           && Number_isFinite sx && Number_isFinite sy
           && Number_isFinite sWidthFinal && Number_isFinite sHeightFinal
        then Some {| rect_sx := sx; rect_sy := sy;
                     rect_sWidth := sWidthFinal; rect_sHeight := sHeightFinal |}
        else None
  end.

(** [drawFinalMedia] of the exporter, the same way. *)
Definition drawFinalMedia (mediaEl : HTMLImageElement)
    (outputWidth outputHeight zoom focusX focusY : double) : option SourceRect :=
  let sectionWidth := div outputWidth (ofZ 2) in
  let sectionHeight := outputHeight in
  if (naturalWidth mediaEl <=? 0)%Z || (naturalHeight mediaEl <=? 0)%Z then None
  else
    let sourceWidth := ofZ (naturalWidth mediaEl) in
    let sourceHeight := ofZ (naturalHeight mediaEl) in
    let overallScale := div zoom (ofZ 100) in
    let sourceAspect := div sourceWidth sourceHeight in
    let destAspect := div sectionWidth sectionHeight in
    let coverScale :=
      if gt sourceAspect destAspect
      then div sectionHeight sourceHeight
      else div sectionWidth sourceWidth in
    let finalScale := mul coverScale overallScale in
    if le finalScale (ofZ 0) || negb (Number_isFinite finalScale) then None
    else
      let sWidthFinal := div sectionWidth finalScale in
      let sHeightFinal := div sectionHeight finalScale in
      let sxIdeal := sub (mul sourceWidth focusX) (div sWidthFinal (ofZ 2)) in
      let syIdeal := sub (mul sourceHeight focusY) (div sHeightFinal (ofZ 2)) in
      let sx := clamp sxIdeal (ofZ 0) (Math_max (ofZ 0) (sub sourceWidth sWidthFinal)) in
      let sy := clamp syIdeal (ofZ 0) (Math_max (ofZ 0) (sub sourceHeight sHeightFinal)) in
      if gt sWidthFinal (ofZ 0) && gt sHeightFinal (ofZ 0)
         && Number_isFinite sx && Number_isFinite sy
         && Number_isFinite sWidthFinal && Number_isFinite sHeightFinal
      then Some {| rect_sx := sx; rect_sy := sy;
                   rect_sWidth := sWidthFinal; rect_sHeight := sHeightFinal |}
      else None.

(** The size of the export canvas in [saveCompositeImage]. *)
Definition displayAspect (container : option Container) : double :=
  match container with
  | Some c =>
      if (0 <? offsetWidth c)%Z && (0 <? offsetHeight c)%Z
      then div (ofZ (offsetWidth c)) (ofZ (offsetHeight c))
      else div (ofZ 16) (ofZ 9)
  | None => div (ofZ 16) (ofZ 9)
  end.

Definition finalWidth (safeLeftElement safeRightElement : HTMLImageElement) : double :=
  mul (Math_max (Math_max (ofZ (naturalWidth safeLeftElement))
                          (ofZ (naturalWidth safeRightElement))) (ofZ 500))
      (ofZ 2).

Definition finalHeight (container : option Container)
    (safeLeftElement safeRightElement : HTMLImageElement) : double :=
  Math_ceil (div (finalWidth safeLeftElement safeRightElement) (displayAspect container)).

End Binary64.

(** ** Further definitions: gestures *)

(** A gesture session is coherent when a pinch excludes every drag: while
    pinching no drag is active, no one-finger touch is tracked and the
    pinched side is known; outside a pinch no side is recorded and the
    baseline distance is 0. *)
Definition gestureCoherent (g : GestureState) : Prop :=
  (isPinching g = true ->
     activeDrag g = None /\ isTouching g = false
     /\ exists side, pinchSide g = Some side)
  /\ (isPinching g = false ->
        pinchSide g = None /\ initialPinchDistance g = n0).

Definition otherSide (side : Side) : Side :=
  match side with Left => Right | Right => Left end.


(** ** [download-section.tsx] *)

(** [isLoadingAny], and the [disabled] attribute of the download button,
    from the props the combiner passes ([canSave] is [canSaveComposite]). *)
Definition isLoadingAny (st : CombinerState) : bool :=
  isLoadingLeft st || isLoadingRight st || isLoadingLogo (logoSlot st).

Definition downloadDisabled (st : CombinerState) : bool :=
  negb (canSaveComposite st) || isSaving st || isLoadingAny st.

(** ** [index.tsx]: the cleanup of the mount effect

    The effect that sets [isMounted.current] has the three elements
    among its dependencies, so React runs its cleanup not only when the
    component unmounts but after every render in which one of the
    elements has changed, before it runs the effect again (which sets
    [isMounted.current] back to [true]).  The cleanup revokes the object
    URLs of the three elements of the render it was created in: those
    the component held before the change. *)
Definition mountEffectCleanup (st : CombinerState) : list Effect :=
  cleanupObjectURL (leftMediaElement st)
  ++ cleanupObjectURL (rightMediaElement st)
  ++ cleanupLogoURL (logoElement (logoSlot st)).

(** Whether a step changes one of the elements.  The elements are
    written by the load effects only: their start writes [null], and
    their end, in a mounted component, the element the load has created,
    or [null].  React compares with [Object.is]: an element a load has
    created differs from every element held before, and [null] written
    over [null] is no change. *)
Definition elementsChanged (Math_sqrt : number -> number) (a : App) (ev : Event)
    : bool :=
  let st := combiner a in
  let st' := combiner (step Math_sqrt a ev) in
  match ev with
  | FileSelected side _ _ =>
      isSome (sElement (getSlot side st)) && negb (isSome (sElement (getSlot side st')))
  | LoadSettled side _ _ =>
      isMounted st
      && (isSome (sElement (getSlot side st)) || isSome (sElement (getSlot side st')))
  | LogoSelected _ _ =>
      isSome (logoElement (logoSlot st)) && negb (isSome (logoElement (logoSlot st')))
  | LogoSettled _ _ =>
      isMounted st
      && (isSome (logoElement (logoSlot st)) || isSome (logoElement (logoSlot st')))
  | _ => false
  end.

(** What the cleanup of the mount effect revokes on a step. *)
Definition stepCleanup (Math_sqrt : number -> number) (a : App) (ev : Event)
    : list Effect :=
  match ev with
  | Unmounted => mountEffectCleanup (combiner a)
  | _ => if elementsChanged Math_sqrt a ev then mountEffectCleanup (combiner a) else []
  end.

(** ** [combined-preview-area.tsx]: the logo overlay of the preview *)

(** The box of the style [getLogoStyle] computes: [display: none], or the
    absolutely positioned box with its [left], [top], [width] and
    [height] in pixels (the other properties do not depend on the
    geometry). *)
Inductive LogoStyle : Type :=
| displayNone
| logoBox (left_px top_px width_px height_px : number).

Definition getLogoStyle (container : option Container) (st : CombinerState)
    : LogoStyle :=
  match container, logoElement (logoSlot st) with
  | Some c, Some logoElement =>
    if (naturalWidth logoElement <=? 0)%Z || (naturalHeight logoElement <=? 0)%Z
    then displayNone
    else
      let previewContainerWidth := ofZ (offsetWidth c) in
      let previewContainerHeight := ofZ (offsetHeight c) in
      if (previewContainerWidth <=? n0)%js || (previewContainerHeight <=? n0)%js
      then displayNone
      else
        let logoZoom := logoZoom (logoSlot st) in
        let logoPosition := logoPosition (logoSlot st) in
        let previewLogoWidthPx := (previewContainerWidth * logoZoom / n100)%js in
        let aspectRatio :=
          (ofZ (naturalHeight logoElement) / ofZ (naturalWidth logoElement))%js in
        let previewLogoHeightPx :=
          (previewLogoWidthPx * (if isNaN aspectRatio then n1 else aspectRatio))%js in
        let logoCenterX := (previewContainerWidth * x logoPosition / n100)%js in
        let logoCenterY := (previewContainerHeight * y logoPosition / n100)%js in
        let topLeftX := (logoCenterX - previewLogoWidthPx / n2)%js in
        let topLeftY := (logoCenterY - previewLogoHeightPx / n2)%js in
        logoBox topLeftX topLeftY previewLogoWidthPx previewLogoHeightPx
  | _, _ => displayNone
  end.

(** ** [lib/layer-store.tsx]: the layer store

    The zustand store, by its state and its actions; every action is the
    function [set] is given, applied to the state.  [activeLayer] is
    [undefined] when it was taken from an empty [layers]. *)

Module LayerStore.

Record Layer : Type := {
  publicId : option string;
  width : option number;
  height : option number;
  url : option string;
  id : string;
  name : option string;
  format : option string;
  poster : option string;
  resourceType : option string;
  transcriptionURL : option string
}.

Record State : Type := {
  layers : list Layer;
  activeLayer : option Layer;
  layerComparisonMode : bool;
  comparedLayers : list string;
  combinerMode : bool;
  isToolsSidebarOpen : bool;
  isLayersSidebarOpen : bool
}.

(** [getStore(initialState)] *)
Definition getStore (initialLayers : list Layer) (initialMode : bool) : State :=
  {| layers := initialLayers;
     activeLayer := hd_error initialLayers;
     layerComparisonMode := initialMode;
     comparedLayers := [];
     combinerMode := false;
     isToolsSidebarOpen := false;
     isLayersSidebarOpen := false |}.

Definition withLayers (ls : list Layer) (state : State) : State :=
  {| layers := ls; activeLayer := activeLayer state;
     layerComparisonMode := layerComparisonMode state;
     comparedLayers := comparedLayers state;
     combinerMode := combinerMode state;
     isToolsSidebarOpen := isToolsSidebarOpen state;
     isLayersSidebarOpen := isLayersSidebarOpen state |}.

Definition withCompared (mode : bool) (compared : list string) (state : State)
    : State :=
  {| layers := layers state; activeLayer := activeLayer state;
     layerComparisonMode := mode;
     comparedLayers := compared;
     combinerMode := combinerMode state;
     isToolsSidebarOpen := isToolsSidebarOpen state;
     isLayersSidebarOpen := isLayersSidebarOpen state |}.

Definition addLayer (layer : Layer) (state : State) : State :=
  withLayers (layers state ++ [layer]) state.

Definition removeLayer (id0 : string) (state : State) : State :=
  withLayers (filter (fun l => negb (id l =? id0)) (layers state)) state.

Definition setActiveLayer (id0 : string) (state : State) : State :=
  {| layers := layers state;
     activeLayer :=
       match find (fun l => id l =? id0) (layers state) with
       | Some l => Some l
       | None => hd_error (layers state)
       end;
     layerComparisonMode := layerComparisonMode state;
     comparedLayers := comparedLayers state;
     combinerMode := combinerMode state;
     isToolsSidebarOpen := isToolsSidebarOpen state;
     isLayersSidebarOpen := isLayersSidebarOpen state |}.

Definition updateLayer (layer : Layer) (state : State) : State :=
  withLayers (map (fun l => if id l =? id layer then layer else l) (layers state))
             state.

Definition withPoster (posterUrl : string) (l : Layer) : Layer :=
  {| publicId := publicId l; width := width l; height := height l; url := url l;
     id := id l; name := name l; format := format l; poster := Some posterUrl;
     resourceType := resourceType l; transcriptionURL := transcriptionURL l |}.

Definition withTranscription (transcriptionURL0 : string) (l : Layer) : Layer :=
  {| publicId := publicId l; width := width l; height := height l; url := url l;
     id := id l; name := name l; format := format l; poster := poster l;
     resourceType := resourceType l; transcriptionURL := Some transcriptionURL0 |}.

Definition setPoster (id0 posterUrl : string) (state : State) : State :=
  withLayers (map (fun l => if id l =? id0 then withPoster posterUrl l else l)
                  (layers state)) state.

Definition setTranscription (id0 transcriptionURL0 : string) (state : State)
    : State :=
  withLayers (map (fun l => if id l =? id0 then withTranscription transcriptionURL0 l
                            else l)
                  (layers state)) state.

Definition setLayerComparisonMode (mode : bool) (state : State) : State :=
  withCompared mode (if mode then [] else []) state.

Definition setComparedLayers (ls : list string) (state : State) : State :=
  withCompared (0 <? List.length ls)%nat ls state.

(** [array.slice(-n)] *)
Definition slice_last {A : Type} (n : nat) (l : list A) : list A :=
  skipn (List.length l - n) l.

Definition toggleComparedLayer (id0 : string) (state : State) : State :=
  let newComparedLayers :=
    if existsb (fun layerId => layerId =? id0) (comparedLayers state)
    then filter (fun layerId => negb (layerId =? id0)) (comparedLayers state)
    else slice_last 2 (comparedLayers state ++ [id0]) in
  withCompared (0 <? List.length newComparedLayers)%nat newComparedLayers state.

Definition setCombinerMode (mode : bool) (state : State) : State :=
  if mode
  then {| layers := layers state; activeLayer := activeLayer state;
          layerComparisonMode := layerComparisonMode state;
          comparedLayers := comparedLayers state;
          combinerMode := mode;
          isToolsSidebarOpen := false;
          isLayersSidebarOpen := false |}
  else {| layers := layers state; activeLayer := activeLayer state;
          layerComparisonMode := layerComparisonMode state;
          comparedLayers := comparedLayers state;
          combinerMode := mode;
          isToolsSidebarOpen := isToolsSidebarOpen state;
          isLayersSidebarOpen := isLayersSidebarOpen state |}.

Definition setToolsSidebarOpen (open : bool) (state : State) : State :=
  {| layers := layers state; activeLayer := activeLayer state;
     layerComparisonMode := layerComparisonMode state;
     comparedLayers := comparedLayers state;
     combinerMode := combinerMode state;
     isToolsSidebarOpen := open;
     isLayersSidebarOpen := isLayersSidebarOpen state |}.

Definition setLayersSidebarOpen (open : bool) (state : State) : State :=
  {| layers := layers state; activeLayer := activeLayer state;
     layerComparisonMode := layerComparisonMode state;
     comparedLayers := comparedLayers state;
     combinerMode := combinerMode state;
     isToolsSidebarOpen := isToolsSidebarOpen state;
     isLayersSidebarOpen := open |}.

End LayerStore.

(** ** [control-panel.tsx]: the range of the zoom sliders *)

(** [min={0.1}] and [max={2}] of the three [Slider]s; a slider emits
    values of its range only. *)
Definition sliderMin : Q := 1 # 10.
Definition sliderMax : Q := 2.

(** ** Further scenarios *)

(** An image is loaded on the left, a finger starts a drag on it, and a
    second finger lands: a pinch is on. *)
Definition pinchRun : list Event :=
  [ FileSelected Left "image/png" (Some "data:image/png;base64,iVBORw0KGgo=");
    Fetched Left "data:image/png;base64,iVBORw0KGgo=" image (Some "blob:left");
    LoadSettled Left (Some "blob:left")
      (resolved (Some (Image (imageOf 800 600 "blob:left"))));
    TouchStart true (Slot Left) [{| clientX := 100; clientY := 100 |}];
    TouchStart true (Slot Left)
      [{| clientX := 0; clientY := 0 |}; {| clientX := 3; clientY := 4 |}] ].

(** Scenario A with a 200x100 logo loaded, at its initial size and
    position. *)
Definition withLogo : CombinerState :=
  setLogoSlot
    {| logo := Some "data:image/png;base64,iVBORw0KGgo=";
       logoElement := Some (imageOf 200 100 "blob:logo");
       logoZoom := Fin 10;
       logoPosition := {| x := Fin 50; y := Fin 90 |};
       logoLoadError := None; isLoadingLogo := false |} scenarioA.

(** ** [server/transcribe.ts]: polling for a transcription *)

(** What [cloudinary.api.resource] answers to a status check: the call
    throws, or the resource comes with or without
    [info.raw_convert.google_speech], whose [status] is a string. *)
Inductive ApiAnswer : Type :=
| apiThrows
| apiNoSpeechInfo
| apiSpeechStatus (status : string).

(** [checkTranscriptionStatus]: the status, or [None] when it throws. *)
Definition checkTranscriptionStatus (answer : ApiAnswer) : option string :=
  match answer with
  | apiThrows => None
  | apiNoSpeechInfo => Some "pending"
  | apiSpeechStatus status => Some status
  end.

(** What the action returns: the success with the subtitled video URL
    generated for [publicId], or one of its three errors. *)
Inductive TranscriptionResult : Type :=
| transcriptionCompleted (publicId : string)
| transcriptionFailed
| transcriptionTimedOut
| transcriptionThrew.

Definition maxAttempts : nat := 20.
Definition delay : Z := 2000.

(** A run of the action: its result, the number of status checks it
    made and the time it spent in [setTimeout], in milliseconds. *)
Record Polling : Type := {
  result : TranscriptionResult;
  checks : nat;
  waited : Z
}.

(** The [for] loop of [initiateTranscription] from [attempt] on, with
    [remaining] iterations left; [answers k] is what the API answers to
    the check of attempt [k]. *)
Fixpoint pollFrom (remaining attempt : nat) (publicId : string)
    (answers : nat -> ApiAnswer) (waitedSoFar : Z) : Polling :=
  match remaining with
  | O => {| result := transcriptionTimedOut; checks := attempt;
            waited := waitedSoFar |}
  | S remaining' =>
      match checkTranscriptionStatus (answers attempt) with
      | None => {| result := transcriptionThrew; checks := S attempt;
                   waited := waitedSoFar |}
      | Some status =>
          if status =? "complete"
          then {| result := transcriptionCompleted publicId; checks := S attempt;
                  waited := waitedSoFar |}
          else if status =? "failed"
          then {| result := transcriptionFailed; checks := S attempt;
                  waited := waitedSoFar |}
          else pollFrom remaining' (S attempt) publicId answers
                 (waitedSoFar + delay)%Z
      end
  end.

(** [initiateTranscription]; [updateThrows] tells whether
    [cloudinary.api.update] throws. *)
Definition initiateTranscription (publicId : string) (updateThrows : bool)
    (answers : nat -> ApiAnswer) : Polling :=
  if updateThrows
  then {| result := transcriptionThrew; checks := O; waited := 0%Z |}
  else pollFrom maxAttempts 0 publicId answers 0%Z.

(** An answer after which the loop goes on, and the result an answer
    ends the loop with. *)
Definition keepsPolling (answer : ApiAnswer) : bool :=
  match checkTranscriptionStatus answer with
  | None => false
  | Some status => negb (status =? "complete") && negb (status =? "failed")
  end.

Definition verdict (publicId : string) (answer : ApiAnswer) : TranscriptionResult :=
  match checkTranscriptionStatus answer with
  | None => transcriptionThrew
  | Some status =>
      if status =? "complete" then transcriptionCompleted publicId
      else transcriptionFailed
  end.

(** ** The zoom of the slots over a run *)

(** A zoom slider emits values of its range [[lo, hi]] only; the other
    events are not restricted. *)
Definition sliderWithin (lo hi : Q) (ev : Event) : Prop :=
  match ev with
  | ZoomSlider _ v => inRange lo hi v
  | _ => True
  end.

(** Both zooms lie in [[lo, 500]], and the snapshots a pinch works from
    are finite. *)
Definition zoomInRange (lo : Q) (a : App) : Prop :=
  inRange lo 500 (sZoom (leftSlot (combiner a)))
  /\ inRange lo 500 (sZoom (rightSlot (combiner a)))
  /\ finite (zoomAtPinchStart (gesture a))
  /\ finite (initialPinchDistance (gesture a)).

(** What a handler of the combiner does to the zooms: it keeps them, or
    resets them to 100. *)
Definition zoomKept (st st' : CombinerState) : Prop :=
  (sZoom (leftSlot st') = sZoom (leftSlot st) \/ sZoom (leftSlot st') = n100)
  /\ (sZoom (rightSlot st') = sZoom (rightSlot st) \/ sZoom (rightSlot st') = n100).

(** [Math.sqrt] of a finite number that is not negative is finite. *)
Definition sqrtFinite (Math_sqrt : number -> number) : Prop :=
  forall q, (0 <= q)%Q -> finite (Math_sqrt (Fin q)).

(** The drag of [farDrag], and then the left zoom slider moved to 0.5. *)
Definition sliderRun : list Event :=
  farDrag ++ [ZoomSlider Left (Fin (1 # 2))].

(* ================================================================== *)
(** * Part II. Lemmas and theorems *)
(* ================================================================== *)

(** ** Rationals *)

Lemma Qltb_lt (p q : Q) : Qltb p q = true <-> (p < q)%Q.
Proof.
  unfold Qltb. rewrite negb_true_iff. split; intro H.
  - apply Qnot_le_lt. intro Hle. apply Qle_bool_iff in Hle. congruence.
  - destruct (Qle_bool q p) eqn:E; [|reflexivity].
    apply Qle_bool_iff in E. exfalso. apply (Qlt_not_le _ _ H E).
Qed.

Lemma Qltb_ge (p q : Q) : Qltb p q = false <-> (q <= p)%Q.
Proof.
  unfold Qltb. rewrite negb_false_iff. apply Qle_bool_iff.
Qed.

Lemma Qle_bool_gt (p q : Q) : Qle_bool p q = false <-> (q < p)%Q.
Proof.
  rewrite <- Qltb_lt. unfold Qltb. rewrite negb_true_iff. tauto.
Qed.

Lemma Qsgn_pos (q : Q) : (0 < q)%Q -> Qsgn q = Gt.
Proof. intros H. unfold Qsgn. apply Qgt_alt. exact H. Qed.

Lemma Qsgn_neg (q : Q) : (q < 0)%Q -> Qsgn q = Lt.
Proof. intros H. unfold Qsgn. apply Qlt_alt. exact H. Qed.

Lemma Qsgn_zero (q : Q) : (q == 0)%Q -> Qsgn q = Eq.
Proof. intros H. unfold Qsgn. apply Qeq_alt. exact H. Qed.

Lemma Qsgn_cases (q : Q) :
  (q == 0 /\ Qsgn q = Eq)%Q \/ (q < 0 /\ Qsgn q = Lt)%Q \/ (0 < q /\ Qsgn q = Gt)%Q.
Proof.
  destruct (Q_dec q 0) as [[H|H]|H].
  - right; left; split; [exact H | apply Qsgn_neg, H].
  - right; right; split; [exact H | apply Qsgn_pos, H].
  - left; split; [exact H | apply Qsgn_zero, H].
Qed.

Lemma Qdiv_pos (p q : Q) : (0 < p)%Q -> (0 < q)%Q -> (0 < p / q)%Q.
Proof.
  intros Hp Hq. unfold Qdiv. apply Qmult_lt_0_compat; [exact Hp|].
  apply Qinv_lt_0_compat, Hq.
Qed.

Lemma Qdiv_pos_inv (p q : Q) : (0 < p / q)%Q -> (0 < q)%Q -> (0 < p)%Q.
Proof.
  intros H Hq.
  assert (E : (p == (p / q) * q)%Q) by (field; lra).
  rewrite E. apply Qmult_lt_0_compat; assumption.
Qed.

Lemma Qred_involutive (q : Q) : Qred (Qred q) = Qred q.
Proof. apply Qred_complete, Qred_correct. Qed.

Lemma inject_Z_pos (z : Z) : (0 < z)%Z -> (0 < inject_Z z)%Q.
Proof. intros H. change 0%Q with (inject_Z 0). rewrite <- Zlt_Qlt. exact H. Qed.

Lemma Qred_inject_Z (z : Z) : Qred (inject_Z z) = inject_Z z.
Proof.
  unfold inject_Z, Qred. simpl.
  pose proof (Z.ggcd_gcd z 1) as Hg. pose proof (Z.ggcd_correct_divisors z 1) as Hd.
  destruct (Z.ggcd z 1) as [g [aa bb]]. simpl in *.
  rewrite Z.gcd_1_r in Hg. subst g. destruct Hd as [Ha Hb].
  rewrite Z.mul_1_l in Ha, Hb. subst aa. subst bb. reflexivity.
Qed.

(** ** Numbers *)

Lemma fin_eq (p q : Q) : (p == q)%Q -> fin p = fin q.
Proof. intros H. unfold fin. f_equal. apply Qred_complete, H. Qed.

Lemma canonical_fin (q : Q) : canonical (fin q).
Proof. apply Qred_involutive. Qed.

Lemma canonical_ofZ (z : Z) : canonical (ofZ z).
Proof. apply Qred_inject_Z. Qed.

Lemma canonical_eq (p q : Q) :
  canonical (Fin p) -> canonical (Fin q) -> (p == q)%Q -> Fin p = Fin q.
Proof.
  simpl. intros Hp Hq H. rewrite <- Hp, <- Hq. f_equal. apply Qred_complete, H.
Qed.

Lemma div_pos (p q : Q) : (0 < q)%Q -> div (Fin p) (Fin q) = fin (p / q).
Proof. intros H. simpl. rewrite (Qsgn_pos H). reflexivity. Qed.

Lemma div_neg (p q : Q) : (q < 0)%Q -> div (Fin p) (Fin q) = fin (p / q).
Proof. intros H. simpl. rewrite (Qsgn_neg H). reflexivity. Qed.

Lemma canonical_signedInf (s : comparison) (b : bool) : canonical (signedInf s b).
Proof. destruct s, b; exact I. Qed.

Ltac canon :=
  first [ exact I | reflexivity | apply canonical_fin
        | apply canonical_signedInf | apply Qred_involutive ].

Lemma canonical_neg (a : number) : canonical (neg a).
Proof. destruct a; cbn [neg]; canon. Qed.

Lemma canonical_add (a b : number) : canonical (add a b).
Proof. destruct a, b; cbn [add]; canon. Qed.

Lemma canonical_sub (a b : number) : canonical (sub a b).
Proof. apply canonical_add. Qed.

Lemma canonical_mul (a b : number) : canonical (mul a b).
Proof. destruct a, b; cbn [mul]; canon. Qed.

Lemma canonical_div (a b : number) : canonical (div a b).
Proof.
  destruct a as [p| | |], b as [q| | |]; cbn [div];
    try match goal with |- context [Qsgn ?u] => destruct (Qsgn u) end; canon.
Qed.

Lemma lt_irrefl (a : number) : lt a a = false.
Proof.
  destruct a as [p| | |]; simpl; try reflexivity. apply Qltb_ge. lra.
Qed.

Lemma lt_asym (a b : number) : lt a b = true -> lt b a = false.
Proof.
  destruct a as [p| | |], b as [q| | |]; simpl; try congruence.
  intros H. apply Qltb_lt in H. apply Qltb_ge. lra.
Qed.

(** Turns every comparison of rationals among the hypotheses and in the
    goal into its proposition. *)
Ltac qbool :=
  repeat match goal with
  | H : Qltb _ _ = true |- _ => apply Qltb_lt in H
  | H : Qltb _ _ = false |- _ => apply Qltb_ge in H
  | H : Qle_bool _ _ = true |- _ => apply Qle_bool_iff in H
  | H : Qle_bool _ _ = false |- _ => apply Qle_bool_gt in H
  | H : Qeq_bool _ _ = true |- _ => apply Qeq_bool_iff in H
  | H : Qeq_bool _ _ = false |- _ => apply Qeq_bool_neq in H
  | |- Qltb _ _ = true => apply Qltb_lt
  | |- Qltb _ _ = false => apply Qltb_ge
  | |- Qle_bool _ _ = true => apply Qle_bool_iff
  | |- Qle_bool _ _ = false => apply Qle_bool_gt
  | |- Qeq_bool _ _ = true => apply Qeq_bool_iff
  end.

(** Splits on every comparison of rationals the goal tests. *)
Ltac qcases :=
  repeat match goal with
  | |- context [Qltb ?u ?v] =>
      let E := fresh "E" in destruct (Qltb u v) eqn:E; simpl
  | |- context [Qle_bool ?u ?v] =>
      let E := fresh "E" in destruct (Qle_bool u v) eqn:E; simpl
  end.

(** ** [clamp] *)

(** C9. For all numbers [z], [a] and [b] (finite, infinite or NaN),
    clamping twice is clamping once:
    [clamp (clamp z a b) a b = clamp z a b]. *)
Theorem clamp_idempotent (z a b : number) :
  clamp (clamp z a b) a b = clamp z a b.
Proof.
  unfold clamp, Math_min, Math_max.
  destruct z as [p| | |], a as [q| | |], b as [r| | |]; simpl; try reflexivity;
    qcases; try reflexivity; qbool; lra.
Qed.

Lemma canonical_zero (q : Q) : canonical (Fin q) -> (q == 0)%Q -> Fin q = n0.
Proof. intros Hc E. apply canonical_eq; [exact Hc | reflexivity | exact E]. Qed.

Lemma clamp_zero_zero (v : number) :
  canonical v -> isNaN v = false -> clamp v n0 n0 = n0.
Proof.
  intros Hc Hn. destruct v as [q| | |]; try discriminate; try reflexivity.
  unfold clamp, Math_max, Math_min, n0, lt.
  destruct (Qltb q 0) eqn:E1.
  - rewrite (proj2 (Qltb_ge 0 0)) by lra. reflexivity.
  - destruct (Qltb 0 q) eqn:E2; [reflexivity|].
    qbool. apply canonical_zero; [exact Hc | lra].
Qed.

Lemma clamp_finite_notNaN (v lo hi : number) :
  Number_isFinite (clamp v lo hi) = true -> isNaN v = false /\ isNaN hi = false.
Proof.
  unfold clamp, Math_min, Math_max.
  destruct v, lo, hi; simpl; qcases; try discriminate; intros _; split; reflexivity.
Qed.

Lemma clamp_into (v u : number) :
  canonical v -> canonical u ->
  Number_isFinite (clamp v n0 (Math_max n0 u)) = true ->
  clamp v n0 (Math_max n0 u) = specClampInto v u.
Proof.
  intros Hv Hu Hf. destruct (clamp_finite_notNaN _ _ _ Hf) as [Nv Nu].
  unfold specClampInto. destruct u as [q| | |]; try discriminate.
  - unfold Math_max, n0, lt in *. destruct (Qltb 0 q) eqn:E1.
    + rewrite (proj2 (Qltb_ge q 0)) by (qbool; lra). reflexivity.
    + destruct (Qltb q 0) eqn:E2.
      * apply clamp_zero_zero; assumption.
      * qbool. rewrite (@canonical_zero q) by (assumption || lra). reflexivity.
  - reflexivity.
  - apply clamp_zero_zero; assumption.
Qed.

Lemma clamp_finite (v lo hi : number) :
  finite v -> finite lo -> finite hi -> finite (clamp v lo hi).
Proof.
  unfold clamp, Math_min, Math_max.
  destruct v, lo, hi; simpl; try contradiction; intros _ _ _.
  repeat match goal with |- context [if ?c then _ else _] => destruct c end; exact I.
Qed.

Lemma finite_isFinite (n : number) : finite n <-> Number_isFinite n = true.
Proof. destruct n; simpl; split; intros; try exact I; try reflexivity; try discriminate; try contradiction. Qed.

Lemma codeSourceRect_spec (sw sh dW dH z : number) (f : RelativeFocus) :
  let fs := specFinalScale sw sh dW dH z in
  drawable (codeSourceRect sw sh dW dH fs f) = true ->
  codeSourceRect sw sh dW dH fs f = specSourceRect sw sh dW dH z f.
Proof.
  intros fs Hd. unfold drawable in Hd. rewrite !andb_true_iff in Hd.
  destruct Hd as [[[[[_ _] Hx] Hy] _] _].
  unfold codeSourceRect, specSourceRect in *. fold fs.
  cbn [rect_sx rect_sy] in Hx, Hy.
  rewrite !clamp_into by (try apply canonical_sub; assumption).
  reflexivity.
Qed.


(** ** The two per-slot draws

    Both routines reduce to [drawPlan] on sources of positive size and
    draw nothing on others. *)

Lemma ofZ_le0 (z : Z) : le (ofZ z) n0 = (z <=? 0)%Z.
Proof.
  unfold ofZ, n0, le. destruct (Z.leb_spec z 0) as [H|H].
  - apply Qle_bool_iff. change 0%Q with (inject_Z 0). rewrite <- Zle_Qle. exact H.
  - apply Qle_bool_gt. apply inject_Z_pos. exact H.
Qed.

Lemma truthy_ofZ (z : Z) : truthy (ofZ z) = negb (z =? 0)%Z.
Proof.
  unfold truthy, ofZ. f_equal. unfold Qeq_bool, inject_Z. simpl.
  rewrite Z.mul_1_r. destruct z; reflexivity.
Qed.

Lemma orElse_ofZ_0 (z : Z) : orElse (ofZ z) n0 = ofZ z.
Proof.
  unfold orElse. rewrite truthy_ofZ. destruct (Z.eqb_spec z 0) as [->|H]; reflexivity.
Qed.

Lemma specAborted_false (fs : number) :
  specAborted fs = false -> exists f, fs = Fin f /\ (0 < f)%Q.
Proof.
  unfold specAborted. destruct fs as [f| | |]; simpl; try discriminate.
  intros H. exists f. split; [reflexivity|]. qbool. exact H.
Qed.

Lemma div_gt0_inv (d : number) (f : Q) :
  (0 < f)%Q -> gt (div d (Fin f)) n0 = true -> gt d n0 = true.
Proof.
  intros Hf. unfold gt. destruct d as [p| | |].
  - rewrite (div_pos p Hf). unfold fin, n0, lt. intros H. qbool.
    rewrite Qred_correct in H. apply (Qdiv_pos_inv H Hf).
  - reflexivity.
  - cbn [div]. rewrite (Qsgn_pos Hf). discriminate.
  - discriminate.
Qed.




Lemma drawMediaSection_calls (el : MediaElement) (section : Side)
    (W H z : number) (f : RelativeFocus) :
  (0 < elementWidth el)%Z -> (0 < elementHeight el)%Z ->
  drawMediaSection (Some el) section W H z f
  = [save; clearRect n0 n0 (W / n2)%js H]
    ++ (let sw := ofZ (elementWidth el) in
        let sh := ofZ (elementHeight el) in
        let fs := specFinalScale sw sh (W / n2)%js H z in
        if specAborted fs then [restore; restore]
        else
          let r := codeSourceRect sw sh (W / n2)%js H fs f in
          (if drawable r
           then [drawImage el (rect_sx r) (rect_sy r) (rect_sWidth r) (rect_sHeight r)
                           n0 n0 (W / n2)%js H]
           else []) ++ [restore]).
Proof.
  intros Hw Hh. unfold drawMediaSection. f_equal.
  assert (E : forall u v, (0 < u)%Z -> (0 < v)%Z ->
     (negb (truthy (ofZ u)) || negb (truthy (ofZ v)) || le (ofZ u) n0 || le (ofZ v) n0) = false).
  { intros u v Hu Hv. rewrite !truthy_ofZ, !ofZ_le0.
    destruct (Z.eqb_spec u 0); [lia|]. destruct (Z.eqb_spec v 0); [lia|].
    destruct (Z.leb_spec u 0); [lia|]. destruct (Z.leb_spec v 0); [lia|]. reflexivity. }
  destruct el as [img|v]; cbn [elementWidth elementHeight] in *;
    rewrite !orElse_ofZ_0, (E _ _ Hw Hh); cbv zeta.
  all: match goal with
    | |- context [specFinalScale ?sw ?sh ?dw ?dh ?zz] =>
       fold (specCoverScale sw sh dw dh); fold (specFinalScale sw sh dw dh zz);
       set (fs := specFinalScale sw sh dw dh zz);
       unfold specAborted; rewrite (orb_comm (negb (Number_isFinite fs)));
       destruct (le fs n0 || negb (Number_isFinite fs)) eqn:Ea; [reflexivity|];
       fold (codeSourceRect sw sh dw dh fs f);
       set (r := codeSourceRect sw sh dw dh fs f)
    end.
  all: assert (Hfs : exists f0, fs = Fin f0 /\ (0 < f0)%Q)
    by (apply specAborted_false; unfold specAborted; rewrite orb_comm; exact Ea).
  all: destruct Hfs as [f0 [Efs Hf0]].
  all: unfold drawable; subst r; unfold codeSourceRect;
    cbn [rect_sx rect_sy rect_sWidth rect_sHeight].
  all: destruct (gt (W / n2 / fs) n0) eqn:G1; [|reflexivity].
  all: destruct (gt (H / fs) n0) eqn:G2; [|reflexivity].
  all: rewrite Efs in G1, G2; apply (div_gt0_inv _ Hf0) in G1, G2; rewrite G1, G2.
  all: cbn [andb].
  all: destruct (Number_isFinite _ && _ && _ && _) eqn:G3.
  all: cbn [andb]; try reflexivity.
  all: repeat rewrite andb_assoc in G3 ; try rewrite G3; try reflexivity.
Qed.

Lemma drawMediaSection_plan (el : MediaElement) (section : Side)
    (W H z : number) (f : RelativeFocus) :
  (0 < elementWidth el)%Z -> (0 < elementHeight el)%Z ->
  sourceRectOf (drawMediaSection (Some el) section W H z f)
  = drawPlan (ofZ (elementWidth el)) (ofZ (elementHeight el)) (W / n2)%js H z f.
Proof.
  intros Hw Hh. rewrite (drawMediaSection_calls _ _ _ _ _ _ Hw Hh).
  unfold drawPlan. cbn [app sourceRectOf]. cbv zeta.
  destruct (specAborted _); [reflexivity|].
  destruct (drawable _); reflexivity.
Qed.

(** ** The preview draw against the design document *)

Lemma finite_Fin (n : number) : finite n -> exists q, n = Fin q.
Proof. destruct n as [q| | |]; simpl; try contradiction. intros _. exists q. reflexivity. Qed.

Lemma gt0_Fin (q : Q) : gt (Fin q) n0 = true <-> (0 < q)%Q.
Proof. unfold gt, lt, n0. apply Qltb_lt. Qed.

Lemma specFinalScale_pos (sw sh dW dH zq : Q) :
  (0 < sw)%Q -> (0 < sh)%Q -> (0 < dW)%Q -> (0 < dH)%Q -> (0 < zq)%Q ->
  exists fq, specFinalScale (Fin sw) (Fin sh) (Fin dW) (Fin dH) (Fin zq) = Fin fq
             /\ (0 < fq)%Q.
Proof.
  intros Hsw Hsh HdW HdH Hz. unfold specFinalScale, specCoverScale, n100.
  rewrite !div_pos by (assumption || lra). unfold fin.
  destruct (gt _ _); cbn [mul fin]; eexists; (split; [reflexivity|]);
    rewrite !Qred_correct; apply Qmult_lt_0_compat; apply Qdiv_pos; assumption || lra.
Qed.

Lemma drawable_pos (sw sh dW dH fq : Q) (fx fy : Q) :
  (0 < dW)%Q -> (0 < dH)%Q -> (0 < fq)%Q ->
  drawable (codeSourceRect (Fin sw) (Fin sh) (Fin dW) (Fin dH) (Fin fq)
              {| x := Fin fx; y := Fin fy |}) = true.
Proof.
  intros HdW HdH Hf. unfold drawable, codeSourceRect.
  cbn [rect_sx rect_sy rect_sWidth rect_sHeight x y].
  rewrite !div_pos by assumption. unfold fin, n2.
  rewrite !div_pos by lra. unfold fin.
  rewrite !andb_true_iff. repeat split.
  - apply gt0_Fin. rewrite Qred_correct. apply Qdiv_pos; assumption.
  - apply gt0_Fin. rewrite Qred_correct. apply Qdiv_pos; assumption.
  - apply finite_isFinite. apply clamp_finite; try exact I.
    unfold Math_max, n0. cbn. destruct (Qltb _ _); exact I.
  - apply finite_isFinite. apply clamp_finite; try exact I.
    unfold Math_max, n0. cbn. destruct (Qltb _ _); exact I.
Qed.

(** C1. For every per-slot draw of the preview on a source of positive
    width and height, with destination width [dW] (half the target canvas
    width), destination height [dH], zoom [z] percent and focus
    [(fx, fy)]: the cover scale is [dH / sourceH] when the source aspect
    exceeds the destination aspect and [dW / sourceW] otherwise, the final
    scale is the cover scale times [z / 100]; when the final scale is not
    finite or is at most 0 the draw is aborted (no [drawImage] is
    called); every [drawImage] the routine calls takes the source
    rectangle of size [(dW / finalScale, dH / finalScale)] whose top-left
    is [(sourceW * fx - visibleW / 2, sourceH * fy - visibleH / 2)]
    clamped into [[0, sourceDim - visibleDim]], or to 0 when that bound
    is negative; and for finite positive [dW], [dH] and [z] and a finite
    focus that [drawImage] is called. *)
Theorem drawMediaSection_transform (el : MediaElement) (section : Side)
    (targetCanvasWidth dH z : number) (focus : RelativeFocus) :
  (0 < elementWidth el)%Z -> (0 < elementHeight el)%Z ->
  let sourceW := ofZ (elementWidth el) in
  let sourceH := ofZ (elementHeight el) in
  let dW := (targetCanvasWidth / n2)%js in
  let finalScale := specFinalScale sourceW sourceH dW dH z in
  let calls := drawMediaSection (Some el) section targetCanvasWidth dH z focus in
  (Number_isFinite finalScale = false \/ (finalScale <=? n0)%js = true ->
     calls = [save; clearRect n0 n0 dW dH; restore; restore])
  /\ (forall r, sourceRectOf calls = Some r ->
        r = specSourceRect sourceW sourceH dW dH z focus)
  /\ (forall W H zq fx fy : Q,
        targetCanvasWidth = Fin W -> dH = Fin H -> z = Fin zq ->
        focus = {| x := Fin fx; y := Fin fy |} ->
        (0 < W)%Q -> (0 < H)%Q -> (0 < zq)%Q ->
        sourceRectOf calls = Some (specSourceRect sourceW sourceH dW dH z focus)).
Proof.
  intros Hw Hh sourceW sourceH dW finalScale calls.
  assert (Ecalls := drawMediaSection_calls el section targetCanvasWidth dH z focus Hw Hh).
  assert (Eplan := drawMediaSection_plan el section targetCanvasWidth dH z focus Hw Hh).
  fold calls in Ecalls, Eplan. fold sourceW sourceH dW in Ecalls, Eplan.
  cbv zeta in Ecalls. fold finalScale in Ecalls.
  unfold drawPlan in Eplan. fold finalScale in Eplan.
  repeat split.
  - intros Habort. rewrite Ecalls.
    assert (Ea : specAborted finalScale = true).
    { unfold specAborted. destruct Habort as [E|E]; rewrite E; [reflexivity|].
      apply orb_true_r. }
    rewrite Ea. reflexivity.
  - intros r Hr. rewrite Eplan in Hr.
    destruct (specAborted finalScale); [discriminate|].
    destruct (drawable _) eqn:Ed; [|discriminate].
    injection Hr as <-. apply codeSourceRect_spec. exact Ed.
  - intros W H zq fx fy EW EH Ez Ef HW HH Hz.
    rewrite Eplan. subst finalScale dW sourceW sourceH. subst targetCanvasWidth dH z focus.
    unfold ofZ, n2 in *. rewrite !div_pos in * by lra. unfold fin in *.
    assert (HdW : (0 < Qred (W / 2))%Q) by (rewrite Qred_correct; apply Qdiv_pos; lra).
    destruct (@specFinalScale_pos (inject_Z (elementWidth el)) (inject_Z (elementHeight el))
                (Qred (W / 2)) H zq) as [fq [Efs Hfq]];
      try assumption; try (apply inject_Z_pos; assumption).
    assert (Ed := @drawable_pos (inject_Z (elementWidth el)) (inject_Z (elementHeight el))
                    (Qred (W / 2)) H fq fx fy HdW HH Hfq).
    rewrite <- Efs in Ed.
    rewrite Efs at 1. unfold specAborted. cbn [Number_isFinite negb orb le n0].
    rewrite (proj2 (Qle_bool_gt fq 0) Hfq).
    rewrite Ed. f_equal. apply codeSourceRect_spec. exact Ed.
Qed.

Lemma drawMediaSection_transform_witness :
  let el := Image {| naturalWidth := 800; naturalHeight := 600; img_src := "blob:a" |} in
  (0 < elementWidth el)%Z /\ (0 < elementHeight el)%Z
  /\ sourceRectOf (drawMediaSection (Some el) Left (Fin 800) (Fin 450) (Fin 100)
                     {| x := half; y := half |})
     = Some {| rect_sx := Fin (400 # 3); rect_sy := Fin 0;
               rect_sWidth := Fin (1600 # 3); rect_sHeight := Fin 600 |}.
Proof.
  intros el.
  assert (Hw : (0 < elementWidth el)%Z) by reflexivity.
  assert (Hh : (0 < elementHeight el)%Z) by reflexivity.
  split; [exact Hw | split; [exact Hh |]].
  destruct (drawMediaSection_transform el Left (Fin 800) (Fin 450) (Fin 100)
              {| x := half; y := half |} Hw Hh) as [_ [_ Hdraw]].
  rewrite (Hdraw 800 450 100 (1 # 2) (1 # 2))%Q by reflexivity.
  vm_compute. reflexivity.
Defined.

(** ** The export draw against the preview draw *)






(** ** The exporter *)

Lemma Math_max_ofZ (a b : Z) : Math_max (ofZ a) (ofZ b) = ofZ (Z.max a b).
Proof.
  unfold Math_max, ofZ, lt.
  destruct (Qltb (inject_Z a) (inject_Z b)) eqn:E; qbool.
  - rewrite <- Zlt_Qlt in E. rewrite Z.max_r by lia. reflexivity.
  - rewrite <- Zle_Qle in E. rewrite Z.max_l by lia. reflexivity.
Qed.

Lemma mul_ofZ (a b : Z) : mul (ofZ a) (ofZ b) = ofZ (a * b).
Proof.
  unfold mul, ofZ, fin. f_equal.
  change (inject_Z a * inject_Z b)%Q with (inject_Z (a * b)).
  apply Qred_inject_Z.
Qed.

Lemma displayAspect_Fin (container : option Container) :
  exists a, displayAspect container = Fin a /\ (a == containerAspect container)%Q /\ (0 < a)%Q.
Proof.
  unfold displayAspect, containerAspect.
  assert (D : exists a, defaultAspect = Fin a /\ (a == 16 # 9)%Q /\ (0 < a)%Q).
  { exists (16 # 9). repeat split. }
  destruct container as [c|]; [|exact D].
  destruct (Z.ltb_spec 0 (offsetWidth c)) as [Hw|Hw]; [|exact D].
  destruct (Z.ltb_spec 0 (offsetHeight c)) as [Hh|Hh]; [|exact D].
  cbn [andb]. unfold ofZ. rewrite div_pos by (apply inject_Z_pos; assumption).
  eexists. split; [reflexivity|]. split.
  - apply Qred_correct.
  - rewrite Qred_correct. apply Qdiv_pos; apply inject_Z_pos; assumption.
Qed.

Lemma exportSize (container : option Container) (lw rw : Z) :
  let width := (2 * Z.max (Z.max lw rw) 500)%Z in
  let finalWidth := (Math_max3 (ofZ lw) (ofZ rw) (Fin 500) * n2)%js in
  let finalHeight := Math_ceil (finalWidth / displayAspect container)%js in
  finalWidth = ofZ width
  /\ finalHeight = ofZ (Qceiling (inject_Z width / containerAspect container))
  /\ (1000 <= width)%Z
  /\ (1 <= Qceiling (inject_Z width / containerAspect container))%Z.
Proof.
  intros width finalWidth finalHeight.
  assert (EW : finalWidth = ofZ width).
  { unfold finalWidth, Math_max3. change (Fin 500) with (ofZ 500). change n2 with (ofZ 2).
    rewrite !Math_max_ofZ, mul_ofZ. unfold width. f_equal. lia. }
  assert (Hwidth : (1000 <= width)%Z) by (unfold width; lia).
  destruct (displayAspect_Fin container) as [a [Ea [Eq Ha]]].
  assert (Hq : (0 < inject_Z width / containerAspect container)%Q).
  { rewrite <- Eq. apply Qdiv_pos; [apply inject_Z_pos; lia | exact Ha]. }
  repeat split; try assumption.
  - unfold finalHeight. rewrite EW, Ea. unfold ofZ at 1. rewrite div_pos by exact Ha.
    unfold fin, Math_ceil. f_equal. apply Qceiling_comp.
    rewrite Qred_correct, Eq. reflexivity.
  - pose proof (Qle_ceiling (inject_Z width / containerAspect container)) as Hc.
    assert (0 < inject_Z (Qceiling (inject_Z width / containerAspect container)))%Q by lra.
    change 0%Q with (inject_Z 0) in H. rewrite <- Zlt_Qlt in H. lia.
Qed.

Lemma canSave_images (st : CombinerState) :
  canSaveComposite st = true ->
  exists l r, leftMediaElement st = Some (Image l)
              /\ rightMediaElement st = Some (Image r)
              /\ (0 < naturalWidth l)%Z /\ (0 < naturalWidth r)%Z.
Proof.
  unfold canSaveComposite. rewrite !andb_true_iff.
  intros [[[[Hl Hr] _] _] _].
  unfold isLoadedImage in Hl, Hr.
  destruct (leftMediaElement st) as [[l|]|]; try discriminate.
  destruct (rightMediaElement st) as [[r|]|]; try discriminate.
  apply andb_true_iff in Hl, Hr. destruct Hl as [Hl _], Hr as [Hr _].
  apply Z.ltb_lt in Hl, Hr. exists l, r. repeat split; assumption.
Qed.




(** The export height in double precision: 1350 for Scenario A in a
    640x360 container and 563 for two 400x300 images without a container,
    as over the unrounded values; but 1761 for Scenario A in a 300x220
    container, where the exact quotient is the whole number 1760 and the
    computed one lies just above it. *)
Lemma export_height_in_double_precision :
  let l := imageOf 800 600 "blob:left" in
  let r := imageOf 1200 900 "blob:right" in
  let s := imageOf 400 300 "blob:left" in
  Binary64.finalWidth l r = Binary64.ofZ 2400
  /\ Binary64.finalHeight (Some {| offsetWidth := 640; offsetHeight := 360 |}) l r
     = Binary64.ofZ 1350
  /\ Binary64.finalHeight None s s = Binary64.ofZ 563
  /\ Binary64.finalHeight (Some {| offsetWidth := 300; offsetHeight := 220 |}) l r
     = Binary64.ofZ 1761
  /\ (inject_Z 2400 / containerAspect (Some {| offsetWidth := 300; offsetHeight := 220 |})
      == 1760)%Q.
Proof.
  repeat split; vm_compute; reflexivity.
Qed.

(** C4. Whenever the left or the right slot does not hold a loaded image
    of positive size (it is empty, still loading, or holds a video), or a
    logo source was provided and the logo is not a loaded image yet, the
    precondition check denies the export, and [saveCompositeImage] only
    sets the error message: it returns without creating a canvas and
    without any other effect. *)
Theorem export_denied_when_not_ready (container : option Container)
    (getContext : bool) (st : CombinerState) :
  slotNotReady (leftSlot st) \/ slotNotReady (rightSlot st)
  \/ logoNotReady (logoSlot st) ->
  canSaveComposite st = false
  /\ saveCompositeImage container getContext st
     = (setSaveError (Some saveNotReady) st, []).
Proof.
  intros Hdeny.
  assert (Hcan : canSaveComposite st = false).
  { unfold canSaveComposite, leftMediaElement, rightMediaElement,
      isLoadingLeft, isLoadingRight.
    destruct Hdeny as [[H|H]|[[H|H]|[Hl [H|H]]]].
    - rewrite H. reflexivity.
    - rewrite H. cbn [negb]. rewrite !andb_false_r. reflexivity.
    - rewrite H. rewrite andb_false_r. reflexivity.
    - rewrite H. cbn [negb]. rewrite !andb_false_r. reflexivity.
    - rewrite Hl. cbn [orb]. unfold isLoadedImage in H.
      destruct (logoElement (logoSlot st)) as [img|]; cbn [option_map] in H.
      + rewrite H. cbn [andb]. rewrite !andb_false_r. reflexivity.
      + cbn [andb]. rewrite !andb_false_r. reflexivity.
    - rewrite Hl, H. cbn [orb negb]. rewrite !andb_false_r. reflexivity. }
  split; [exact Hcan |].
  unfold saveCompositeImage. rewrite Hcan. reflexivity.
Qed.

Lemma export_denied_when_not_ready_witness :
  sLoading (rightSlot scenarioB) = true
  /\ canSaveComposite scenarioB = false
  /\ saveCompositeImage None true scenarioB
     = (setSaveError (Some saveNotReady) scenarioB, []).
Proof.
  assert (Hloading : sLoading (rightSlot scenarioB) = true) by reflexivity.
  split; [exact Hloading |].
  apply (export_denied_when_not_ready None true scenarioB).
  right; left. right. exact Hloading.
Defined.

Lemma saveCompositeImage_effects (container : option Container)
    (st : CombinerState) :
  canSaveComposite st = true ->
  exists w h calls,
    snd (saveCompositeImage container true st)
    = createCanvas w h :: map ctx calls ++ [toBlob "image/png" (Fin (19 # 20))].
Proof.
  intros Hcan. destruct (canSave_images st Hcan) as [l [r [El [Er _]]]].
  unfold saveCompositeImage. rewrite Hcan, El, Er. cbn [negb].
  destruct (exportSize container (naturalWidth l) (naturalWidth r))
    as [EW [EH [Hwidth Hheight]]].
  set (width := (2 * Z.max (Z.max (naturalWidth l) (naturalWidth r)) 500)%Z) in *.
  rewrite EH, EW. unfold ofZ at 1 3. cbn [Number_isFinite negb orb].
  fold (ofZ width). fold (ofZ (Qceiling (inject_Z width / containerAspect container))).
  rewrite !ofZ_le0.
  destruct (Z.leb_spec width 0); [lia|].
  destruct (Z.leb_spec (Qceiling (inject_Z width / containerAspect container)) 0); [lia|].
  cbn [snd]. eexists _, _, _. reflexivity.
Qed.

Lemma blobType_ctx (calls : list CanvasCall) (rest : list Effect) :
  blobType (map ctx calls ++ rest) = blobType rest.
Proof. induction calls as [|c calls IH]; [reflexivity | exact IH]. Qed.

(** C8, as stated, fails: the file offered for download is named
    [imagem-combinada.png], not [combined-image.png]. *)
Lemma download_name_counterexample :
  canSaveComposite scenarioA = true
  /\ downloadName (snd (saveCompositeImage_onBlob (Some "blob:out") scenarioA))
     = Some "imagem-combinada.png"
  /\ downloadName (snd (saveCompositeImage_onBlob (Some "blob:out") scenarioA))
     <> Some "combined-image.png".
Proof.
  repeat split. vm_compute. discriminate.
Qed.

(** C8 (amended). A successful export encodes the composite as a PNG
    raster ([canvas.toBlob] is asked for [image/png]) and offers it as a
    browser-triggered file download whose filename is
    [imagem-combinada.png]. *)
Theorem export_png_download (container : option Container)
    (st st' : CombinerState) (url : string) :
  canSaveComposite st = true ->
  isMounted st' = true ->
  blobType (snd (saveCompositeImage container true st)) = Some "image/png"
  /\ downloadName (snd (saveCompositeImage_onBlob (Some url) st'))
     = Some "imagem-combinada.png".
Proof.
  intros Hcan Hm. split.
  - destruct (saveCompositeImage_effects container st Hcan) as [w [h [calls E]]].
    rewrite E. cbn [blobType]. apply blobType_ctx.
  - unfold saveCompositeImage_onBlob. rewrite Hm. reflexivity.
Qed.

Lemma export_png_download_witness :
  canSaveComposite scenarioA = true
  /\ isMounted scenarioA = true
  /\ blobType (snd (saveCompositeImage None true scenarioA)) = Some "image/png"
  /\ downloadName (snd (saveCompositeImage_onBlob (Some "blob:out") scenarioA))
     = Some "imagem-combinada.png".
Proof.
  assert (Hcan : canSaveComposite scenarioA = true) by reflexivity.
  assert (Hm : isMounted scenarioA = true) by reflexivity.
  split; [exact Hcan | split; [exact Hm |]].
  exact (export_png_download None scenarioA scenarioA "blob:out" Hcan Hm).
Defined.

(** ** The loader *)

Lemma getSlot_setSlot (side : Side) (slot : MediaSlot) (st : CombinerState) :
  getSlot side (setSlot side slot st) = slot.
Proof. destruct side; reflexivity. Qed.

Lemma getSlot_setSaveError (side : Side) (e : option SaveMessage) (st : CombinerState) :
  getSlot side (setSaveError e st) = getSlot side st.
Proof. destruct side; reflexivity. Qed.

Lemma loadMediaEffect_start_resets (mediaUrl : option string)
    (mediaType : option MediaType) (side : Side) (st : CombinerState) :
  let slot' := getSlot side (fst (fst (loadMediaEffect_start mediaUrl mediaType side st))) in
  sZoom slot' = n100 /\ sFocus slot' = {| x := half; y := half |} /\ sElement slot' = None.
Proof.
  unfold loadMediaEffect_start.
  destruct mediaUrl as [url|], mediaType as [t|]; try destruct (url =? "");
    cbn [fst]; rewrite ?getSlot_setSlot, ?getSlot_setSaveError, ?getSlot_setSlot;
    repeat split.
Qed.

Lemma loadMediaEffect_fetched_view (mediaUrl : string) (mediaType : MediaType)
    (side : Side) (fetched : option string) (st : CombinerState) :
  let slot' := getSlot side (fst (fst (loadMediaEffect_fetched mediaUrl mediaType side fetched st))) in
  sZoom slot' = sZoom (getSlot side st) /\ sFocus slot' = sFocus (getSlot side st).
Proof.
  unfold loadMediaEffect_fetched. destruct fetched; cbn [fst];
    rewrite ?getSlot_setSlot; split; reflexivity.
Qed.

Lemma loadMediaEffect_settled_view (side : Side) (objectUrlToClean : option string)
    (outcome : Settled) (st : CombinerState) :
  let slot' := getSlot side (fst (loadMediaEffect_settled side objectUrlToClean outcome st)) in
  sZoom slot' = sZoom (getSlot side st) /\ sFocus slot' = sFocus (getSlot side st).
Proof.
  unfold loadMediaEffect_settled. destruct outcome, (isMounted st); cbn [fst];
    rewrite ?getSlot_setSlot; split; reflexivity.
Qed.

Lemma loadLogoEffect_start_resets (logoUrl : option string) (st : CombinerState) :
  let slot' := logoSlot (fst (fst (loadLogoEffect_start logoUrl st))) in
  logoPosition slot' = {| x := Fin 50; y := Fin 90 |} /\ logoZoom slot' = Fin 10
  /\ logoElement slot' = None.
Proof.
  unfold loadLogoEffect_start.
  destruct logoUrl as [url|]; try destruct (url =? ""); repeat split.
Qed.

Lemma optStringEq_eq (a b : option string) : optStringEq a b = true <-> a = b.
Proof.
  destruct a as [s|], b as [t|]; simpl; try (split; congruence).
  rewrite String.eqb_eq. split; congruence.
Qed.

Lemma optTypeEq_eq (a b : option MediaType) : optTypeEq a b = true <-> a = b.
Proof.
  destruct a as [[|]|], b as [[|]|]; simpl; split; congruence.
Qed.

(** ** What a replaced source forgets *)

Ltac live_cases :=
  repeat match goal with
  | |- context [match ?x with _ => _ end] =>
      lazymatch x with
      | context [match _ with _ => _ end] => fail
      | _ => destruct x
      end
  end.

Ltac live_unfold :=
  cbv beta iota zeta delta
    [liveView liveSnapshots withGesture withCombiner
     handleMouseDown handleMouseMove handleMouseUp handleInteractionStart
     handleDragMove handleDragEnd handleWheelZoom requestDraw
     handleTouchStart handleTouchMove handleTouchEnd drawPreviewCanvases
     onFocusChange onZoomChange onLogoPositionChange
     setActiveDrag setDragStart setInitialDragFocus setInitialLogoPos
     setIsTouching setIsPinching setInitialPinchDistance setPinchSide
     setZoomAtPinchStart setAnimationFrameId
     activeDrag dragStart initialDragFocus initialLogoPos isTouching isPinching
     initialPinchDistance pinchSide zoomAtPinchStart animationFrameId
     combiner gesture initialGesture isSome fst snd negb andb orb].

Lemma step_live (Math_sqrt : number -> number) (a : App) (ev : Event) :
  liveView (step Math_sqrt a ev) = liveView (step Math_sqrt (liveView a) ev).
Proof.
  destruct a as [st g].
  destruct g as [ad ds idf ilp it ip ipd ps zps af].
  destruct ev; cbn [step].
  all: try reflexivity.
  all: destruct ad as [[s|]|], ip, it.
  all: live_unfold.
  all: live_cases.
  all: reflexivity.
Qed.

Lemma run_live (Math_sqrt : number -> number) (events : list Event) (a : App) :
  liveView (run Math_sqrt a events) = liveView (run Math_sqrt (liveView a) events).
Proof.
  revert a. induction events as [|ev events IH]; intros a.
  - destruct a as [st g]. destruct g as [ad ds idf ilp it ip ipd ps zps af].
    destruct ad as [[s|]|], ip; reflexivity.
  - change (liveView (run Math_sqrt (step Math_sqrt a ev) events)
            = liveView (run Math_sqrt (step Math_sqrt (liveView a) ev) events)).
    rewrite (IH (step Math_sqrt a ev)), (IH (step Math_sqrt (liveView a) ev)).
    rewrite (step_live Math_sqrt a ev). reflexivity.
Qed.

Lemma combiner_liveView (a : App) : combiner (liveView a) = combiner a.
Proof. reflexivity. Qed.

Lemma run_same_liveView (Math_sqrt : number -> number) (events : list Event) (a a' : App) :
  liveView a = liveView a' ->
  combiner (run Math_sqrt a events) = combiner (run Math_sqrt a' events).
Proof.
  intros E.
  rewrite <- (combiner_liveView (run Math_sqrt a events)).
  rewrite <- (combiner_liveView (run Math_sqrt a' events)).
  rewrite (run_live Math_sqrt events a), (run_live Math_sqrt events a'), E. reflexivity.
Qed.

Lemma onFileSelect_new (side : Side) (fileType dataUrl : string) (t : MediaType)
    (st : CombinerState) :
  detectType fileType = Some t ->
  (sMedia (getSlot side st), sMediaType (getSlot side st)) <> (Some dataUrl, Some t) ->
  onFileSelect side fileType (Some dataUrl) st
  = loadMediaEffect_start (Some dataUrl) (Some t) side
      (setSlot side (setLoadError None
         (setMedia (Some dataUrl) (Some t) (getSlot side st))) st).
Proof.
  intros Ht Hnew. unfold onFileSelect. rewrite Ht.
  destruct (optStringEq _ _ && optTypeEq _ _) eqn:E; [|reflexivity].
  apply andb_true_iff in E. destruct E as [E1 E2].
  apply optStringEq_eq in E1. apply optTypeEq_eq in E2.
  exfalso. apply Hnew. rewrite E1, E2. reflexivity.
Qed.

Lemma onLogoSelect_new (fileType dataUrl : string) (st : CombinerState) :
  prefix "image/" fileType = true ->
  logo (logoSlot st) <> Some dataUrl ->
  onLogoSelect fileType (Some dataUrl) st
  = loadLogoEffect_start (Some dataUrl)
      (setLogoSlot (setLogoLoadError None (setLogo (Some dataUrl) (logoSlot st))) st).
Proof.
  intros Hp Hnew. unfold onLogoSelect. rewrite Hp. cbn [negb].
  destruct (optStringEq _ _) eqn:E; [|reflexivity].
  apply optStringEq_eq in E. contradiction.
Qed.

Lemma file_selected_forgets_view (Math_sqrt : number -> number) (side : Side)
    (fileType dataUrl : string) (t : MediaType) (a : App)
    (zoom : number) (focus dragFocus : RelativeFocus) (pinchZoom : number) :
  detectType fileType = Some t ->
  (sMedia (getSlot side (combiner a)), sMediaType (getSlot side (combiner a)))
  <> (Some dataUrl, Some t) ->
  (forall s, activeDrag (gesture a) <> Some (Slot s)) ->
  isPinching (gesture a) = false ->
  liveView (step Math_sqrt (withPreviousView side zoom focus dragFocus pinchZoom a)
              (FileSelected side fileType (Some dataUrl)))
  = liveView (step Math_sqrt a (FileSelected side fileType (Some dataUrl))).
Proof.
  intros Ht Hnew Hdrag Hpinch.
  destruct a as [st g]. destruct g as [ad ds idf ilp it ip ipd ps zps af].
  cbn [gesture activeDrag isPinching combiner] in Hnew, Hdrag, Hpinch. subst ip.
  cbn [step]. unfold withCombiner, withPreviousView. cbn [combiner gesture].
  set (st' := setSlot side (setZoom zoom (setRelativeFocus focus (getSlot side st))) st).
  assert (Hnew' : (sMedia (getSlot side st'), sMediaType (getSlot side st'))
                  <> (Some dataUrl, Some t)).
  { unfold st'. destruct side; exact Hnew. }
  rewrite (onFileSelect_new _ _ _ Ht Hnew), (onFileSelect_new _ _ _ Ht Hnew').
  unfold loadMediaEffect_start, st'.
  destruct ad as [[s|]|]; [exfalso; exact (Hdrag s eq_refl) | |];
    destruct side; destruct (dataUrl =? ""); reflexivity.
Qed.

Lemma logo_selected_forgets_view (Math_sqrt : number -> number)
    (fileType dataUrl : string) (a : App)
    (position : RelativeFocus) (zoom : number) (dragPosition : RelativeFocus) :
  prefix "image/" fileType = true ->
  logo (logoSlot (combiner a)) <> Some dataUrl ->
  activeDrag (gesture a) <> Some Logo ->
  liveView (step Math_sqrt (withPreviousLogoView position zoom dragPosition a)
              (LogoSelected fileType (Some dataUrl)))
  = liveView (step Math_sqrt a (LogoSelected fileType (Some dataUrl))).
Proof.
  intros Hp Hnew Hdrag.
  destruct a as [st g]. destruct g as [ad ds idf ilp it ip ipd ps zps af].
  cbn [gesture activeDrag combiner] in Hnew, Hdrag.
  cbn [step]. unfold withCombiner, withPreviousLogoView. cbn [combiner gesture].
  set (st' := setLogoSlot (setLogoZoom zoom (setLogoPosition position (logoSlot st))) st).
  assert (Hnew' : logo (logoSlot st') <> Some dataUrl) by exact Hnew.
  rewrite (onLogoSelect_new _ _ Hp Hnew), (onLogoSelect_new _ _ Hp Hnew').
  unfold loadLogoEffect_start, st'.
  destruct ad as [[s|]|]; [| exfalso; apply Hdrag; reflexivity |];
    destruct (dataUrl =? ""); reflexivity.
Qed.

(** C10 (amended). Selecting a new source for a slot resets the slot's
    view parameters before the new load starts: for a left or right slot
    the zoom returns to 100 and the focus to [(0.5, 0.5)], the element is
    dropped, and only then is the fetch of the new source awaited; the
    rest of the load leaves zoom and focus as reset.  For the logo the
    position returns to [(50, 90)] and the relative width to 10.  And
    when no slot is being dragged and no pinch is on at that moment,
    whatever happens afterwards does not depend on the zoom and the focus
    the previous media was viewed with, nor on what its gestures have
    left in the snapshot cells: the state of the combiner after the
    replacement and any run of events is the same for every such view.
    The same holds of the logo when the logo is not being dragged. *)
Theorem new_source_resets_view :
  (forall (side : Side) (fileType dataUrl : string) (t : MediaType)
          (st : CombinerState),
     detectType fileType = Some t ->
     (sMedia (getSlot side st), sMediaType (getSlot side st)) <> (Some dataUrl, Some t) ->
     let started := onFileSelect side fileType (Some dataUrl) st in
     let slot' := getSlot side (fst (fst started)) in
     sZoom slot' = n100 /\ sFocus slot' = {| x := half; y := half |}
     /\ sElement slot' = None
     /\ (dataUrl <> "" -> sLoading slot' = true /\ snd started = Some (dataUrl, t))
     /\ forall fetched objectUrlToClean outcome,
          let st1 := fst (fst (loadMediaEffect_fetched dataUrl t side fetched
                                 (fst (fst started)))) in
          let st2 := fst (loadMediaEffect_settled side objectUrlToClean outcome st1) in
          sZoom (getSlot side st2) = n100
          /\ sFocus (getSlot side st2) = {| x := half; y := half |})
  /\ (forall (fileType dataUrl : string) (st : CombinerState),
        prefix "image/" fileType = true ->
        logo (logoSlot st) <> Some dataUrl ->
        let started := onLogoSelect fileType (Some dataUrl) st in
        let slot' := logoSlot (fst (fst started)) in
        logoPosition slot' = {| x := Fin 50; y := Fin 90 |}
        /\ logoZoom slot' = Fin 10
        /\ logoElement slot' = None
        /\ (dataUrl <> "" -> isLoadingLogo slot' = true /\ snd started = Some dataUrl))
  /\ (forall (Math_sqrt : number -> number) (side : Side) (fileType dataUrl : string)
             (t : MediaType) (a : App) (zoom : number) (focus dragFocus : RelativeFocus)
             (pinchZoom : number) (events : list Event),
        detectType fileType = Some t ->
        (sMedia (getSlot side (combiner a)), sMediaType (getSlot side (combiner a)))
        <> (Some dataUrl, Some t) ->
        (forall s, activeDrag (gesture a) <> Some (Slot s)) ->
        isPinching (gesture a) = false ->
        combiner (run Math_sqrt (withPreviousView side zoom focus dragFocus pinchZoom a)
                    (FileSelected side fileType (Some dataUrl) :: events))
        = combiner (run Math_sqrt a (FileSelected side fileType (Some dataUrl) :: events)))
  /\ (forall (Math_sqrt : number -> number) (fileType dataUrl : string) (a : App)
             (position : RelativeFocus) (zoom : number) (dragPosition : RelativeFocus)
             (events : list Event),
        prefix "image/" fileType = true ->
        logo (logoSlot (combiner a)) <> Some dataUrl ->
        activeDrag (gesture a) <> Some Logo ->
        combiner (run Math_sqrt (withPreviousLogoView position zoom dragPosition a)
                    (LogoSelected fileType (Some dataUrl) :: events))
        = combiner (run Math_sqrt a (LogoSelected fileType (Some dataUrl) :: events))).
Proof.
  split; [|split; [|split]].
  - intros side fileType dataUrl t st Ht Hnew started slot'.
    assert (Es : started = loadMediaEffect_start (Some dataUrl) (Some t) side
                   (setSlot side (setLoadError None
                      (setMedia (Some dataUrl) (Some t) (getSlot side st))) st))
      by (apply onFileSelect_new; assumption).
    destruct (loadMediaEffect_start_resets (Some dataUrl) (Some t) side
                (setSlot side (setLoadError None
                   (setMedia (Some dataUrl) (Some t) (getSlot side st))) st))
      as [Hz [Hf He]].
    rewrite <- Es in Hz, Hf, He. fold slot' in Hz, Hf, He.
    split; [exact Hz | split; [exact Hf | split; [exact He | split]]].
    + intros Hne. unfold slot'. rewrite Es. unfold loadMediaEffect_start.
      destruct (String.eqb_spec dataUrl ""); [contradiction|].
      cbn [fst snd]. rewrite getSlot_setSaveError, getSlot_setSlot. split; reflexivity.
    + intros fetched objectUrlToClean outcome st1 st2.
      destruct (loadMediaEffect_settled_view side objectUrlToClean outcome st1) as [Hz2 Hf2].
      destruct (loadMediaEffect_fetched_view dataUrl t side fetched (fst (fst started)))
        as [Hz1 Hf1].
      fold st1 in Hz1, Hf1. fold st2 in Hz2, Hf2. fold slot' in Hz1, Hf1.
      rewrite Hz2, Hf2, Hz1, Hf1. split; assumption.
  - intros fileType dataUrl st Hp Hnew started slot'.
    assert (Es : started = loadLogoEffect_start (Some dataUrl)
                   (setLogoSlot (setLogoLoadError None
                      (setLogo (Some dataUrl) (logoSlot st))) st))
      by (apply onLogoSelect_new; assumption).
    destruct (loadLogoEffect_start_resets (Some dataUrl)
                (setLogoSlot (setLogoLoadError None
                   (setLogo (Some dataUrl) (logoSlot st))) st)) as [Hp' [Hz He]].
    rewrite <- Es in Hp', Hz, He. fold slot' in Hp', Hz, He.
    split; [exact Hp' | split; [exact Hz | split; [exact He |]]].
    intros Hne. unfold slot'. rewrite Es. unfold loadLogoEffect_start.
    destruct (String.eqb_spec dataUrl ""); [contradiction|]. split; reflexivity.
  - intros Math_sqrt side fileType dataUrl t a zoom focus dragFocus pinchZoom events
           Ht Hnew Hdrag Hpinch.
    change (combiner (run Math_sqrt
                        (step Math_sqrt (withPreviousView side zoom focus dragFocus pinchZoom a)
                           (FileSelected side fileType (Some dataUrl))) events)
            = combiner (run Math_sqrt
                          (step Math_sqrt a (FileSelected side fileType (Some dataUrl)))
                          events)).
    apply run_same_liveView. eapply file_selected_forgets_view; eassumption.
  - intros Math_sqrt fileType dataUrl a position zoom dragPosition events Hp Hnew Hdrag.
    change (combiner (run Math_sqrt
                        (step Math_sqrt (withPreviousLogoView position zoom dragPosition a)
                           (LogoSelected fileType (Some dataUrl))) events)
            = combiner (run Math_sqrt
                          (step Math_sqrt a (LogoSelected fileType (Some dataUrl)))
                          events)).
    apply run_same_liveView. eapply logo_selected_forgets_view; eassumption.
Qed.

Lemma new_source_resets_view_witness :
  let dataUrl := "data:image/jpeg;base64,/9j/4AAQ" in
  let a := {| combiner := scenarioA; gesture := initialGesture |} in
  let viewed :=
    withPreviousView Left (Fin 250) {| x := Fin (1 # 5); y := Fin (4 # 5) |}
      {| x := Fin (1 # 4); y := Fin (3 # 4) |} (Fin 300) a in
  let events :=
    [ MouseDown 0 true (Slot Left) 100 100;
      MouseMove 25 100 (Some {| width := 800; height := 450 |}) ] in
  (sZoom (leftSlot (combiner viewed)) = Fin 250
   /\ sZoom (getSlot Left (fst (fst (onFileSelect Left "image/jpeg" (Some dataUrl)
                                       (combiner viewed))))) = n100
   /\ sFocus (getSlot Left (fst (fst (onFileSelect Left "image/jpeg" (Some dataUrl)
                                        (combiner viewed))))) = {| x := half; y := half |})
  /\ combiner (run sqrtSquares viewed
                 (FileSelected Left "image/jpeg" (Some dataUrl) :: events))
     = combiner (run sqrtSquares a
                   (FileSelected Left "image/jpeg" (Some dataUrl) :: events)).
Proof.
  intros dataUrl a viewed events.
  assert (Ht : detectType "image/jpeg" = Some image) by reflexivity.
  assert (Hnew : (sMedia (getSlot Left (combiner viewed)),
                  sMediaType (getSlot Left (combiner viewed)))
                 <> (Some dataUrl, Some image)) by (vm_compute; discriminate).
  assert (Hnew' : (sMedia (getSlot Left (combiner a)), sMediaType (getSlot Left (combiner a)))
                  <> (Some dataUrl, Some image)) by (vm_compute; discriminate).
  assert (Hdrag : forall s, activeDrag (gesture a) <> Some (Slot s))
    by (intros s; discriminate).
  assert (Hpinch : isPinching (gesture a) = false) by reflexivity.
  assert (Hz : sZoom (leftSlot (combiner viewed)) = Fin 250) by reflexivity.
  pose proof (proj1 new_source_resets_view Left "image/jpeg" dataUrl image
                (combiner viewed) Ht Hnew) as Hreset.
  pose proof (proj1 (proj2 (proj2 new_source_resets_view)) sqrtSquares Left
                "image/jpeg" dataUrl image a (Fin 250)
                {| x := Fin (1 # 5); y := Fin (4 # 5) |}
                {| x := Fin (1 # 4); y := Fin (3 # 4) |} (Fin 300) events
                Ht Hnew' Hdrag Hpinch) as Hsame.
  exact (conj (conj Hz (conj (proj1 Hreset) (proj1 (proj2 Hreset)))) Hsame).
Defined.

(** C10, as stated, fails: adjustments made on the previous media carry
    over to the replacement when a drag or a pinch is in flight while the
    new source is chosen.  An image is panned to the focus (0.625, 0.5)
    and grabbed again; another file is chosen and loaded, which resets
    the focus to the centre; the next pointer move of the drag, back at
    the point where the image was grabbed, puts the focus of the new
    image at (0.625, 0.5).  Likewise an image is pinched to zoom 200 and
    pinched again; the replacement is loaded at zoom 100, and the next
    move of the two fingers, at their starting distance, zooms it to
    200. *)
Lemma stale_gesture_counterexample :
  let container := Some {| width := 800; height := 450 |} in
  let dragged := run sqrtSquares initialApp draggedLeft in
  let replaced := run sqrtSquares dragged replaceLeft in
  let moved := step sqrtSquares replaced (MouseMove 300 200 container) in
  let pinched := run sqrtSquares initialApp pinchedLeft in
  let replaced' := run sqrtSquares pinched replaceLeft in
  let moved' :=
    step sqrtSquares replaced'
      (TouchMove [{| clientX := 100; clientY := 100 |};
                  {| clientX := 200; clientY := 100 |}] container) in
  (sFocus (leftSlot (combiner dragged)) = {| x := Fin (5 # 8); y := half |}
   /\ activeDrag (gesture dragged) = Some (Slot Left)
   /\ sElement (leftSlot (combiner replaced))
      = Some (Image (imageOf 640 480 "blob:new"))
   /\ sFocus (leftSlot (combiner replaced)) = {| x := half; y := half |}
   /\ sFocus (leftSlot (combiner moved)) = {| x := Fin (5 # 8); y := half |})
  /\ (sZoom (leftSlot (combiner pinched)) = Fin 200
      /\ isPinching (gesture pinched) = true
      /\ sElement (leftSlot (combiner replaced'))
         = Some (Image (imageOf 640 480 "blob:new"))
      /\ sZoom (leftSlot (combiner replaced')) = n100
      /\ sZoom (leftSlot (combiner moved')) = Fin 200).
Proof.
  repeat split; vm_compute; reflexivity.
Qed.

(** C6. Every media-load attempt arms a 20-second timer when it starts.
    When the timer fires, the load in flight is halted (the [src] of the
    element being loaded is cleared, and a video is told to [load()]
    again), the attempt is rejected with the timeout error, and, the
    component being mounted, the slot's loading flag becomes false while
    its element stays null. *)
Theorem load_timeout (dataUrl : string) (t : MediaType) (side : Target) :
  dataUrl <> "" ->
  exists p effects,
    loadMediaElement dataUrl (Some t) side = pending p effects
    /\ pTimeout p = 20000%Z
    /\ effects = setTimeout 20000
                 :: match t with
                    | image => [setElementSrc dataUrl]
                    | video => [setElementSrc dataUrl; videoLoad]
                    end
    /\ exists halt,
         settle p timeoutFired = Some (halt, rejected (loadTimeout side))
         /\ In (setElementSrc "") halt
         /\ (t = video -> In videoLoad halt)
         /\ failureMessage (loadTimeout side)
            = ("Timeout loading media (" ++ sideName side ++ ")")%string
         /\ (forall (s : Side) (objectUrlToClean : option string) (st : CombinerState),
               isMounted st = true ->
               let slot' := getSlot s (fst (loadMediaEffect_settled s objectUrlToClean
                                              (rejected (loadTimeout side)) st)) in
               sLoading slot' = false /\ sElement slot' = None
               /\ sLoadError slot' = Some "Error loading media.")
         /\ (forall (objectUrlToClean : option string) (st : CombinerState),
               isMounted st = true ->
               let slot' := logoSlot (fst (loadLogoEffect_settled objectUrlToClean
                                             (rejected (loadTimeout side)) st)) in
               isLoadingLogo slot' = false /\ logoElement slot' = None
               /\ logoLoadError slot' = Some "Error loading logo.").
Proof.
  intros Hne. unfold loadMediaElement.
  destruct (String.eqb_spec dataUrl "") as [E|_]; [contradiction|].
  eexists _, _. split; [reflexivity|]. split; [reflexivity|]. split; [reflexivity|].
  unfold settle, onTimeout. cbn [pSrc pType pSide].
  eexists. split; [reflexivity|]. split; [|split; [|split; [|split]]].
  - destruct (negb (dataUrl =? "") && prefix "blob:" dataUrl); left; reflexivity.
  - intros ->. apply in_or_app. right. left. reflexivity.
  - reflexivity.
  - intros s objectUrlToClean st Hm. unfold loadMediaEffect_settled. rewrite Hm.
    cbn [fst]. rewrite getSlot_setSlot. repeat split.
  - intros objectUrlToClean st Hm. unfold loadLogoEffect_settled. rewrite Hm.
    repeat split.
Qed.

Lemma load_timeout_witness :
  "blob:4f2a" <> ""
  /\ isMounted scenarioB = true
  /\ settle {| pSide := Slot Right; pType := image; pSrc := "blob:4f2a";
               pTimeout := 20000 |} timeoutFired
     = Some ([setElementSrc ""; revokeObjectURL ""; clearTimeout],
             rejected (loadTimeout (Slot Right)))
  /\ sLoading (rightSlot (fst (loadMediaEffect_settled Right (Some "blob:4f2a")
                                 (rejected (loadTimeout (Slot Right))) scenarioB)))
     = false
  /\ sElement (rightSlot (fst (loadMediaEffect_settled Right (Some "blob:4f2a")
                                 (rejected (loadTimeout (Slot Right))) scenarioB)))
     = None.
Proof.
  assert (Hne : "blob:4f2a" <> "") by discriminate.
  assert (Hm : isMounted scenarioB = true) by reflexivity.
  split; [exact Hne | split; [exact Hm | split; [reflexivity |]]].
  destruct (load_timeout image (Slot Right) Hne)
    as [p [effects [_ [_ [_ [halt [_ [_ [_ [_ [Hslot _]]]]]]]]]]].
  destruct (Hslot Right (Some "blob:4f2a") scenarioB Hm) as [Hl [He _]].
  split; [exact Hl | exact He].
Defined.

(** ** Pinch sessions *)

Lemma sameValue_refl (a : number) : sameValue a a.
Proof. destruct a; simpl; try exact I. reflexivity. Qed.

Lemma strictEq_sameValue (a b : number) : strictEq a b = true -> sameValue a b.
Proof.
  destruct a, b; simpl; try discriminate; try (intros _; exact I).
  apply Qeq_bool_iff.
Qed.

Section Pinch.

Variable Math_sqrt : number -> number.

Lemma getSlot_onZoomChange (side : Side) (z : number) (a : App) :
  sZoom (getSlot side (combiner (onZoomChange side z a))) = z.
Proof. destruct side; reflexivity. Qed.

Lemma pinch_move_step (side : Side) (d0 z0 : number) (u0 u1 : Touch)
    (container : option DOMRect) (a : App) :
  pinchSession side d0 z0 (gesture a) ->
  le d0 n0 = false ->
  let a' := handleTouchMove Math_sqrt [u0; u1] container a in
  pinchSession side d0 z0 (gesture a')
  /\ activeDrag (gesture a') = activeDrag (gesture a)
  /\ sameValue (sZoom (getSlot side (combiner a')))
       (clamp (z0 * (calculateDistance Math_sqrt u0 u1 / d0))%js MIN_ZOOM MAX_ZOOM).
Proof.
  intros [Hp [Hs [Hd Hz]]] Hpos a'. unfold a', handleTouchMove.
  rewrite Hp, Hs, Hd, Hz, Hpos.
  destruct (strictNe _ _) eqn:E.
  - unfold requestDraw.
    destruct (animationFrameId (gesture (onZoomChange side _ a)));
      (split; [repeat split; assumption | split; [reflexivity |]]);
      cbn [combiner withGesture]; rewrite getSlot_onZoomChange; apply sameValue_refl.
  - split; [repeat split; assumption | split; [reflexivity |]].
    apply strictEq_sameValue. unfold strictNe in E. apply negb_false_iff in E. exact E.
Qed.

Lemma pinch_moves_session (side : Side) (d0 z0 : number)
    (moves : list (Touch * Touch * option DOMRect)) (a : App) :
  pinchSession side d0 z0 (gesture a) ->
  le d0 n0 = false ->
  pinchSession side d0 z0 (gesture (pinchMoves Math_sqrt moves a))
  /\ activeDrag (gesture (pinchMoves Math_sqrt moves a)) = activeDrag (gesture a).
Proof.
  intros Hs Hpos. revert a Hs. induction moves as [|[[u0 u1] c] moves IH]; intros a Hs.
  - split; [exact Hs | reflexivity].
  - change (pinchMoves Math_sqrt ((u0, u1, c) :: moves) a)
      with (pinchMoves Math_sqrt moves (handleTouchMove Math_sqrt [u0; u1] c a)).
    destruct (pinch_move_step u0 u1 c a Hs Hpos) as [Hs' [Hd' _]].
    destruct (IH _ Hs') as [Hs'' Hd'']. split; [exact Hs'' |].
    rewrite Hd''. exact Hd'.
Qed.

(** C5 (amended). When a second simultaneous touch lands on a left or
    right slot that holds a loaded element, any drag in flight is
    canceled and a pinch session begins on that slot, with the current
    two-finger distance as its baseline and the slot's current zoom as
    its pinch-start zoom; and, the baseline distance being positive,
    after every subsequent pinch move the slot's zoom is the pinch-start
    zoom multiplied by the ratio of the current two-finger distance to
    the baseline, clamped to [[10, 500]]. *)
Theorem pinch_preempts_drag (side : Side) (touch0 touch1 : Touch) (a : App) :
  mediaExists (Slot side) (combiner a) = true ->
  let a1 := handleTouchStart Math_sqrt true (Slot side) [touch0; touch1] a in
  let d0 := calculateDistance Math_sqrt touch0 touch1 in
  let z0 := sZoom (getSlot side (combiner a)) in
  activeDrag (gesture a1) = None
  /\ pinchSession side d0 z0 (gesture a1)
  /\ combiner a1 = combiner a
  /\ ((d0 <=? n0)%js = false ->
      forall (moves : list (Touch * Touch * option DOMRect)) (u0 u1 : Touch)
             (container : option DOMRect),
        let a2 := pinchMoves Math_sqrt (moves ++ [(u0, u1, container)]) a1 in
        activeDrag (gesture a2) = None
        /\ sameValue (sZoom (getSlot side (combiner a2)))
             (clamp (z0 * (calculateDistance Math_sqrt u0 u1 / d0))%js
                    MIN_ZOOM MAX_ZOOM)).
Proof.
  intros Hmedia a1 d0 z0.
  assert (E1 : a1 = withGesture
                 (fun g => setZoomAtPinchStart z0
                      (setInitialPinchDistance d0
                         (setPinchSide (Some side)
                            (setIsTouching false (setIsPinching true g)))))
                 (if isSome (activeDrag (gesture a)) then handleDragEnd a else a)).
  { unfold a1, handleTouchStart. rewrite Hmedia. reflexivity. }
  assert (Hnone : activeDrag (gesture a1) = None).
  { rewrite E1. unfold handleDragEnd.
    destruct (activeDrag (gesture a)) eqn:Ed; cbn [isSome];
      [destruct (animationFrameId _); reflexivity |].
    cbn [withGesture gesture activeDrag setZoomAtPinchStart setInitialPinchDistance
           setPinchSide setIsTouching setIsPinching]. exact Ed. }
  assert (Hsess : pinchSession side d0 z0 (gesture a1)).
  { rewrite E1. repeat split. }
  assert (Hcomb : combiner a1 = combiner a).
  { rewrite E1. unfold handleDragEnd.
    destruct (isSome (activeDrag (gesture a))); [|reflexivity].
    destruct (animationFrameId _); reflexivity. }
  split; [exact Hnone | split; [exact Hsess | split; [exact Hcomb |]]].
  intros Hpos moves u0 u1 container a2.
  unfold a2, pinchMoves. rewrite fold_left_app. cbn [fold_left].
  fold (pinchMoves Math_sqrt moves a1).
  destruct (pinch_moves_session moves a1 Hsess Hpos) as [Hs' Hd'].
  unfold pinchMove. cbn [fst snd].
  destruct (pinch_move_step u0 u1 container _ Hs' Hpos) as [_ [Hd'' Hz]].
  split; [rewrite Hd'', Hd'; exact Hnone | exact Hz].
Qed.

End Pinch.

Lemma pinch_preempts_drag_witness :
  let start0 := {| clientX := 0; clientY := 0 |} in
  let start1 := {| clientX := 3; clientY := 4 |} in
  let a1 := handleTouchStart sqrtSquares true (Slot Left) [start0; start1] draggingLeft in
  let a2 := pinchMoves sqrtSquares
              ([(start0, {| clientX := 30; clientY := 40 |}, None)]
               ++ [(start0, {| clientX := 6; clientY := 8 |}, None)]) a1 in
  activeDrag (gesture draggingLeft) = Some (Slot Left)
  /\ mediaExists (Slot Left) (combiner draggingLeft) = true
  /\ (calculateDistance sqrtSquares start0 start1 <=? n0)%js = false
  /\ activeDrag (gesture a1) = None
  /\ isPinching (gesture a1) = true
  /\ initialPinchDistance (gesture a1) = Fin 5
  /\ sameValue (sZoom (getSlot Left (combiner a2))) (Fin 200).
Proof.
  intros start0 start1 a1 a2.
  assert (Hdrag : activeDrag (gesture draggingLeft) = Some (Slot Left))
    by (vm_compute; reflexivity).
  assert (Hmedia : mediaExists (Slot Left) (combiner draggingLeft) = true)
    by (vm_compute; reflexivity).
  assert (Hpos : (calculateDistance sqrtSquares start0 start1 <=? n0)%js = false)
    by (vm_compute; reflexivity).
  assert (Hdist : initialPinchDistance (gesture a1) = Fin 5)
    by (vm_compute; reflexivity).
  assert (E : clamp (sZoom (getSlot Left (combiner draggingLeft))
                     * (calculateDistance sqrtSquares start0
                          {| clientX := 6; clientY := 8 |}
                        / calculateDistance sqrtSquares start0 start1))%js
                    MIN_ZOOM MAX_ZOOM
              = Fin 200) by (vm_compute; reflexivity).
  destruct (pinch_preempts_drag sqrtSquares Left start0 start1 draggingLeft Hmedia)
    as [Hnone [[Hp _] [_ Hmoves]]].
  destruct (Hmoves Hpos [(start0, {| clientX := 30; clientY := 40 |}, None)]
              start0 {| clientX := 6; clientY := 8 |} None) as [_ Hz].
  rewrite E in Hz.
  exact (conj Hdrag (conj Hmedia (conj Hpos (conj Hnone (conj Hp (conj Hdist Hz)))))).
Defined.

(** C5, as stated, fails: a drag is in flight on the left slot and the
    second touch lands on the right slot, which is empty; the drag is
    not canceled and no pinch session begins. *)
Lemma pinch_on_empty_slot_counterexample :
  let a1 := handleTouchStart sqrtSquares true (Slot Right)
              [{| clientX := 100; clientY := 100 |};
               {| clientX := 600; clientY := 120 |}]
              draggingLeft in
  activeDrag (gesture draggingLeft) = Some (Slot Left)
  /\ isTouching (gesture draggingLeft) = true
  /\ a1 = draggingLeft
  /\ activeDrag (gesture a1) = Some (Slot Left)
  /\ isPinching (gesture a1) = false.
Proof. vm_compute. repeat split. Qed.

(** ** Stored focus and position values *)

Lemma finite_add (a b : number) : finite a -> finite b -> finite (add a b).
Proof. destruct a, b; simpl; tauto. Qed.

Lemma finite_neg (a : number) : finite a -> finite (neg a).
Proof. destruct a; simpl; tauto. Qed.

Lemma finite_sub (a b : number) : finite a -> finite b -> finite (sub a b).
Proof. intros Ha Hb. apply finite_add; [exact Ha | apply finite_neg, Hb]. Qed.

Lemma finite_mul (a b : number) : finite a -> finite b -> finite (mul a b).
Proof. destruct a, b; simpl; tauto. Qed.

Lemma finite_div (a : number) (q : Q) : finite a -> ~ (q == 0)%Q -> finite (div a (Fin q)).
Proof.
  destruct a as [p| | |]; simpl; try tauto. intros _ Hq.
  destruct (Qsgn_cases q) as [[E _]|[[_ E]|[_ E]]]; [contradiction | |]; rewrite E; exact I.
Qed.

Lemma inRange_finite (lo hi : Q) (n : number) : inRange lo hi n -> finite n.
Proof. destruct n; simpl; tauto. Qed.

Lemma clamp_inRange (v : number) (lo hi : Q) :
  finite v -> (lo <= hi)%Q -> inRange lo hi (clamp v (Fin lo) (Fin hi)).
Proof.
  destruct v as [q| | |]; simpl; try tauto. intros _ Hle.
  unfold clamp, Math_max, Math_min, lt. qcases; qbool; simpl; lra.
Qed.

Lemma orElse_ofZ_1 (z : Z) : exists s, orElse (ofZ z) n1 = Fin s /\ ~ (s == 0)%Q.
Proof.
  unfold orElse. rewrite truthy_ofZ. destruct (Z.eqb_spec z 0) as [->|Hz]; cbn [negb].
  - exists 1%Q. split; [reflexivity | discriminate].
  - exists (inject_Z z). split; [reflexivity|].
    intros E. apply Hz. change 0%Q with (inject_Z 0) in E.
    apply (proj1 (inject_Z_injective z 0)) in E. exact E.
Qed.

Lemma panMedia_inDomain (el : MediaElement) (zoom : number)
    (init cur : RelativeFocus) (dX dY phw ch : number) (f : RelativeFocus) :
  finite (x init) -> finite (y init) -> finite dX -> finite dY ->
  panMedia el zoom init cur dX dY phw ch = Some f ->
  focusInDomain f.
Proof.
  intros Hix Hiy HdX HdY. unfold panMedia.
  set (sw := orElse _ n1). set (sh := orElse _ n1).
  destruct (orElse_ofZ_1 (elementWidth el)) as [s [Es Hs]].
  destruct (orElse_ofZ_1 (elementHeight el)) as [t [Et Ht]].
  assert (Esw : sw = Fin s) by (unfold sw; destruct el; exact Es).
  assert (Esh : sh = Fin t) by (unfold sh; destruct el; exact Et).
  clearbody sw sh. subst sw sh.
  set (fs := mul _ (div zoom n100)).
  destruct (le fs n0 || negb (Number_isFinite fs)) eqn:Ea; [discriminate|].
  assert (Hfs : exists fq, fs = Fin fq /\ (0 < fq)%Q)
    by (apply specAborted_false; unfold specAborted; rewrite orb_comm; exact Ea).
  destruct Hfs as [fq [Efs Hfq]]. clearbody fs. subst fs.
  cbn [mul]. unfold fin.
  assert (Hnz : forall u, ~ (u == 0)%Q -> ~ (Qred (u * fq) == 0)%Q).
  { intros u Hu E. rewrite Qred_correct in E. apply Hu.
    destruct (Qmult_integral _ _ E) as [E'|E']; [exact E' | lra]. }
  destruct (strictNe _ _ || strictNe _ _); [|discriminate].
  intros E. injection E as <-. split; cbn [x y].
  - apply clamp_inRange; [|lra].
    apply finite_sub; [exact Hix|]. apply finite_div; [exact HdX | apply Hnz, Hs].
  - apply clamp_inRange; [|lra].
    apply finite_sub; [exact Hiy|]. apply finite_div; [exact HdY | apply Hnz, Ht].
Qed.

Lemma centre_inDomain : focusInDomain {| x := half; y := half |}.
Proof. unfold focusInDomain, inRange, half; cbn; lra. Qed.

Lemma logoHome_inDomain : positionInDomain {| x := Fin 50; y := Fin 90 |}.
Proof. unfold positionInDomain, inRange; cbn; lra. Qed.

Ltac view_same :=
  unfold viewInDomain in *; cbn in *; tauto.

Ltac split_ifs :=
  repeat match goal with
  | |- context [if ?c then _ else _] => destruct c eqn:?
  | |- context [match ?c with Some _ => _ | None => _ end] => destruct c eqn:?
  end.

Lemma requestDraw_view (a : App) : viewInDomain a -> viewInDomain (requestDraw a).
Proof. intros H. unfold requestDraw. split_ifs; view_same. Qed.

Lemma handleDragEnd_view (a : App) : viewInDomain a -> viewInDomain (handleDragEnd a).
Proof. intros H. unfold handleDragEnd. split_ifs; view_same. Qed.

Lemma handleInteractionStart_view (cX cY : Q) (type : Target) (isTouch : bool) (a : App) :
  viewInDomain a -> viewInDomain (fst (handleInteractionStart cX cY type isTouch a)).
Proof.
  intros H. unfold handleInteractionStart.
  destruct (negb (mediaExists type (combiner a))); [view_same|].
  destruct (isTouch && isPinching (gesture a)); [view_same|].
  destruct type as [[|]|]; view_same.
Qed.

Lemma handleDragMove_view (cX cY : Q) (container : option DOMRect) (a : App) :
  viewInDomain a -> viewInDomain (handleDragMove cX cY container a).
Proof.
  intros H. unfold handleDragMove.
  destruct (activeDrag (gesture a)) as [drag|]; [|exact H].
  destruct (isPinching (gesture a)); [exact H|].
  destruct container as [rect|]; [|exact H].
  destruct (_ || _) eqn:Ec; [exact H|].
  assert (Hdx : finite (Fin cX - x (dragStart (gesture a)))%js).
  { apply finite_sub; [exact I | apply H]. }
  assert (Hdy : finite (Fin cY - y (dragStart (gesture a)))%js).
  { apply finite_sub; [exact I | apply H]. }
  apply orb_false_iff in Ec. destruct Ec as [Ew Eh]. unfold le, n0 in Ew, Eh. qbool.
  destruct drag as [side|].
  - destruct (sElement (getSlot side (combiner a))) as [el|]; [|exact H].
    destruct (panMedia _ _ _ _ _ _ _ _) as [focus|] eqn:Ep; [|exact H].
    apply requestDraw_view.
    assert (Hf : focusInDomain focus).
    { apply (panMedia_inDomain _ _ _ _ _ _ _ _ (f := focus)) in Ep; try assumption.
      - apply (@inRange_finite 0 1), H.
      - apply (@inRange_finite 0 1), H. }
    destruct side; unfold viewInDomain in *; cbn in *; tauto.
  - destruct (logoElement (logoSlot (combiner a))); [|exact H].
    destruct (_ || _); [|exact H].
    assert (Hp : positionInDomain
                   {| x := clamp (x (initialLogoPos (gesture a))
                                  + (Fin cX - x (dragStart (gesture a)))
                                    / Fin (width rect) * n100)%js n0 n100;
                      y := clamp (y (initialLogoPos (gesture a))
                                  + (Fin cY - y (dragStart (gesture a)))
                                    / Fin (height rect) * n100)%js n0 n100 |}).
    { split; cbn [x y]; (apply clamp_inRange; [|lra]);
        (apply finite_add; [apply (@inRange_finite 0 100), H |]);
        (apply finite_mul; [|exact I]); apply finite_div; try assumption; lra. }
    unfold viewInDomain in *; cbn in *; tauto.
Qed.

Lemma onZoomChange_view (side : Side) (z : number) (a : App) :
  viewInDomain a -> viewInDomain (onZoomChange side z a).
Proof. intros H. destruct side; view_same. Qed.

Lemma handleWheelZoom_view (deltaY : Q) (side : Side) (a : App) :
  viewInDomain a -> viewInDomain (handleWheelZoom deltaY side a).
Proof.
  intros H. unfold handleWheelZoom.
  destruct (sElement _); [|exact H]. destruct (strictNe _ _); [|exact H].
  apply requestDraw_view, onZoomChange_view, H.
Qed.

Lemma handleMouseDown_view (button : Z) (onArea : bool) (type : Target)
    (cX cY : Q) (a : App) :
  viewInDomain a -> viewInDomain (handleMouseDown button onArea type cX cY a).
Proof.
  intros H. unfold handleMouseDown.
  destruct (negb _); [exact H|]. destruct onArea; [|exact H].
  apply handleInteractionStart_view, H.
Qed.

Lemma handleMouseMove_view (cX cY : Q) (container : option DOMRect) (a : App) :
  viewInDomain a -> viewInDomain (handleMouseMove cX cY container a).
Proof.
  intros H. unfold handleMouseMove. destruct (_ && _); [|exact H].
  apply handleDragMove_view, H.
Qed.

Lemma handleMouseUp_view (button : Z) (a : App) :
  viewInDomain a -> viewInDomain (handleMouseUp button a).
Proof.
  intros H. unfold handleMouseUp.
  assert (H1 : viewInDomain
                 (if (button =? 0)%Z && isSome (activeDrag (gesture a))
                     && negb (isTouching (gesture a)) && negb (isPinching (gesture a))
                  then handleDragEnd a else a)).
  { destruct (_ && _); [apply handleDragEnd_view, H | exact H]. }
  destruct (isTouching (gesture a)); [|exact H1].
  revert H1. generalize (if (button =? 0)%Z && isSome (activeDrag (gesture a))
                     && negb (isTouching (gesture a)) && negb (isPinching (gesture a))
                  then handleDragEnd a else a).
  intros b Hb. view_same.
Qed.

Section TouchViews.

Variable Math_sqrt : number -> number.

Lemma handleTouchStart_view (onArea : bool) (type : Target) (touches : list Touch)
    (a : App) :
  viewInDomain a -> viewInDomain (handleTouchStart Math_sqrt onArea type touches a).
Proof.
  intros H. unfold handleTouchStart.
  destruct (negb onArea); [exact H|].
  destruct (negb (mediaExists type (combiner a))); [exact H|].
  destruct touches as [|t0 [|t1 [|t2 rest]]], type as [side|]; try exact H.
  - destruct (negb _); [apply handleInteractionStart_view, H | exact H].
  - destruct (negb _); [apply handleInteractionStart_view, H | exact H].
  - assert (H1 : viewInDomain (if isSome (activeDrag (gesture a))
                               then handleDragEnd a else a)).
    { destruct (isSome _); [apply handleDragEnd_view, H | exact H]. }
    revert H1. generalize (if isSome (activeDrag (gesture a))
                               then handleDragEnd a else a).
    intros b Hb. view_same.
Qed.

Lemma handleTouchMove_view (touches : list Touch) (container : option DOMRect)
    (a : App) :
  viewInDomain a -> viewInDomain (handleTouchMove Math_sqrt touches container a).
Proof.
  intros H. unfold handleTouchMove.
  assert (Hdrag : forall ts,
     viewInDomain
       match ts with
       | [touch] =>
           if isSome (activeDrag (gesture a)) && isTouching (gesture a)
              && negb (isPinching (gesture a))
           then handleDragMove (clientX touch) (clientY touch) container a
           else a
       | _ => a
       end).
  { intros [|t [|t' ts]]; try exact H.
    destruct (_ && _); [apply handleDragMove_view, H | exact H]. }
  destruct (isPinching (gesture a)); [|apply Hdrag].
  destruct touches as [|t0 [|t1 [|t2 rest]]];
    try apply (Hdrag []); try apply (Hdrag [t0]); try apply (Hdrag (t0 :: t1 :: t2 :: rest)).
  destruct (pinchSide (gesture a)) as [side|]; [|exact H].
  destruct (le _ _); [exact H|].
  destruct (strictNe _ _); [|exact H].
  apply requestDraw_view, onZoomChange_view, H.
Qed.

Lemma handleTouchEnd_view (touches : list Touch) (a : App) :
  viewInDomain a -> viewInDomain (handleTouchEnd touches a).
Proof.
  intros H. unfold handleTouchEnd.
  destruct touches as [|t0 [|t1 rest]]; try exact H.
  - assert (H1 : viewInDomain (if isSome (activeDrag (gesture a)) && isTouching (gesture a)
                               then handleDragEnd a else a)).
    { destruct (_ && _); [apply handleDragEnd_view, H | exact H]. }
    revert H1. generalize (if isSome (activeDrag (gesture a)) && isTouching (gesture a)
                               then handleDragEnd a else a).
    intros b Hb. view_same.
  - destruct (isPinching (gesture a)); [view_same | exact H].
Qed.

End TouchViews.

Lemma number_of_finite (v : InputValue) : finite (Number_of v).
Proof. destruct v; exact I. Qed.

Lemma withCombiner_view (f : CombinerState -> CombinerState) (a : App) :
  viewKept (combiner a) (f (combiner a)) ->
  viewInDomain a -> viewInDomain (withCombiner f a).
Proof.
  intros [Hl [Hr Hp]] H. unfold viewInDomain in *. cbn [withCombiner combiner gesture].
  destruct H as [H1 [H2 [H3 H4]]]. repeat split; try apply H4.
  - destruct Hl as [->| ->]; [apply H1 | apply centre_inDomain].
  - destruct Hl as [->| ->]; [apply H1 | apply centre_inDomain].
  - destruct Hr as [->| ->]; [apply H2 | apply centre_inDomain].
  - destruct Hr as [->| ->]; [apply H2 | apply centre_inDomain].
  - destruct Hp as [->| ->]; [apply H3 | apply logoHome_inDomain].
  - destruct Hp as [->| ->]; [apply H3 | apply logoHome_inDomain].
Qed.

Ltac kept := unfold viewKept; cbn; tauto.

Lemma loadMediaEffect_start_kept (mediaUrl : option string)
    (mediaType : option MediaType) (side : Side) (st : CombinerState) :
  viewKept st (fst (fst (loadMediaEffect_start mediaUrl mediaType side st))).
Proof.
  unfold loadMediaEffect_start.
  destruct mediaUrl as [url|], mediaType as [t|]; try destruct (url =? "");
    destruct side; kept.
Qed.

Lemma onFileSelect_kept (side : Side) (fileType : string) (result : option string)
    (st : CombinerState) :
  viewKept st (fst (fst (onFileSelect side fileType result st))).
Proof.
  unfold onFileSelect. destruct result as [dataUrl|]; [|destruct side; kept].
  destruct (detectType fileType) as [t|]; [|destruct side; kept].
  destruct (_ && _); [destruct side; kept|].
  match goal with
  | |- viewKept _ (fst (fst (loadMediaEffect_start ?u ?ty ?s ?st1))) =>
      pose proof (loadMediaEffect_start_kept u ty s st1) as Hk;
      revert Hk; generalize (fst (fst (loadMediaEffect_start u ty s st1)))
  end.
  intros st2. destruct side; unfold viewKept; cbn; tauto.
Qed.

Lemma loadMediaEffect_fetched_kept (mediaUrl : string) (mediaType : MediaType)
    (side : Side) (fetched : option string) (st : CombinerState) :
  viewKept st (fst (fst (loadMediaEffect_fetched mediaUrl mediaType side fetched st))).
Proof. unfold loadMediaEffect_fetched. destruct fetched, side; kept. Qed.

Lemma loadMediaEffect_settled_kept (side : Side) (objectUrlToClean : option string)
    (outcome : Settled) (st : CombinerState) :
  viewKept st (fst (loadMediaEffect_settled side objectUrlToClean outcome st)).
Proof.
  unfold loadMediaEffect_settled. destruct outcome, (isMounted st), side; kept.
Qed.

Lemma loadLogoEffect_start_kept (logoUrl : option string) (st : CombinerState) :
  viewKept st (fst (fst (loadLogoEffect_start logoUrl st))).
Proof.
  unfold loadLogoEffect_start. destruct logoUrl as [url|]; try destruct (url =? ""); kept.
Qed.

Lemma onLogoSelect_kept (fileType : string) (result : option string)
    (st : CombinerState) :
  viewKept st (fst (fst (onLogoSelect fileType result st))).
Proof.
  unfold onLogoSelect. destruct (negb _); [kept|].
  destruct result as [dataUrl|]; [|kept].
  destruct (optStringEq _ _); [kept|].
  match goal with
  | |- viewKept _ (fst (fst (loadLogoEffect_start ?u ?st1))) =>
      pose proof (loadLogoEffect_start_kept u st1) as Hk;
      revert Hk; generalize (fst (fst (loadLogoEffect_start u st1)))
  end.
  intros st2. unfold viewKept; cbn; tauto.
Qed.

Lemma loadLogoEffect_fetched_kept (logoUrl : string) (fetched : option string)
    (st : CombinerState) :
  viewKept st (fst (fst (loadLogoEffect_fetched logoUrl fetched st))).
Proof.
  unfold loadLogoEffect_fetched. destruct (prefix _ _); [kept|]. destruct fetched; kept.
Qed.

Lemma loadLogoEffect_settled_kept (objectUrlToClean : option string)
    (outcome : Settled) (st : CombinerState) :
  viewKept st (fst (loadLogoEffect_settled objectUrlToClean outcome st)).
Proof. unfold loadLogoEffect_settled. destruct outcome, (isMounted st); kept. Qed.

Lemma saveCompositeImage_kept (container : option Container) (getContext : bool)
    (st : CombinerState) :
  viewKept st (fst (saveCompositeImage container getContext st)).
Proof.
  unfold saveCompositeImage. destruct (negb _); [kept|].
  destruct (leftMediaElement st) as [[l|v]|]; try kept.
  destruct (rightMediaElement st) as [[r|v]|]; try kept.
  destruct (_ || _); [cbn [isMounted setSaveError setIsSaving]; destruct (isMounted st); kept|].
  destruct (negb getContext); [|kept].
  cbn [isMounted setSaveError setIsSaving]; destruct (isMounted st); kept.
Qed.

Lemma saveCompositeImage_onBlob_kept (blob : option string) (st : CombinerState) :
  viewKept st (fst (saveCompositeImage_onBlob blob st)).
Proof.
  unfold saveCompositeImage_onBlob. destruct blob; [destruct (isMounted st); kept|].
  destruct (negb _); kept.
Qed.

Lemma onLogoXChange_view (v : InputValue) (a : App) :
  viewInDomain a -> viewInDomain (withCombiner (onLogoXChange v) a).
Proof.
  intros H.
  assert (Hx : inRange 0 100 (clamp (Number_of v) n0 n100))
    by (apply clamp_inRange; [apply number_of_finite | lra]).
  unfold viewInDomain, positionInDomain in *. cbn in *. tauto.
Qed.

Lemma onLogoYChange_view (v : InputValue) (a : App) :
  viewInDomain a -> viewInDomain (withCombiner (onLogoYChange v) a).
Proof.
  intros H.
  assert (Hx : inRange 0 100 (clamp (Number_of v) n0 n100))
    by (apply clamp_inRange; [apply number_of_finite | lra]).
  unfold viewInDomain, positionInDomain in *. cbn in *. tauto.
Qed.

Lemma initial_view : viewInDomain initialApp.
Proof.
  unfold viewInDomain, focusInDomain, positionInDomain, inRange. cbn.
  repeat split; lra.
Qed.

Lemma step_view (Math_sqrt : number -> number) (a : App) (ev : Event) :
  viewInDomain a -> viewInDomain (step Math_sqrt a ev).
Proof.
  intros H. destruct ev; cbn [step].
  - apply withCombiner_view; [apply onFileSelect_kept | exact H].
  - apply withCombiner_view; [apply loadMediaEffect_fetched_kept | exact H].
  - apply withCombiner_view; [apply loadMediaEffect_settled_kept | exact H].
  - apply withCombiner_view; [apply onLogoSelect_kept | exact H].
  - apply withCombiner_view; [apply loadLogoEffect_fetched_kept | exact H].
  - apply withCombiner_view; [apply loadLogoEffect_settled_kept | exact H].
  - apply withCombiner_view; [apply saveCompositeImage_kept | exact H].
  - apply withCombiner_view; [apply saveCompositeImage_onBlob_kept | exact H].
  - apply withCombiner_view; [kept | exact H].
  - apply handleMouseDown_view, H.
  - apply handleMouseMove_view, H.
  - apply handleMouseUp_view, H.
  - apply handleTouchStart_view, H.
  - apply handleTouchMove_view, H.
  - apply handleTouchEnd_view, H.
  - apply handleWheelZoom_view, H.
  - unfold drawPreviewCanvases. destruct container as [rect|]; [|view_same].
    destruct (_ || _); view_same.
  - apply withCombiner_view; [destruct side; kept | exact H].
  - apply withCombiner_view; [kept | exact H].
  - apply onLogoXChange_view, H.
  - apply onLogoYChange_view, H.
Qed.

Lemma reachable_view (Math_sqrt : number -> number) (a : App) :
  reachable Math_sqrt a -> viewInDomain a.
Proof.
  induction 1 as [|a ev _ IH]; [apply initial_view | apply step_view, IH].
Qed.

Lemma reachable_run (Math_sqrt : number -> number) (events : list Event) (a : App) :
  reachable Math_sqrt a -> reachable Math_sqrt (run Math_sqrt a events).
Proof.
  revert a. induction events as [|ev events IH]; intros a Ha; [exact Ha|].
  apply IH. apply reachable_step, Ha.
Qed.

(** C7. In every state the combiner can reach, every stored focus and
    position value lies in its domain: the left and right focus in
    [[0,1] x [0,1]] and the logo position in [[0,100] x [0,100]].  In
    particular a focus written by a drag move (mouse or one finger)
    satisfies [0 <= x <= 1] and [0 <= y <= 1]; a logo position written
    through a numeric input has the entered coordinate clamped to
    [[0,100]] and stays in the domain; and entering [x = 150] then
    [y = -10] stores [(100, 0)]. *)
Theorem stored_view_parameters_clamped (Math_sqrt : number -> number) (a : App) :
  reachable Math_sqrt a ->
  viewInDomain a
  /\ (forall (cX cY : Q) (container : option DOMRect) (side : Side),
        focusInDomain
          (sFocus (getSlot side (combiner (step Math_sqrt a (MouseMove cX cY container)))))
        /\ focusInDomain
             (sFocus (getSlot side
                (combiner (step Math_sqrt a
                             (TouchMove [{| clientX := cX; clientY := cY |}] container))))))
  /\ (forall v : InputValue,
        let px := logoPosition (logoSlot (combiner (step Math_sqrt a (LogoXInput v)))) in
        let py := logoPosition (logoSlot (combiner (step Math_sqrt a (LogoYInput v)))) in
        x px = clamp (Number_of v) n0 n100 /\ positionInDomain px
        /\ y py = clamp (Number_of v) n0 n100 /\ positionInDomain py)
  /\ logoPosition
       (logoSlot (combiner (run Math_sqrt a [LogoXInput (numericValue 150);
                                             LogoYInput (numericValue (-10))])))
     = {| x := Fin 100; y := Fin 0 |}.
Proof.
  intros Hr. pose proof (reachable_view Hr) as Hv.
  split; [exact Hv | split; [| split]].
  - intros cX cY container side.
    pose proof (step_view Math_sqrt (MouseMove cX cY container) Hv) as H1.
    pose proof (step_view Math_sqrt
                  (TouchMove [{| clientX := cX; clientY := cY |}] container) Hv) as H2.
    destruct side; split; first [apply H1 | apply H2].
  - intros v px py.
    pose proof (step_view Math_sqrt (LogoXInput v) Hv) as H1.
    pose proof (step_view Math_sqrt (LogoYInput v) Hv) as H2.
    split; [reflexivity | split; [apply H1 | split; [reflexivity | apply H2]]].
  - reflexivity.
Qed.

Lemma stored_view_parameters_clamped_witness :
  let a := run sqrtSquares initialApp farDrag in
  reachable sqrtSquares a
  /\ sFocus (leftSlot (combiner a)) = {| x := Fin 1; y := Fin 0 |}
  /\ focusInDomain (sFocus (leftSlot (combiner a)))
  /\ logoPosition
       (logoSlot (combiner (run sqrtSquares a [LogoXInput (numericValue 150);
                                               LogoYInput (numericValue (-10))])))
     = {| x := Fin 100; y := Fin 0 |}.
Proof.
  intros a.
  assert (Hr : reachable sqrtSquares a)
    by (apply reachable_run, reachable_init).
  destruct (stored_view_parameters_clamped Hr) as [[Hleft _] [_ [_ HE]]].
  split; [exact Hr | split; [vm_compute; reflexivity | split; [exact Hleft | exact HE]]].
Defined.

(** ** Further properties of the gesture handlers *)

Lemma handleDragEnd_coherent (a : App) :
  gestureCoherent (gesture a) -> gestureCoherent (gesture (handleDragEnd a)).
Proof.
  intros [H1 H2]. unfold handleDragEnd.
  destruct (isSome (activeDrag (gesture a))); cbn [withGesture gesture];
    destruct (animationFrameId _); cbn [withGesture gesture];
    (split; [intros Hp; destruct (H1 Hp) as [Ha [Ht Hs]]; repeat split; auto
            | intros Hp; apply (H2 Hp)]).
Qed.

Ltac coh_same H :=
  let H1 := fresh "H1" in let H2 := fresh "H2" in let Hp := fresh "Hp" in
  destruct H as [H1 H2]; split; intros Hp; cbn in Hp |- *;
  first [ discriminate
        | destruct (H1 Hp) as [? [? [? ?]]]; repeat split; eauto; fail
        | destruct (H2 Hp); repeat split; eauto; fail
        | repeat split; eauto; fail ].

Lemma requestDraw_gesture (a : App) :
  gestureCoherent (gesture a) -> gestureCoherent (gesture (requestDraw a)).
Proof.
  intros H. unfold requestDraw. destruct (animationFrameId _); [exact H | coh_same H].
Qed.

Lemma handleInteractionStart_coherent (cX cY : Q) (type : Target) (isTouch : bool)
    (a : App) :
  gestureCoherent (gesture (fst (handleInteractionStart cX cY type isTouch a))).
Proof.
  unfold handleInteractionStart.
  destruct (negb _); [split; intros Hp; cbn in Hp |- *; try discriminate; repeat split|].
  destruct (_ && _); [split; intros Hp; cbn in Hp |- *; try discriminate; repeat split|].
  destruct type; split; intros Hp; cbn in Hp |- *; try discriminate; repeat split.
Qed.

Lemma handleDragMove_coherent (cX cY : Q) (container : option DOMRect) (a : App) :
  gestureCoherent (gesture a) ->
  gestureCoherent (gesture (handleDragMove cX cY container a)).
Proof.
  intros H. unfold handleDragMove.
  destruct (activeDrag (gesture a)) as [drag|]; [|exact H].
  destruct (isPinching (gesture a)); [exact H|].
  destruct container as [rect|]; [|exact H].
  destruct (_ || _); [exact H|].
  destruct drag as [side|].
  - destruct (sElement _); [|exact H]. destruct (panMedia _ _ _ _ _ _ _ _); [|exact H].
    apply requestDraw_gesture. exact H.
  - destruct (logoElement _); [|exact H]. destruct (_ || _); exact H.
Qed.

Lemma handleWheelZoom_coherent (deltaY : Q) (side : Side) (a : App) :
  gestureCoherent (gesture a) ->
  gestureCoherent (gesture (handleWheelZoom deltaY side a)).
Proof.
  intros H. unfold handleWheelZoom. destruct (sElement _); [|exact H].
  destruct (strictNe _ _); [|exact H]. apply requestDraw_gesture. exact H.
Qed.

Section CoherentTouches.

Variable Math_sqrt : number -> number.

Lemma handleTouchStart_coherent (onArea : bool) (type : Target) (touches : list Touch)
    (a : App) :
  gestureCoherent (gesture a) ->
  gestureCoherent (gesture (handleTouchStart Math_sqrt onArea type touches a)).
Proof.
  intros H. unfold handleTouchStart.
  destruct (negb onArea); [exact H|].
  destruct (negb (mediaExists type (combiner a))); [exact H|].
  destruct touches as [|t0 [|t1 [|t2 rest]]], type as [side|]; try exact H.
  - destruct (negb _); [apply handleInteractionStart_coherent | exact H].
  - destruct (negb _); [apply handleInteractionStart_coherent | exact H].
  - split; intros Hp; cbn in Hp |- *; try discriminate.
    split; [|split; [reflexivity | exists side; reflexivity]].
    unfold handleDragEnd.
    destruct (activeDrag (gesture a)) eqn:Ed; cbn [isSome].
    + destruct (animationFrameId _); reflexivity.
    + exact Ed.
Qed.

Lemma handleTouchMove_coherent (touches : list Touch) (container : option DOMRect)
    (a : App) :
  gestureCoherent (gesture a) ->
  gestureCoherent (gesture (handleTouchMove Math_sqrt touches container a)).
Proof.
  intros H. unfold handleTouchMove.
  assert (Hdrag : forall ts,
     gestureCoherent (gesture
       match ts with
       | [touch] =>
           if isSome (activeDrag (gesture a)) && isTouching (gesture a)
              && negb (isPinching (gesture a))
           then handleDragMove (clientX touch) (clientY touch) container a
           else a
       | _ => a
       end)).
  { intros [|t [|t' ts]]; try exact H.
    destruct (_ && _); [apply handleDragMove_coherent, H | exact H]. }
  destruct (isPinching (gesture a)); [|apply Hdrag].
  destruct touches as [|t0 [|t1 [|t2 rest]]];
    try apply (Hdrag []); try apply (Hdrag [t0]); try apply (Hdrag (t0 :: t1 :: t2 :: rest)).
  destruct (pinchSide (gesture a)) as [side|]; [|exact H].
  destruct (le _ _); [exact H|].
  destruct (strictNe _ _); [|exact H].
  apply requestDraw_gesture. exact H.
Qed.

Lemma handleTouchEnd_coherent (touches : list Touch) (a : App) :
  gestureCoherent (gesture a) ->
  gestureCoherent (gesture (handleTouchEnd touches a)).
Proof.
  intros H. unfold handleTouchEnd.
  destruct touches as [|t0 [|t1 rest]]; try exact H.
  - split; intros Hp; cbn in Hp |- *; try discriminate. repeat split.
  - destruct (isPinching (gesture a)); [|exact H].
    split; intros Hp; cbn in Hp |- *; try discriminate. repeat split.
Qed.

End CoherentTouches.

Lemma handleMouseUp_coherent (button : Z) (a : App) :
  gestureCoherent (gesture a) -> gestureCoherent (gesture (handleMouseUp button a)).
Proof.
  intros H. unfold handleMouseUp.
  assert (H1 : gestureCoherent (gesture
                 (if (button =? 0)%Z && isSome (activeDrag (gesture a))
                     && negb (isTouching (gesture a)) && negb (isPinching (gesture a))
                  then handleDragEnd a else a))).
  { destruct (_ && _); [apply handleDragEnd_coherent, H | exact H]. }
  destruct (isTouching (gesture a)) eqn:Et; [|exact H1].
  revert H1. generalize (if (button =? 0)%Z && isSome (activeDrag (gesture a))
                     && negb true && negb (isPinching (gesture a))
                  then handleDragEnd a else a).
  intros b Hb. coh_same Hb.
Qed.

Lemma step_coherent (Math_sqrt : number -> number) (a : App) (ev : Event) :
  gestureCoherent (gesture a) -> gestureCoherent (gesture (step Math_sqrt a ev)).
Proof.
  intros H. destruct ev; cbn [step]; try exact H.
  - unfold handleMouseDown. destruct (negb _); [exact H|]. destruct onArea; [|exact H].
    apply handleInteractionStart_coherent.
  - unfold handleMouseMove. destruct (_ && _); [|exact H].
    apply handleDragMove_coherent, H.
  - apply handleMouseUp_coherent, H.
  - apply handleTouchStart_coherent, H.
  - apply handleTouchMove_coherent, H.
  - apply handleTouchEnd_coherent, H.
  - apply handleWheelZoom_coherent, H.
  - unfold drawPreviewCanvases. destruct container as [rect|]; [|coh_same H].
    destruct (_ || _); coh_same H.
Qed.

Lemma reachable_coherent (Math_sqrt : number -> number) (a : App) :
  reachable Math_sqrt a -> gestureCoherent (gesture a).
Proof.
  intros Hr. induction Hr as [|a ev _ IH]; [|apply step_coherent, IH].
  split; intros Hp; cbn in Hp |- *; try discriminate. repeat split.
Qed.

(** X1. In every state the component can reach, a pinch and a drag are
    never in progress together: while a pinch is on, no drag target is
    active, no one-finger touch is tracked and the pinched side is known;
    while no pinch is on, no pinch side is recorded and the baseline
    distance is 0. *)
Theorem drag_and_pinch_exclusive (Math_sqrt : number -> number) (a : App) :
  reachable Math_sqrt a ->
  gestureCoherent (gesture a)
  /\ ~ (isPinching (gesture a) = true /\ isSome (activeDrag (gesture a)) = true).
Proof.
  intros Hr. pose proof (reachable_coherent Hr) as Hc.
  split; [exact Hc|]. intros [Hp Hd]. destruct Hc as [H1 _].
  destruct (H1 Hp) as [Ha _]. rewrite Ha in Hd. discriminate.
Qed.

Lemma drag_and_pinch_exclusive_witness :
  let a := run sqrtSquares initialApp pinchRun in
  reachable sqrtSquares a
  /\ isPinching (gesture a) = true
  /\ gestureCoherent (gesture a)
  /\ ~ (isPinching (gesture a) = true /\ isSome (activeDrag (gesture a)) = true).
Proof.
  intros a.
  assert (Hr : reachable sqrtSquares a) by (apply reachable_run, reachable_init).
  assert (Hp : isPinching (gesture a) = true) by (vm_compute; reflexivity).
  destruct (drag_and_pinch_exclusive Hr) as [Hc Hx].
  exact (conj Hr (conj Hp (conj Hc Hx))).
Defined.

Lemma inRange_sameValue (lo hi : Q) (a b : number) :
  sameValue a b -> inRange lo hi b -> inRange lo hi a.
Proof.
  destruct a, b; simpl; try tauto. intros E [H1 H2]. rewrite E. split; assumption.
Qed.

Lemma sameValue_sym (a b : number) : sameValue a b -> sameValue b a.
Proof. destruct a, b; simpl; try tauto. intros E. symmetry. exact E. Qed.

Lemma getSlot_other_onZoomChange (side : Side) (z : number) (a : App) :
  getSlot (otherSide side) (combiner (onZoomChange side z a))
  = getSlot (otherSide side) (combiner a).
Proof. destruct side; reflexivity. Qed.

Lemma sFocus_onZoomChange (side : Side) (z : number) (a : App) :
  sFocus (getSlot side (combiner (onZoomChange side z a)))
  = sFocus (getSlot side (combiner a)).
Proof. destruct side; reflexivity. Qed.

Lemma combiner_requestDraw (a : App) : combiner (requestDraw a) = combiner a.
Proof. unfold requestDraw. destruct (animationFrameId _); reflexivity. Qed.

Lemma clamp_ge (q c lo hi : Q) :
  (lo <= c <= hi)%Q -> (c <= q)%Q ->
  exists r, clamp (Fin q) (Fin lo) (Fin hi) = Fin r /\ (c <= r)%Q.
Proof.
  intros Hc Hq. unfold clamp, Math_max, Math_min, lt.
  qcases; qbool; eexists; (split; [reflexivity | lra]).
Qed.

Lemma clamp_le (q c lo hi : Q) :
  (lo <= c <= hi)%Q -> (q <= c)%Q ->
  exists r, clamp (Fin q) (Fin lo) (Fin hi) = Fin r /\ (r <= c)%Q.
Proof.
  intros Hc Hq. unfold clamp, Math_max, Math_min, lt.
  qcases; qbool; eexists; (split; [reflexivity | lra]).
Qed.

Lemma wheel_target (deltaY : Q) (side : Side) (a : App) :
  let newZoom := clamp (sZoom (getSlot side (combiner a))
                        + Fin deltaY * Fin (- (15 # 100)))%js MIN_ZOOM MAX_ZOOM in
  (sElement (getSlot side (combiner a)) = None /\ handleWheelZoom deltaY side a = a)
  \/ (sElement (getSlot side (combiner a)) <> None
      /\ sameValue (sZoom (getSlot side (combiner (handleWheelZoom deltaY side a))))
                   newZoom
      /\ (handleWheelZoom deltaY side a = a
          \/ handleWheelZoom deltaY side a = requestDraw (onZoomChange side newZoom a))).
Proof.
  intros newZoom. unfold handleWheelZoom.
  destruct (sElement (getSlot side (combiner a))); [right | left; split; reflexivity].
  split; [discriminate|]. fold newZoom.
  destruct (strictNe newZoom _) eqn:E.
  - split; [|right; reflexivity].
    rewrite combiner_requestDraw, getSlot_onZoomChange. apply sameValue_refl.
  - split; [|left; reflexivity].
    apply sameValue_sym, strictEq_sameValue. unfold strictNe in E.
    apply negb_false_iff in E. exact E.
Qed.

(** X2. A wheel event over a slot without media changes nothing; over a
    slot with media it leaves a zoom in [[10, 500]], never lowers an
    in-range zoom when scrolling up (deltaY <= 0) and never raises it
    when scrolling down, and keeps the slot's focus, the other slot and
    the logo. *)
Theorem wheel_zoom_bounded (deltaY : Q) (side : Side) (a : App) :
  finite (sZoom (getSlot side (combiner a))) ->
  let a' := handleWheelZoom deltaY side a in
  let zoom := sZoom (getSlot side (combiner a)) in
  let zoom' := sZoom (getSlot side (combiner a')) in
  (sElement (getSlot side (combiner a)) = None -> a' = a)
  /\ (sElement (getSlot side (combiner a)) <> None -> inRange 10 500 zoom')
  /\ (inRange 10 500 zoom -> (deltaY <= 0)%Q -> (zoom <=? zoom')%js = true)
  /\ (inRange 10 500 zoom -> (0 <= deltaY)%Q -> (zoom' <=? zoom)%js = true)
  /\ sFocus (getSlot side (combiner a')) = sFocus (getSlot side (combiner a))
  /\ getSlot (otherSide side) (combiner a') = getSlot (otherSide side) (combiner a)
  /\ logoSlot (combiner a') = logoSlot (combiner a).
Proof.
  intros Hfin a' zoom zoom'.
  pose proof (wheel_target deltaY side a) as Ht. cbv zeta in Ht.
  fold a' zoom in Ht. fold zoom' in Ht.
  set (newZoom := clamp (zoom + Fin deltaY * Fin (- (15 # 100)))%js MIN_ZOOM MAX_ZOOM) in *.
  assert (Hnew : inRange 10 500 newZoom).
  { apply clamp_inRange; [|lra]. apply finite_add; [exact Hfin | exact I]. }
  split; [|split; [|split; [|split; [|split; [|split]]]]].
  - intros He. destruct Ht as [[_ E]|[Hne _]]; [exact E | contradiction].
  - intros He. destruct Ht as [[E _]|[_ [Hs _]]]; [contradiction|].
    eapply inRange_sameValue; [exact Hs | exact Hnew].
  - intros Hz Hd. destruct Ht as [[_ E]|[_ [Hs _]]].
    + unfold zoom'. rewrite E. fold zoom. destruct zoom as [c| | |]; try contradiction.
      apply Qle_bool_iff. lra.
    + destruct zoom as [c| | |] eqn:Ez; try contradiction.
      destruct (@clamp_ge (Qred (c + Qred (deltaY * - (15 # 100)))) c 10 500 Hz)
        as [r [Er Hr]].
      { rewrite !Qred_correct. nra. }
      unfold newZoom in Hs. cbn [add mul fin] in Hs. unfold fin in Hs.
      unfold MIN_ZOOM, MAX_ZOOM in Hs. rewrite Er in Hs.
      destruct zoom' as [n| | |]; try contradiction. cbn in Hs.
      apply Qle_bool_iff. rewrite Hs. exact Hr.
  - intros Hz Hd. destruct Ht as [[_ E]|[_ [Hs _]]].
    + unfold zoom'. rewrite E. fold zoom. destruct zoom as [c| | |]; try contradiction.
      apply Qle_bool_iff. lra.
    + destruct zoom as [c| | |] eqn:Ez; try contradiction.
      destruct (@clamp_le (Qred (c + Qred (deltaY * - (15 # 100)))) c 10 500 Hz)
        as [r [Er Hr]].
      { rewrite !Qred_correct. nra. }
      unfold newZoom in Hs. cbn [add mul fin] in Hs. unfold fin in Hs.
      unfold MIN_ZOOM, MAX_ZOOM in Hs. rewrite Er in Hs.
      destruct zoom' as [n| | |]; try contradiction. cbn in Hs.
      apply Qle_bool_iff. rewrite Hs. exact Hr.
  - destruct Ht as [[_ E]|[_ [_ [E|E]]]]; unfold a' in *; rewrite E; try reflexivity.
    rewrite combiner_requestDraw. apply sFocus_onZoomChange.
  - destruct Ht as [[_ E]|[_ [_ [E|E]]]]; unfold a' in *; rewrite E; try reflexivity.
    rewrite combiner_requestDraw. apply getSlot_other_onZoomChange.
  - destruct Ht as [[_ E]|[_ [_ [E|E]]]]; unfold a' in *; rewrite E; try reflexivity.
    rewrite combiner_requestDraw. destruct side; reflexivity.
Qed.

Lemma wheel_zoom_bounded_witness :
  finite (sZoom (getSlot Left (combiner draggingLeft)))
  /\ inRange 10 500
       (sZoom (getSlot Left (combiner (handleWheelZoom (-100) Left draggingLeft))))
  /\ sZoom (getSlot Left (combiner (handleWheelZoom (-100) Left draggingLeft)))
     = Fin 115.
Proof.
  assert (Hf : finite (sZoom (getSlot Left (combiner draggingLeft)))) by exact I.
  assert (He : sElement (getSlot Left (combiner draggingLeft)) <> None)
    by (vm_compute; discriminate).
  destruct (wheel_zoom_bounded (-100) Left draggingLeft Hf) as [_ [Hin _]].
  split; [exact Hf|]. split; [exact (Hin He)|]. vm_compute. reflexivity.
Defined.


(** ** The visible rectangle of a draw, over the rationals *)

Lemma clampInto_Q (v u : Q) :
  exists r, clamp (Fin v) n0 (Math_max n0 (Fin u)) = Fin r
    /\ (0 <= r)%Q
    /\ ((0 <= u)%Q -> (r <= u)%Q)
    /\ ((0 <= v)%Q -> (v <= u)%Q -> (r == v)%Q).
Proof.
  unfold clamp, Math_max, Math_min, lt, n0.
  qcases; qbool; eexists; (split; [reflexivity | repeat split; intros; lra]).
Qed.

Lemma Qdiv_mul_cancel (a b : Q) : (0 < b)%Q -> (a / b * b == a)%Q.
Proof. intros H. field. lra. Qed.

Lemma specCoverScale_Q (sw sh dW dH : Q) :
  (0 < sw)%Q -> (0 < sh)%Q -> (0 < dW)%Q -> (0 < dH)%Q ->
  exists c, specCoverScale (Fin sw) (Fin sh) (Fin dW) (Fin dH) = Fin c
    /\ (0 < c)%Q
    /\ (dW <= c * sw)%Q /\ (dH <= c * sh)%Q
    /\ ((dW == c * sw)%Q \/ (dH == c * sh)%Q).
Proof.
  intros Hsw Hsh HdW HdH. unfold specCoverScale.
  rewrite !div_pos by assumption. unfold fin, gt, lt.
  pose proof (Qdiv_mul_cancel sw Hsh) as E1.
  pose proof (Qdiv_mul_cancel dW HdH) as E2.
  pose proof (Qdiv_mul_cancel dH Hsh) as E3.
  pose proof (Qdiv_mul_cancel dW Hsw) as E4.
  pose proof (Qdiv_pos HdH Hsh) as P3.
  pose proof (Qdiv_pos HdW Hsw) as P4.
  pose proof (Qdiv_pos Hsw Hsh) as P1.
  pose proof (Qdiv_pos HdW HdH) as P2.
  destruct (Qltb _ _) eqn:G; qbool; rewrite !Qred_correct in G;
    eexists; (split; [reflexivity|]); rewrite !Qred_correct;
    revert G E1 E2 E3 E4 P1 P2 P3 P4;
    generalize (sw / sh)%Q (dW / dH)%Q (dH / sh)%Q (dW / sw)%Q;
    intros a b c d G E1 E2 E3 E4 P1 P2 P3 P4.
  - (* b < a: source wider; c = dH/sh *)
    assert (H : (d * sw * sh <= c * sh * sw)%Q).
    { rewrite E4, E3. rewrite <- E2, <- E1.
      assert (P : (0 < dH * sh)%Q) by nra.
      setoid_replace (b * dH * sh)%Q with (b * (dH * sh))%Q by ring.
      setoid_replace (dH * (a * sh))%Q with (a * (dH * sh))%Q by ring.
      revert P. generalize (dH * sh)%Q. intros. nra. }
    split; [lra|]. repeat split; nra.
  - assert (H : (c * sh * sw <= d * sw * sh)%Q).
    { rewrite E4, E3. rewrite <- E2, <- E1.
      assert (P : (0 < dH * sh)%Q) by nra.
      setoid_replace (b * dH * sh)%Q with (b * (dH * sh))%Q by ring.
      setoid_replace (dH * (a * sh))%Q with (a * (dH * sh))%Q by ring.
      revert P. generalize (dH * sh)%Q. intros. nra. }
    split; [lra|]. repeat split; nra.
Qed.

Lemma drawPlan_Q (sw sh dW dH zq fx fy : Q) :
  (0 < sw)%Q -> (0 < sh)%Q -> (0 < dW)%Q -> (0 < dH)%Q -> (0 < zq)%Q ->
  exists c sx sy vW vH,
    specCoverScale (Fin sw) (Fin sh) (Fin dW) (Fin dH) = Fin c
    /\ drawPlan (Fin sw) (Fin sh) (Fin dW) (Fin dH) (Fin zq)
         {| x := Fin fx; y := Fin fy |}
       = Some {| rect_sx := Fin sx; rect_sy := Fin sy;
                 rect_sWidth := Fin vW; rect_sHeight := Fin vH |}
    /\ (0 < c)%Q /\ (dW <= c * sw)%Q /\ (dH <= c * sh)%Q
    /\ ((dW == c * sw)%Q \/ (dH == c * sh)%Q)
    /\ (vW * (c * zq) == dW * 100)%Q /\ (vH * (c * zq) == dH * 100)%Q
    /\ (0 <= sx)%Q /\ ((vW <= sw)%Q -> (sx + vW <= sw)%Q)
    /\ ((0 <= sw * fx - vW / 2)%Q -> (sw * fx - vW / 2 <= sw - vW)%Q ->
        (sx == sw * fx - vW / 2)%Q)
    /\ (0 <= sy)%Q /\ ((vH <= sh)%Q -> (sy + vH <= sh)%Q)
    /\ ((0 <= sh * fy - vH / 2)%Q -> (sh * fy - vH / 2 <= sh - vH)%Q ->
        (sy == sh * fy - vH / 2)%Q).
Proof.
  intros Hsw Hsh HdW HdH Hz.
  destruct (specCoverScale_Q Hsw Hsh HdW HdH) as [c [Ec [Hc [Hcw [Hch Hcor]]]]].
  unfold drawPlan, specFinalScale. rewrite Ec. unfold n100.
  rewrite div_pos by lra. unfold fin. cbn [mul]. unfold fin.
  set (fq := Qred (c * Qred (zq / 100))).
  assert (Efq : (fq == c * zq / 100)%Q).
  { unfold fq. rewrite !Qred_correct. field. }
  assert (Hfq : (0 < fq)%Q).
  { rewrite Efq. apply Qdiv_pos; [nra | lra]. }
  assert (Ea : specAborted (Fin fq) = false).
  { unfold specAborted, le, n0. cbn [Number_isFinite negb orb]. qbool. exact Hfq. }
  rewrite Ea, (drawable_pos sw sh fx fy HdW HdH Hfq).
  unfold codeSourceRect. cbn [x y].
  rewrite !div_pos by assumption. unfold fin, n2. rewrite !div_pos by lra.
  unfold fin. cbn [mul sub add neg fin]. unfold fin.
  set (vW := Qred (dW / fq)). set (vH := Qred (dH / fq)).
  assert (EvW : (vW * fq == dW)%Q) by (unfold vW; rewrite Qred_correct; field; lra).
  assert (EvH : (vH * fq == dH)%Q) by (unfold vH; rewrite Qred_correct; field; lra).
  match goal with
  | |- context [clamp (Fin ?v) n0 (Math_max n0 (Fin ?u))] =>
      destruct (clampInto_Q v u) as [sx [Esx [Hsx0 [Hsxu Hsxv]]]]; rewrite Esx
  end.
  match goal with
  | |- context [clamp (Fin ?v) n0 (Math_max n0 (Fin ?u))] =>
      destruct (clampInto_Q v u) as [sy [Esy [Hsy0 [Hsyu Hsyv]]]]; rewrite Esy
  end.
  repeat rewrite Qred_correct in Hsxu. repeat rewrite Qred_correct in Hsxv.
  repeat rewrite Qred_correct in Hsyu. repeat rewrite Qred_correct in Hsyv.
  exists c, sx, sy, vW, vH.
  split; [reflexivity|]. split; [reflexivity|].
  split; [exact Hc|]. split; [exact Hcw|]. split; [exact Hch|]. split; [exact Hcor|].
  split; [rewrite <- EvW, Efq; field|]. split; [rewrite <- EvH, Efq; field|].
  split; [exact Hsx0|]. split; [intros H; specialize (Hsxu ltac:(lra)); lra|].
  split; [intros H1 H2; rewrite (Hsxv ltac:(lra) ltac:(lra)); field|].
  split; [exact Hsy0|]. split; [intros H; specialize (Hsyu ltac:(lra)); lra|].
  intros H1 H2; rewrite (Hsyv ltac:(lra) ltac:(lra)); field.
Qed.

Lemma Qred_pos (q : Q) : (0 < q)%Q -> (0 < Qred q)%Q.
Proof. intros H. rewrite Qred_correct. exact H. Qed.

Lemma half_width (W : Q) : (Fin W / n2)%js = Fin (Qred (W / 2)).
Proof. unfold n2. rewrite div_pos by lra. reflexivity. Qed.

(** X5. Zooming in never shows more of the source: of two preview draws
    of one source on one canvas, whatever their focus, the one at the
    higher zoom hands to [drawImage] a source rectangle that is no wider
    and no higher than that of the other; both rectangles have a
    positive width and height. *)
Theorem zoom_in_never_shows_more (el : MediaElement) (section : Side)
    (W H z1 z2 : Q) (f1 f2 : Q * Q) :
  (0 < elementWidth el)%Z -> (0 < elementHeight el)%Z ->
  (0 < W)%Q -> (0 < H)%Q -> (0 < z1)%Q -> (z1 <= z2)%Q ->
  exists r1 r2,
    sourceRectOf (drawMediaSection (Some el) section (Fin W) (Fin H) (Fin z1)
                    {| x := Fin (fst f1); y := Fin (snd f1) |}) = Some r1
    /\ sourceRectOf (drawMediaSection (Some el) section (Fin W) (Fin H) (Fin z2)
                       {| x := Fin (fst f2); y := Fin (snd f2) |}) = Some r2
    /\ (rect_sWidth r2 <=? rect_sWidth r1)%js = true
    /\ (rect_sHeight r2 <=? rect_sHeight r1)%js = true
    /\ (rect_sWidth r2 >? n0)%js = true
    /\ (rect_sHeight r2 >? n0)%js = true.
Proof.
  intros Hw Hh HW HH Hz1 Hz12.
  assert (Hz2 : (0 < z2)%Q) by lra.
  rewrite !(drawMediaSection_plan _ _ _ _ _ _ Hw Hh), half_width. unfold ofZ.
  assert (Hsw : (0 < inject_Z (elementWidth el))%Q) by (apply inject_Z_pos; exact Hw).
  assert (Hsh : (0 < inject_Z (elementHeight el))%Q) by (apply inject_Z_pos; exact Hh).
  assert (HdW : (0 < Qred (W / 2))%Q) by (apply Qred_pos, Qdiv_pos; lra).
  destruct (drawPlan_Q (fst f1) (snd f1) Hsw Hsh HdW HH Hz1)
    as (c & sx1 & sy1 & vW1 & vH1 & Ec & Ep1 & Hc & _ & _ & _ & EvW1 & EvH1 & _).
  destruct (drawPlan_Q (fst f2) (snd f2) Hsw Hsh HdW HH Hz2)
    as (c' & sx2 & sy2 & vW2 & vH2 & Ec' & Ep2 & _ & _ & _ & _ & EvW2 & EvH2 & _).
  assert (E : c' = c) by congruence. subst c'.
  rewrite Ep1, Ep2. eexists _, _. split; [reflexivity|]. split; [reflexivity|].
  cbn [rect_sWidth rect_sHeight].
  assert (K1 : (0 < c * z1)%Q) by nra.
  assert (K2 : (c * z1 <= c * z2)%Q) by nra.
  revert K1 K2 EvW1 EvH1 EvW2 EvH2 HdW. generalize (c * z1)%Q (c * z2)%Q (Qred (W / 2)).
  intros k1 k2 dW K1 K2 EvW1 EvH1 EvW2 EvH2 HdW.
  assert (P1 : (0 < vW2)%Q) by nra.
  assert (P2 : (0 < vH2)%Q) by nra.
  unfold le, gt, lt, n0.
  split; [qbool; nra|]. split; [qbool; nra|]. split; qbool; assumption.
Qed.

Lemma zoom_in_never_shows_more_witness :
  exists r1 r2,
    sourceRectOf (drawMediaSection (Some (Image (imageOf 800 600 "blob:left"))) Left
                    (Fin 800) (Fin 450) (Fin 100)
                    {| x := Fin (fst (1 # 2, 1 # 2)); y := Fin (snd (1 # 2, 1 # 2)) |})
    = Some r1
    /\ sourceRectOf (drawMediaSection (Some (Image (imageOf 800 600 "blob:left"))) Left
                       (Fin 800) (Fin 450) (Fin 200)
                       {| x := Fin (fst (1 # 5, 4 # 5)); y := Fin (snd (1 # 5, 4 # 5)) |})
       = Some r2
    /\ (rect_sWidth r2 <=? rect_sWidth r1)%js = true
    /\ (rect_sHeight r2 <=? rect_sHeight r1)%js = true
    /\ (rect_sWidth r2 >? n0)%js = true
    /\ (rect_sHeight r2 >? n0)%js = true.
Proof.
  apply (@zoom_in_never_shows_more (Image (imageOf 800 600 "blob:left")) Left
           800 450 100 200 (1 # 2, 1 # 2) (1 # 5, 4 # 5));
    [reflexivity | reflexivity | reflexivity | reflexivity | reflexivity | lra].
Defined.

Lemma drawFinalMedia_calls (img : HTMLImageElement) (section : Side)
    (W H z : number) (f : RelativeFocus) :
  (0 < naturalWidth img)%Z -> (0 < naturalHeight img)%Z ->
  drawFinalMedia img section W H z f
  = [save; beginPath;
     rect (match section with Left => n0 | Right => (W / n2)%js end) n0 (W / n2)%js H;
     clip]
    ++ (let sw := ofZ (naturalWidth img) in
        let sh := ofZ (naturalHeight img) in
        let fs := specFinalScale sw sh (W / n2)%js H z in
        if specAborted fs then [restore]
        else
          let r := codeSourceRect sw sh (W / n2)%js H fs f in
          (if drawable r
           then [drawImage (Image img) (rect_sx r) (rect_sy r)
                   (rect_sWidth r) (rect_sHeight r)
                   (match section with Left => n0 | Right => (W / n2)%js end) n0
                   (W / n2)%js H]
           else []) ++ [restore]).
Proof.
  intros Hw Hh. unfold drawFinalMedia. f_equal.
  rewrite !ofZ_le0.
  destruct (Z.leb_spec (naturalWidth img) 0); [lia|].
  destruct (Z.leb_spec (naturalHeight img) 0); [lia|].
  cbn [orb]. cbv zeta.
  fold (specCoverScale (ofZ (naturalWidth img)) (ofZ (naturalHeight img)) (W / n2)%js H).
  fold (specFinalScale (ofZ (naturalWidth img)) (ofZ (naturalHeight img)) (W / n2)%js H z).
  set (fs := specFinalScale _ _ _ _ _).
  unfold specAborted. rewrite (orb_comm (negb (Number_isFinite fs))).
  destruct (le fs n0 || negb (Number_isFinite fs)); reflexivity.
Qed.

(** X6. An export draw of one half, on a source of positive size with a
    positive output size and zoom, saves the context, clips to its half of
    the output, paints that half with exactly one [drawImage] whose
    destination is the clip rectangle, and restores the context; the left
    half starts at 0, the right half where the left one ends, and the two
    halves together span the output width. *)
Theorem export_draw_paints_its_half (img : HTMLImageElement) (section : Side)
    (W H zq fx fy : Q) :
  (0 < naturalWidth img)%Z -> (0 < naturalHeight img)%Z ->
  (0 < W)%Q -> (0 < H)%Q -> (0 < zq)%Q ->
  exists (hw : Q) (r : SourceRect),
    (hw + hw == W)%Q
    /\ let dx := match section with Left => n0 | Right => Fin hw end in
       drawFinalMedia img section (Fin W) (Fin H) (Fin zq)
         {| x := Fin fx; y := Fin fy |}
       = [save; beginPath; rect dx n0 (Fin hw) (Fin H); clip;
          drawImage (Image img) (rect_sx r) (rect_sy r)
            (rect_sWidth r) (rect_sHeight r) dx n0 (Fin hw) (Fin H);
          restore].
Proof.
  intros Hw Hh HW HH Hz.
  rewrite (drawFinalMedia_calls _ _ _ _ _ _ Hw Hh), half_width. unfold ofZ. cbv zeta.
  assert (Hsw : (0 < inject_Z (naturalWidth img))%Q) by (apply inject_Z_pos; exact Hw).
  assert (Hsh : (0 < inject_Z (naturalHeight img))%Q) by (apply inject_Z_pos; exact Hh).
  assert (HdW : (0 < Qred (W / 2))%Q) by (apply Qred_pos, Qdiv_pos; lra).
  destruct (specFinalScale_pos Hsw Hsh HdW HH Hz) as [fq [Efs Hfq]].
  rewrite Efs.
  assert (Ea : specAborted (Fin fq) = false).
  { unfold specAborted, le, n0. cbn [Number_isFinite negb orb]. qbool. exact Hfq. }
  rewrite Ea, (drawable_pos (inject_Z (naturalWidth img)) (inject_Z (naturalHeight img))
                 fx fy HdW HH Hfq).
  exists (Qred (W / 2)), (codeSourceRect (Fin (inject_Z (naturalWidth img)))
                            (Fin (inject_Z (naturalHeight img)))
                            (Fin (Qred (W / 2))) (Fin H) (Fin fq)
                            {| x := Fin fx; y := Fin fy |}).
  split; [rewrite Qred_correct; field | reflexivity].
Qed.

Lemma export_draw_paints_its_half_witness :
  exists (hw : Q) (r : SourceRect),
    (hw + hw == 2400)%Q
    /\ let dx := match Right with Left => n0 | Right => Fin hw end in
       drawFinalMedia (imageOf 1200 900 "blob:right") Right (Fin 2400) (Fin 1350)
         (Fin 100) {| x := Fin (1 # 2); y := Fin (1 # 2) |}
       = [save; beginPath; rect dx n0 (Fin hw) (Fin 1350); clip;
          drawImage (Image (imageOf 1200 900 "blob:right")) (rect_sx r) (rect_sy r)
            (rect_sWidth r) (rect_sHeight r) dx n0 (Fin hw) (Fin 1350);
          restore].
Proof.
  apply (@export_draw_paints_its_half (imageOf 1200 900 "blob:right") Right
           2400 1350 100 (1 # 2) (1 # 2));
    reflexivity.
Defined.

(** ** Panning *)

Lemma orElse_ofZ_pos (z : Z) (d : number) : (0 < z)%Z -> orElse (ofZ z) d = ofZ z.
Proof.
  intros H. unfold orElse. rewrite truthy_ofZ.
  destruct (Z.eqb_spec z 0); [lia | reflexivity].
Qed.

Lemma getSlot_onFocusChange (side : Side) (f : RelativeFocus) (a : App) :
  sFocus (getSlot side (combiner (onFocusChange side f a))) = f.
Proof. destruct side; reflexivity. Qed.

Lemma strictNe_false_sameValue (a b : number) :
  strictNe a b = false -> sameValue b a.
Proof.
  intros E. apply sameValue_sym, strictEq_sameValue.
  unfold strictNe in E. apply negb_false_iff in E. exact E.
Qed.

(** A value clamped into a range stays on the side of every point of the
    range it was on. *)
Lemma clamp_toward (v c lo hi : Q) :
  (lo <= c)%Q -> (c <= hi)%Q ->
  exists r, clamp (Fin v) (Fin lo) (Fin hi) = Fin r
    /\ (lo <= r)%Q /\ (r <= hi)%Q
    /\ ((v <= c)%Q -> (r <= c)%Q)
    /\ ((c <= v)%Q -> (c <= r)%Q).
Proof.
  intros H1 H2. unfold clamp, Math_max, Math_min, lt.
  qcases; qbool; eexists; (split; [reflexivity | repeat split; intros; lra]).
Qed.

Lemma le_sameValue (a a' b : number) :
  sameValue a a' -> (a' <=? b)%js = true -> (a <=? b)%js = true.
Proof.
  destruct a, a', b; simpl; try tauto; try discriminate.
  intros E H. qbool. rewrite E. exact H.
Qed.

Lemma ge_sameValue (a a' b : number) :
  sameValue a a' -> (b <=? a')%js = true -> (b <=? a)%js = true.
Proof.
  destruct a, a', b; simpl; try tauto; try discriminate.
  intros E H. qbool. rewrite E. exact H.
Qed.

Lemma panMedia_toward (el : MediaElement) (zq fx0 fy0 dX dY hw H : Q)
    (cur : RelativeFocus) :
  (0 < elementWidth el)%Z -> (0 < elementHeight el)%Z ->
  (0 < zq)%Q -> (0 < hw)%Q -> (0 < H)%Q ->
  (0 <= fx0)%Q -> (fx0 <= 1)%Q -> (0 <= fy0)%Q -> (fy0 <= 1)%Q ->
  let new := match panMedia el (Fin zq) {| x := Fin fx0; y := Fin fy0 |} cur
                     (Fin dX) (Fin dY) (Fin hw) (Fin H) with
             | Some f => f
             | None => cur
             end in
  exists nx ny,
    sameValue (x new) (Fin nx) /\ sameValue (y new) (Fin ny)
    /\ (0 <= nx)%Q /\ (nx <= 1)%Q /\ (0 <= ny)%Q /\ (ny <= 1)%Q
    /\ ((0 <= dX)%Q -> (nx <= fx0)%Q) /\ ((dX <= 0)%Q -> (fx0 <= nx)%Q)
    /\ ((0 <= dY)%Q -> (ny <= fy0)%Q) /\ ((dY <= 0)%Q -> (fy0 <= ny)%Q).
Proof.
  intros Hw Hh Hz Hhw HH Hx0 Hx1 Hy0 Hy1 new.
  set (sw := inject_Z (elementWidth el)). set (sh := inject_Z (elementHeight el)).
  assert (Hsw : (0 < sw)%Q) by (apply inject_Z_pos; exact Hw).
  assert (Hsh : (0 < sh)%Q) by (apply inject_Z_pos; exact Hh).
  destruct (specFinalScale_pos Hsw Hsh Hhw HH Hz) as [fs [Efs Hfs]].
  unfold new, panMedia.
  assert (Ew : orElse (match el with
                       | Image img => ofZ (naturalWidth img)
                       | Video v => ofZ (videoWidth v) end) n1 = Fin sw)
    by (destruct el; apply orElse_ofZ_pos; assumption).
  assert (Eh : orElse (match el with
                       | Image img => ofZ (naturalHeight img)
                       | Video v => ofZ (videoHeight v) end) n1 = Fin sh)
    by (destruct el; apply orElse_ofZ_pos; assumption).
  rewrite Ew, Eh. cbv zeta.
  fold (specCoverScale (Fin sw) (Fin sh) (Fin hw) (Fin H)).
  fold (specFinalScale (Fin sw) (Fin sh) (Fin hw) (Fin H) (Fin zq)).
  rewrite Efs.
  assert (Ea : le (Fin fs) n0 || negb (Number_isFinite (Fin fs)) = false).
  { unfold le, n0. cbn [Number_isFinite negb]. rewrite orb_false_r. qbool. exact Hfs. }
  rewrite Ea. cbn [x y mul]. unfold fin.
  assert (Pw : (0 < Qred (sw * fs))%Q) by (apply Qred_pos; nra).
  assert (Ph : (0 < Qred (sh * fs))%Q) by (apply Qred_pos; nra).
  rewrite !div_pos by assumption. unfold fin. cbn [sub add neg]. unfold fin.
  unfold n0, n1.
  match goal with
  | |- context [clamp (Fin ?v) (Fin 0) (Fin 1)] =>
      destruct (@clamp_toward v fx0 0 1 Hx0 Hx1) as (nx & Enx & Hnx0 & Hnx1 & Hnxl & Hnxr);
      rewrite Enx
  end.
  match goal with
  | |- context [clamp (Fin ?v) (Fin 0) (Fin 1)] =>
      destruct (@clamp_toward v fy0 0 1 Hy0 Hy1) as (ny & Eny & Hny0 & Hny1 & Hnyl & Hnyr);
      rewrite Eny
  end.
  repeat rewrite Qred_correct in Hnxl. repeat rewrite Qred_correct in Hnxr.
  repeat rewrite Qred_correct in Hnyl. repeat rewrite Qred_correct in Hnyr.
  exists nx, ny.
  split; [|split].
  { destruct (strictNe (Fin nx) (x cur)) eqn:Sx; [apply sameValue_refl|].
    destruct (strictNe (Fin ny) (y cur)) eqn:Sy; [apply sameValue_refl|].
    apply strictNe_false_sameValue; assumption. }
  { destruct (strictNe (Fin nx) (x cur)) eqn:Sx; [apply sameValue_refl|].
    destruct (strictNe (Fin ny) (y cur)) eqn:Sy; [apply sameValue_refl|].
    apply strictNe_false_sameValue; assumption. }
  split; [exact Hnx0|]. split; [exact Hnx1|]. split; [exact Hny0|]. split; [exact Hny1|].
  assert (Qw : (0 < sw * fs)%Q) by nra.
  assert (Qh : (0 < sh * fs)%Q) by nra.
  revert Hnxl Hnxr Hnyl Hnyr Qw Qh. generalize (sw * fs)%Q (sh * fs)%Q.
  intros kw kh Hnxl Hnxr Hnyl Hnyr Qw Qh.
  assert (Dx : (0 <= dX)%Q -> (0 <= dX / kw)%Q).
  { intros Hd. apply Qle_shift_div_l; [exact Qw | lra]. }
  assert (Dx' : (dX <= 0)%Q -> (dX / kw <= 0)%Q).
  { intros Hd. apply Qle_shift_div_r; [exact Qw | lra]. }
  assert (Dy : (0 <= dY)%Q -> (0 <= dY / kh)%Q).
  { intros Hd. apply Qle_shift_div_l; [exact Qh | lra]. }
  assert (Dy' : (dY <= 0)%Q -> (dY / kh <= 0)%Q).
  { intros Hd. apply Qle_shift_div_r; [exact Qh | lra]. }
  split; [intros Hd; specialize (Dx Hd); apply Hnxl; lra|].
  split; [intros Hd; specialize (Dx' Hd); apply Hnxr; lra|].
  split; [intros Hd; specialize (Dy Hd); apply Hnyl; lra|].
  intros Hd; specialize (Dy' Hd); apply Hnyr; lra.
Qed.

Lemma sZoom_onFocusChange (side side' : Side) (f : RelativeFocus) (a : App) :
  sZoom (getSlot side' (combiner (onFocusChange side f a)))
  = sZoom (getSlot side' (combiner a)).
Proof. destruct side, side'; reflexivity. Qed.

(** X7. While a slot is being dragged, a move of the pointer pans the
    image with the pointer: the slot's focus stays in [[0, 1]], it is
    never to the right of the focus the drag started from when the
    pointer is to the right of the drag origin, never to the left of it
    when the pointer is to the left, and the same vertically, so that a
    pointer back at the origin brings back the focus the drag started
    from; the zoom is kept. *)
Theorem drag_pans_against_pointer (side : Side) (el : MediaElement)
    (cX cY W H zq fx0 fy0 x0 y0 : Q) (a : App) :
  activeDrag (gesture a) = Some (Slot side) ->
  isPinching (gesture a) = false ->
  sElement (getSlot side (combiner a)) = Some el ->
  (0 < elementWidth el)%Z -> (0 < elementHeight el)%Z ->
  sZoom (getSlot side (combiner a)) = Fin zq -> (0 < zq)%Q ->
  initialDragFocus (gesture a) = {| x := Fin fx0; y := Fin fy0 |} ->
  (0 <= fx0)%Q -> (fx0 <= 1)%Q -> (0 <= fy0)%Q -> (fy0 <= 1)%Q ->
  dragStart (gesture a) = {| x := Fin x0; y := Fin y0 |} ->
  (0 < W)%Q -> (0 < H)%Q ->
  let a' := handleDragMove cX cY (Some {| width := W; height := H |}) a in
  let focus' := sFocus (getSlot side (combiner a')) in
  inRange 0 1 (x focus') /\ inRange 0 1 (y focus')
  /\ ((x0 <= cX)%Q -> (x focus' <=? Fin fx0)%js = true)
  /\ ((cX <= x0)%Q -> (Fin fx0 <=? x focus')%js = true)
  /\ ((y0 <= cY)%Q -> (y focus' <=? Fin fy0)%js = true)
  /\ ((cY <= y0)%Q -> (Fin fy0 <=? y focus')%js = true)
  /\ sZoom (getSlot side (combiner a')) = Fin zq.
Proof.
  intros Hdrag Hpinch Hel Hw Hh Hzoom Hz Hinit Hx0 Hx1 Hy0 Hy1 Hstart HW HH a' focus'.
  assert (Hhw : (0 < Qred (W / 2))%Q) by (apply Qred_pos, Qdiv_pos; lra).
  set (dX := Qred (cX + Qred (- x0))). set (dY := Qred (cY + Qred (- y0))).
  assert (EdX : (dX == cX - x0)%Q) by (unfold dX; rewrite !Qred_correct; ring).
  assert (EdY : (dY == cY - y0)%Q) by (unfold dY; rewrite !Qred_correct; ring).
  destruct (@panMedia_toward el zq fx0 fy0 dX dY (Qred (W / 2)) H
              (sFocus (getSlot side (combiner a))) Hw Hh Hz Hhw HH Hx0 Hx1 Hy0 Hy1)
    as (nx & ny & Hx & Hy & Hnx0 & Hnx1 & Hny0 & Hny1 & Hxl & Hxr & Hyl & Hyr).
  assert (Ea' : a' = match panMedia el (Fin zq) {| x := Fin fx0; y := Fin fy0 |}
                             (sFocus (getSlot side (combiner a)))
                             (Fin dX) (Fin dY) (Fin (Qred (W / 2))) (Fin H) with
                    | Some focus => requestDraw (onFocusChange side focus a)
                    | None => a
                    end).
  { unfold a', handleDragMove. rewrite Hdrag, Hpinch, Hstart, Hinit. cbn [x y width height].
    assert (E0 : le (Fin W) n0 || le (Fin H) n0 = false).
    { unfold le, n0. apply orb_false_iff. split; qbool; assumption. }
    rewrite E0, Hel, Hzoom, half_width. reflexivity. }
  assert (Hview : focus'
                  = match panMedia el (Fin zq) {| x := Fin fx0; y := Fin fy0 |}
                            (sFocus (getSlot side (combiner a)))
                            (Fin dX) (Fin dY) (Fin (Qred (W / 2))) (Fin H) with
                    | Some f => f
                    | None => sFocus (getSlot side (combiner a))
                    end
                  /\ sZoom (getSlot side (combiner a')) = Fin zq).
  { unfold focus'. rewrite Ea'. destruct (panMedia _ _ _ _ _ _ _ _).
    - rewrite combiner_requestDraw, getSlot_onFocusChange, sZoom_onFocusChange.
      split; [reflexivity | exact Hzoom].
    - split; [reflexivity | exact Hzoom]. }
  destruct Hview as [Ef Ez]. rewrite Ef.
  split; [apply (inRange_sameValue _ _ _ _ Hx); simpl; split; assumption|].
  split; [apply (inRange_sameValue _ _ _ _ Hy); simpl; split; assumption|].
  split; [intros Hd; apply (le_sameValue _ _ _ Hx); unfold le; qbool; apply Hxl; lra|].
  split; [intros Hd; apply (ge_sameValue _ _ _ Hx); unfold le; qbool; apply Hxr; lra|].
  split; [intros Hd; apply (le_sameValue _ _ _ Hy); unfold le; qbool; apply Hyl; lra|].
  split; [intros Hd; apply (ge_sameValue _ _ _ Hy); unfold le; qbool; apply Hyr; lra|].
  exact Ez.
Qed.

Lemma drag_pans_against_pointer_witness :
  let a' := handleDragMove 60 100 (Some {| width := 800; height := 450 |})
              draggingLeft in
  let focus' := sFocus (getSlot Left (combiner a')) in
  inRange 0 1 (x focus') /\ inRange 0 1 (y focus')
  /\ ((100 <= 60)%Q -> (x focus' <=? Fin (1 # 2))%js = true)
  /\ ((60 <= 100)%Q -> (Fin (1 # 2) <=? x focus')%js = true)
  /\ ((100 <= 100)%Q -> (y focus' <=? Fin (1 # 2))%js = true)
  /\ ((100 <= 100)%Q -> (Fin (1 # 2) <=? y focus')%js = true)
  /\ sZoom (getSlot Left (combiner a')) = Fin 100.
Proof.
  apply (@drag_pans_against_pointer Left (Image (imageOf 800 600 "blob:left"))
           60 100 800 450 100 (1 # 2) (1 # 2) 100 100 draggingLeft);
    try reflexivity; discriminate.
Defined.

(** X8. A drag move changes nothing but the focus of the dragged slot or
    the position of the dragged logo (and the pending animation frame):
    the slots and the logo that are not being dragged are kept whole, no
    zoom, element or source changes, and the drag session is kept. *)
Theorem drag_move_touches_only_its_target (cX cY : Q) (container : option DOMRect)
    (a : App) :
  let a' := handleDragMove cX cY container a in
  (forall side,
     (activeDrag (gesture a) <> Some (Slot side) ->
      getSlot side (combiner a') = getSlot side (combiner a))
     /\ sZoom (getSlot side (combiner a')) = sZoom (getSlot side (combiner a))
     /\ sElement (getSlot side (combiner a')) = sElement (getSlot side (combiner a))
     /\ sMedia (getSlot side (combiner a')) = sMedia (getSlot side (combiner a)))
  /\ (activeDrag (gesture a) <> Some Logo ->
      logoSlot (combiner a') = logoSlot (combiner a))
  /\ logoZoom (logoSlot (combiner a')) = logoZoom (logoSlot (combiner a))
  /\ logoElement (logoSlot (combiner a')) = logoElement (logoSlot (combiner a))
  /\ activeDrag (gesture a') = activeDrag (gesture a)
  /\ dragStart (gesture a') = dragStart (gesture a)
  /\ initialDragFocus (gesture a') = initialDragFocus (gesture a)
  /\ initialLogoPos (gesture a') = initialLogoPos (gesture a).
Proof.
  intros a'.
  assert (Hcases : a' = a
    \/ (exists side f, activeDrag (gesture a) = Some (Slot side)
                       /\ a' = requestDraw (onFocusChange side f a))
    \/ (exists p, activeDrag (gesture a) = Some Logo /\ a' = onLogoPositionChange p a)).
  { unfold a', handleDragMove.
    destruct (activeDrag (gesture a)) as [drag|]; [|left; reflexivity].
    destruct (isPinching (gesture a)); [left; reflexivity|].
    destruct container as [rect|]; [|left; reflexivity].
    destruct (_ || _); [left; reflexivity|].
    destruct drag as [side|].
    - destruct (sElement _); [|left; reflexivity].
      destruct (panMedia _ _ _ _ _ _ _ _) as [f|]; [|left; reflexivity].
      right; left. exists side, f. split; reflexivity.
    - destruct (logoElement _); [|left; reflexivity].
      destruct (_ || _); [|left; reflexivity].
      right; right. eexists. split; reflexivity. }
  clearbody a'.
  destruct Hcases as [-> | [(side & f & Hd & ->) | (p & Hd & ->)]].
  - split; [intros side; repeat split|]; repeat split.
  - assert (Hg : forall P : GestureState -> Type,
               (forall g, P g -> P (setAnimationFrameId true g)) ->
               P (gesture a) -> P (gesture (requestDraw (onFocusChange side f a)))).
    { intros P Hs H0. unfold requestDraw.
      destruct (animationFrameId _); [exact H0 | apply Hs, H0]. }
    rewrite !combiner_requestDraw.
    split; [|split; [|split; [|split; [|repeat split]]]].
    + intros side'. split; [|destruct side, side'; repeat split].
      intros Hne. destruct side, side'; try reflexivity; congruence.
    + intros _. destruct side; reflexivity.
    + destruct side; reflexivity.
    + destruct side; reflexivity.
    + apply (Hg (fun g => activeDrag g = activeDrag (gesture a))); auto.
    + apply (Hg (fun g => dragStart g = dragStart (gesture a))); auto.
    + apply (Hg (fun g => initialDragFocus g = initialDragFocus (gesture a))); auto.
    + apply (Hg (fun g => initialLogoPos g = initialLogoPos (gesture a))); auto.
  - split; [intros side; destruct side; repeat split|].
    split; [intros Hne; congruence|]. repeat split.
Qed.

(** ** Touch sessions *)

(** X9. Lifting fingers never changes the picture: a touch end keeps the
    combiner's state, and after the last finger is lifted no touch
    session is left (no tracked touch, no pinch, no pinch side, a touch
    drag ended), so that touch moves that still arrive are ignored. *)
Theorem touch_end_closes_sessions (Math_sqrt : number -> number)
    (touches : list Touch) (a : App) :
  let a0 := handleTouchEnd [] a in
  combiner (handleTouchEnd touches a) = combiner a
  /\ isTouching (gesture a0) = false
  /\ isPinching (gesture a0) = false
  /\ pinchSide (gesture a0) = None
  /\ initialPinchDistance (gesture a0) = n0
  /\ (isTouching (gesture a) = true -> activeDrag (gesture a0) = None)
  /\ forall moved container, handleTouchMove Math_sqrt moved container a0 = a0.
Proof.
  intros a0.
  assert (Hc : forall b, combiner (handleDragEnd b) = combiner b).
  { intros b. unfold handleDragEnd.
    destruct (isSome _); cbn; destruct (animationFrameId _); reflexivity. }
  assert (Hd : forall b, activeDrag (gesture (handleDragEnd b)) = None).
  { intros b. unfold handleDragEnd.
    destruct (activeDrag (gesture b)) eqn:E; cbn [isSome].
    - destruct (animationFrameId _); reflexivity.
    - destruct (animationFrameId _); cbn; exact E. }
  split.
  { unfold handleTouchEnd. destruct touches as [|t0 [|t1 rest]]; try reflexivity.
    - destruct (_ && _); cbn; [apply Hc | reflexivity].
    - destruct (isPinching _); reflexivity. }
  assert (Hg : isTouching (gesture a0) = false /\ isPinching (gesture a0) = false
               /\ pinchSide (gesture a0) = None /\ initialPinchDistance (gesture a0) = n0).
  { unfold a0, handleTouchEnd. destruct (_ && _); repeat split. }
  destruct Hg as (Ht & Hp & Hs & Hi).
  split; [exact Ht|]. split; [exact Hp|]. split; [exact Hs|]. split; [exact Hi|].
  split.
  - intros Htouch. unfold a0, handleTouchEnd. rewrite Htouch, andb_true_r.
    destruct (activeDrag (gesture a)) eqn:E; cbn [isSome withGesture gesture
      setInitialPinchDistance setPinchSide setIsPinching setIsTouching activeDrag].
    + apply Hd.
    + exact E.
  - intros moved container. unfold handleTouchMove. rewrite Hp, Ht.
    rewrite andb_false_r. cbn [andb].
    destruct moved as [|t0 [|t1 [|t2 rest]]]; reflexivity.
Qed.

(** X10. When a pinch ends because one finger is lifted, the finger that
    stays down does not pan: in every reachable state in which a pinch is
    on, the touch end with one touch left turns the pinch off and leaves
    no active drag, and every touch move after it is ignored. *)
Theorem finger_left_after_pinch_does_not_pan (Math_sqrt : number -> number)
    (left_ : Touch) (a : App) :
  reachable Math_sqrt a ->
  isPinching (gesture a) = true ->
  let a1 := handleTouchEnd [left_] a in
  isPinching (gesture a1) = false
  /\ activeDrag (gesture a1) = None
  /\ combiner a1 = combiner a
  /\ forall moved container, handleTouchMove Math_sqrt moved container a1 = a1.
Proof.
  intros Hr Hp a1. destruct (reachable_coherent Hr) as [H1 _].
  destruct (H1 Hp) as (Hdrag & Htouch & _).
  assert (E : a1 = withGesture
                     (fun g1 => setInitialPinchDistance n0
                                  (setPinchSide None (setIsPinching false g1))) a).
  { unfold a1, handleTouchEnd. rewrite Hp. reflexivity. }
  rewrite E. cbn [withGesture gesture combiner setInitialPinchDistance setPinchSide
                  setIsPinching isPinching activeDrag].
  split; [reflexivity|]. split; [exact Hdrag|]. split; [reflexivity|].
  intros moved container. unfold handleTouchMove.
  cbn [withGesture gesture setInitialPinchDistance setPinchSide setIsPinching
       isPinching activeDrag isTouching].
  rewrite Hdrag. cbn [isSome andb].
  destruct moved as [|t0 [|t1 [|t2 rest]]]; reflexivity.
Qed.

Lemma finger_left_after_pinch_does_not_pan_witness :
  let a := run sqrtSquares initialApp pinchRun in
  let a1 := handleTouchEnd [{| clientX := 3; clientY := 4 |}] a in
  reachable sqrtSquares a
  /\ isPinching (gesture a) = true
  /\ isPinching (gesture a1) = false
  /\ activeDrag (gesture a1) = None
  /\ combiner a1 = combiner a
  /\ forall moved container, handleTouchMove sqrtSquares moved container a1 = a1.
Proof.
  intros a a1.
  assert (Hr : reachable sqrtSquares a) by (apply reachable_run, reachable_init).
  assert (Hp : isPinching (gesture a) = true) by (vm_compute; reflexivity).
  exact (conj Hr (conj Hp
           (finger_left_after_pinch_does_not_pan {| clientX := 3; clientY := 4 |} Hr Hp))).
Defined.

(** ** Loading *)

(** X11. Whatever settles a load clears its timer, and a load resolves
    only with an element that can be drawn: the element is of the kind
    asked for, carries the source it was given, has positive width and
    height, and a video has [readyState >= 2]; once stored by a mounted
    component, the slot is no longer loading and, for an image, passes
    the exporter's test of a loaded image. *)
Theorem settle_resolves_usable_element (p : PendingLoad) (ev : LoadEvent)
    (effects : list Effect) (outcome : Settled) (side : Side)
    (objectUrlToClean : option string) (st : CombinerState) :
  settle p ev = Some (effects, outcome) ->
  In clearTimeout effects
  /\ forall element, outcome = resolved element ->
       effects = [clearTimeout]
       /\ exists el,
            element = Some el
            /\ (0 < elementWidth el)%Z /\ (0 < elementHeight el)%Z
            /\ element_src el = pSrc p
            /\ match el with
               | Image _ => pType p = image
               | Video v => pType p = video /\ (2 <= readyState v)%Z
               end
            /\ (isMounted st = true ->
                let st' := fst (loadMediaEffect_settled side objectUrlToClean
                                  outcome st) in
                sElement (getSlot side st') = Some el
                /\ sLoading (getSlot side st') = false
                /\ (pType p = image ->
                    isLoadedImage (sElement (getSlot side st')) = true)).
Proof.
  intros Hs. unfold settle in Hs.
  assert (Hstore : forall el, isMounted st = true ->
            let st' := fst (loadMediaEffect_settled side objectUrlToClean
                              (resolved (Some el)) st) in
            sElement (getSlot side st') = Some el
            /\ sLoading (getSlot side st') = false).
  { intros el Hm. unfold loadMediaEffect_settled. rewrite Hm.
    destruct side; cbn; split; reflexivity. }
  destruct ev as [|w h| |w h rs|], (pType p) eqn:Et; try discriminate;
    injection Hs as <- <-.
  1,2: split;
    [unfold onTimeout; cbn [fst]; rewrite !in_app_iff; right; right; left; reflexivity
    | intros element E; discriminate E].
  - split; [left; reflexivity|]. intros element E.
    destruct ((0 <? w)%Z && (0 <? h)%Z) eqn:Ed; [|discriminate E].
    injection E as <-. split; [reflexivity|].
    apply andb_true_iff in Ed. destruct Ed as [Hw Hh].
    eexists. split; [reflexivity|]. cbn [elementWidth elementHeight element_src
      naturalWidth naturalHeight img_src].
    split; [apply Z.ltb_lt, Hw|]. split; [apply Z.ltb_lt, Hh|].
    split; [reflexivity|]. split; [reflexivity|].
    intros Hm.
    match goal with
    | |- context [resolved (Some ?e)] => destruct (Hstore e Hm) as [He Hl]
    end. cbv zeta in He, Hl |- *.
    split; [exact He|]. split; [exact Hl|]. intros _. rewrite He.
    cbn [isLoadedImage naturalWidth naturalHeight]. rewrite Hw, Hh. reflexivity.
  - split; [left; reflexivity | intros element E; discriminate E].
  - split; [left; reflexivity|]. intros element E.
    destruct ((0 <? w)%Z && (0 <? h)%Z && (2 <=? rs)%Z) eqn:Ed; [|discriminate E].
    injection E as <-. split; [reflexivity|].
    apply andb_true_iff in Ed. destruct Ed as [Ed Hrs].
    apply andb_true_iff in Ed. destruct Ed as [Hw Hh].
    eexists. split; [reflexivity|]. cbn [elementWidth elementHeight element_src
      videoWidth videoHeight video_src readyState].
    split; [apply Z.ltb_lt, Hw|]. split; [apply Z.ltb_lt, Hh|].
    split; [reflexivity|]. split; [split; [reflexivity | apply Z.leb_le, Hrs]|].
    intros Hm.
    match goal with
    | |- context [resolved (Some ?e)] => destruct (Hstore e Hm) as [He Hl]
    end. cbv zeta in He, Hl |- *.
    split; [exact He|]. split; [exact Hl|]. intros E. discriminate E.
  - split; [left; reflexivity | intros element E; discriminate E].
Qed.

Lemma settle_resolves_usable_element_witness :
  let p := {| pSide := Slot Left; pType := image; pSrc := "blob:left";
              pTimeout := 20000 |} in
  let element := Some (Image (imageOf 800 600 "blob:left")) in
  settle p (img_onload 800 600) = Some ([clearTimeout], resolved element)
  /\ In clearTimeout [clearTimeout]
  /\ isLoadedImage
       (sElement (getSlot Left
          (fst (loadMediaEffect_settled Left (Some "blob:left") (resolved element)
                  scenarioB)))) = true.
Proof.
  intros p element.
  assert (Hs : settle p (img_onload 800 600) = Some ([clearTimeout], resolved element))
    by reflexivity.
  destruct (@settle_resolves_usable_element p (img_onload 800 600) [clearTimeout]
              (resolved element) Left (Some "blob:left") scenarioB Hs)
    as [Hclear Hres].
  destruct (Hres element eq_refl) as [_ [el [_ [_ [_ [_ [_ Hstore]]]]]]].
  destruct (Hstore eq_refl) as [_ [_ Himg]].
  exact (conj Hs (conj Hclear (Himg eq_refl))).
Defined.

Lemma canSave_needs_element (side : Side) (st : CombinerState) :
  sElement (getSlot side st) = None -> canSaveComposite st = false.
Proof.
  intros H. unfold canSaveComposite, leftMediaElement, rightMediaElement.
  destruct side; cbn [getSlot] in H; rewrite H; cbn [isLoadedImage andb].
  - reflexivity.
  - rewrite andb_false_r. reflexivity.
Qed.

Lemma revokeTemp_some (url : string) :
  url <> "" -> revokeTemp (Some url) = [revokeObjectURL url].
Proof.
  intros H. unfold revokeTemp. destruct (String.eqb_spec url ""); [contradiction|].
  reflexivity.
Qed.

(** X12. A load that fails after an object URL was made for it releases
    that URL, mounted or not, for a slot and for the logo alike: the
    effects of the failure are exactly one [revokeObjectURL] of the URL
    (the timeout callback itself revokes only the cleared [src]).  A
    mounted component then shows the failure: no element, the load error
    set, loading off, export not possible; an unmounted one keeps its
    state. *)
Theorem failed_load_releases_object_url (side : Side) (url : string)
    (e : LoadFailure) (p : PendingLoad) (st : CombinerState) :
  url <> "" ->
  let r := loadMediaEffect_settled side (Some url) (rejected e) st in
  snd r = [revokeObjectURL url]
  /\ snd (loadLogoEffect_settled (Some url) (rejected e) st) = [revokeObjectURL url]
  /\ (pSrc p = url -> ~ In (revokeObjectURL url) (fst (onTimeout p)))
  /\ (isMounted st = true ->
      sElement (getSlot side (fst r)) = None
      /\ sLoadError (getSlot side (fst r)) = Some "Error loading media."
      /\ sLoading (getSlot side (fst r)) = false
      /\ canSaveComposite (fst r) = false)
  /\ (isMounted st = false -> fst r = st).
Proof.
  intros Hurl r.
  split; [|split; [|split; [|split]]].
  - unfold r, loadMediaEffect_settled. destruct (isMounted st); apply revokeTemp_some, Hurl.
  - unfold loadLogoEffect_settled. destruct (isMounted st); apply revokeTemp_some, Hurl.
  - intros Ep Hin. unfold onTimeout in Hin. cbn [fst] in Hin.
    rewrite !in_app_iff in Hin.
    assert (Hno : forall s, In (revokeObjectURL url) [setElementSrc s] -> False).
    { intros s [E|[]]. discriminate E. }
    destruct Hin as [Hin | [Hin | Hin]].
    + destruct (_ && _).
      * destruct Hin as [E | [E | []]]; [discriminate E|].
        injection E as E. apply Hurl. symmetry. exact E.
      * exact (Hno _ Hin).
    + destruct (pType p); [destruct Hin | destruct Hin as [E|[]]; discriminate E].
    + destruct Hin as [E|[]]. discriminate E.
  - intros Hm.
    assert (He : sElement (getSlot side (fst r)) = None).
    { unfold r, loadMediaEffect_settled. rewrite Hm. destruct side; reflexivity. }
    split; [exact He|]. split; [|split; [|exact (canSave_needs_element _ _ He)]].
    + unfold r, loadMediaEffect_settled. rewrite Hm. destruct side; reflexivity.
    + unfold r, loadMediaEffect_settled. rewrite Hm. destruct side; reflexivity.
  - intros Hm. unfold r, loadMediaEffect_settled. rewrite Hm. reflexivity.
Qed.

Lemma failed_load_releases_object_url_witness :
  let r := loadMediaEffect_settled Right (Some "blob:4f2a")
             (rejected (loadTimeout (Slot Right))) scenarioB in
  "blob:4f2a" <> ""
  /\ snd r = [revokeObjectURL "blob:4f2a"]
  /\ ~ In (revokeObjectURL "blob:4f2a")
         (fst (onTimeout {| pSide := Slot Right; pType := image;
                            pSrc := "blob:4f2a"; pTimeout := 20000 |}))
  /\ canSaveComposite (fst r) = false.
Proof.
  intros r.
  assert (Hne : "blob:4f2a" <> "") by discriminate.
  destruct (@failed_load_releases_object_url Right "blob:4f2a"
              (loadTimeout (Slot Right))
              {| pSide := Slot Right; pType := image; pSrc := "blob:4f2a";
                 pTimeout := 20000 |} scenarioB Hne)
    as [Hrev [_ [Hto [Hm _]]]].
  destruct (Hm eq_refl) as [_ [_ [_ Hcan]]].
  exact (conj Hne (conj Hrev (conj (Hto eq_refl) Hcan))).
Defined.



(** X14. Choosing a new file for a slot whose element was loaded from an
    object URL releases that URL, drops the element, turns loading on,
    stores the new data URL with no load error and hands it to the fetch.
    The element having changed, the cleanup of the mount effect then
    revokes the object URLs of the three elements the component held:
    that URL once more, and the URL of the other slot's element although
    that element stays in its slot.  Right after the choice the export
    precondition does not hold. *)
Theorem new_file_releases_previous_url (Math_sqrt : number -> number) (side : Side)
    (fileType dataUrl : string) (t : MediaType) (el : MediaElement) (a : App) :
  detectType fileType = Some t ->
  dataUrl <> "" ->
  sMedia (getSlot side (combiner a)) <> Some dataUrl ->
  sElement (getSlot side (combiner a)) = Some el ->
  isBlobUrl (element_src el) = true ->
  let st := combiner a in
  let r := onFileSelect side fileType (Some dataUrl) st in
  let st' := combiner (step Math_sqrt a (FileSelected side fileType (Some dataUrl))) in
  st' = fst (fst r)
  /\ snd (fst r) = [revokeObjectURL (element_src el)]
  /\ snd r = Some (dataUrl, t)
  /\ stepCleanup Math_sqrt a (FileSelected side fileType (Some dataUrl))
     = mountEffectCleanup st
  /\ In (revokeObjectURL (element_src el)) (mountEffectCleanup st)
  /\ (forall other,
        sElement (getSlot (otherSide side) st) = Some other ->
        isBlobUrl (element_src other) = true ->
        In (revokeObjectURL (element_src other)) (mountEffectCleanup st)
        /\ sElement (getSlot (otherSide side) st') = Some other)
  /\ sElement (getSlot side st') = None
  /\ sLoading (getSlot side st') = true
  /\ sMedia (getSlot side st') = Some dataUrl
  /\ sLoadError (getSlot side st') = None
  /\ canSaveComposite st' = false.
Proof.
  intros Ht Hurl Hnew Hel Hblob st r st'.
  assert (Est : st' = fst (fst r)) by reflexivity.
  assert (Es : st = combiner a) by reflexivity.
  rewrite <- Es in Hnew, Hel.
  assert (Eq : optStringEq (sMedia (getSlot side st)) (Some dataUrl) = false).
  { destruct (sMedia (getSlot side st)) as [m|]; [|reflexivity]. cbn.
    destruct (String.eqb_spec m dataUrl) as [->|]; [|reflexivity].
    exfalso. apply Hnew. reflexivity. }
  assert (Er : r = loadMediaEffect_start (Some dataUrl) (Some t) side
                     (setSlot side (setLoadError None
                        (setMedia (Some dataUrl) (Some t) (getSlot side st))) st)).
  { unfold r, onFileSelect. rewrite Ht, Eq. reflexivity. }
  assert (Ee : sElement (getSlot side (setSlot side (setLoadError None
                  (setMedia (Some dataUrl) (Some t) (getSlot side st))) st)) = Some el).
  { destruct side; cbn; exact Hel. }
  assert (Efx : snd (fst r) = [revokeObjectURL (element_src el)]).
  { rewrite Er. unfold loadMediaEffect_start.
    destruct (String.eqb_spec dataUrl ""); [contradiction|].
    cbn [fst snd]. rewrite Ee. cbn [cleanupObjectURL]. rewrite Hblob. reflexivity. }
  assert (Est' : fst (fst r)
                 = setSaveError None
                     (setSlot side
                        (resetFocusZoom
                           (setLoadError None
                              (setMediaElement None
                                 (setLoading true
                                    (setLoadError None
                                       (setMedia (Some dataUrl) (Some t) (getSlot side st)))))))
                        (setSlot side (setLoadError None
                           (setMedia (Some dataUrl) (Some t) (getSlot side st))) st))).
  { rewrite Er. unfold loadMediaEffect_start.
    destruct (String.eqb_spec dataUrl ""); [contradiction|].
    destruct side; reflexivity. }
  assert (He : sElement (getSlot side st') = None).
  { rewrite Est, Est'. destruct side; reflexivity. }
  assert (Hchanged : elementsChanged Math_sqrt a (FileSelected side fileType (Some dataUrl))
                     = true).
  { unfold elementsChanged. fold st'. rewrite <- Es, Hel, He. reflexivity. }
  split; [exact Est|]. split; [exact Efx|].
  split.
  { rewrite Er. unfold loadMediaEffect_start.
    destruct (String.eqb_spec dataUrl ""); [contradiction | reflexivity]. }
  split.
  { unfold stepCleanup. rewrite Hchanged. reflexivity. }
  split.
  { unfold mountEffectCleanup, leftMediaElement, rightMediaElement.
    destruct side; cbn [getSlot] in Hel; rewrite Hel; cbn [cleanupObjectURL];
      rewrite Hblob; rewrite ?in_app_iff; cbn [In]; tauto. }
  split.
  { intros other Hother Hob. split.
    - unfold mountEffectCleanup, leftMediaElement, rightMediaElement.
      destruct side; cbn [getSlot otherSide] in Hother; rewrite Hother;
        cbn [cleanupObjectURL]; rewrite Hob; rewrite ?in_app_iff; cbn [In]; tauto.
    - rewrite Est, Est'. destruct side; cbn [otherSide] in *; exact Hother. }
  split; [exact He|].
  split; [rewrite Est, Est'; destruct side; reflexivity|].
  split; [rewrite Est, Est'; destruct side; reflexivity|].
  split; [rewrite Est, Est'; destruct side; reflexivity|].
  exact (canSave_needs_element _ _ He).
Qed.

Lemma new_file_releases_previous_url_witness :
  let a := {| combiner := scenarioA; gesture := initialGesture |} in
  let dataUrl := "data:image/jpeg;base64,/9j/4AAQ" in
  let st := combiner a in
  let r := onFileSelect Left "image/jpeg" (Some dataUrl) st in
  let st' := combiner (step sqrtSquares a (FileSelected Left "image/jpeg" (Some dataUrl))) in
  st' = fst (fst r)
  /\ snd (fst r) = [revokeObjectURL (element_src (Image (imageOf 800 600 "blob:left")))]
  /\ snd r = Some (dataUrl, image)
  /\ stepCleanup sqrtSquares a (FileSelected Left "image/jpeg" (Some dataUrl))
     = mountEffectCleanup st
  /\ In (revokeObjectURL (element_src (Image (imageOf 800 600 "blob:left"))))
        (mountEffectCleanup st)
  /\ (forall other,
        sElement (getSlot (otherSide Left) st) = Some other ->
        isBlobUrl (element_src other) = true ->
        In (revokeObjectURL (element_src other)) (mountEffectCleanup st)
        /\ sElement (getSlot (otherSide Left) st') = Some other)
  /\ sElement (getSlot Left st') = None
  /\ sLoading (getSlot Left st') = true
  /\ sMedia (getSlot Left st') = Some dataUrl
  /\ sLoadError (getSlot Left st') = None
  /\ canSaveComposite st' = false.
Proof.
  intros a dataUrl.
  apply (@new_file_releases_previous_url sqrtSquares Left "image/jpeg" dataUrl image
           (Image (imageOf 800 600 "blob:left")) a);
    [reflexivity | discriminate | vm_compute; discriminate | reflexivity | reflexivity].
Defined.

(** X15. Choosing again the file a slot already holds starts no load:
    nothing is released or fetched, and the element, the view and the
    loading flag are kept. *)
Theorem same_file_is_not_reloaded (side : Side) (fileType dataUrl : string)
    (t : MediaType) (st : CombinerState) :
  detectType fileType = Some t ->
  sMedia (getSlot side st) = Some dataUrl ->
  sMediaType (getSlot side st) = Some t ->
  let r := onFileSelect side fileType (Some dataUrl) st in
  snd (fst r) = [] /\ snd r = None
  /\ sElement (getSlot side (fst (fst r))) = sElement (getSlot side st)
  /\ sZoom (getSlot side (fst (fst r))) = sZoom (getSlot side st)
  /\ sFocus (getSlot side (fst (fst r))) = sFocus (getSlot side st)
  /\ sLoading (getSlot side (fst (fst r))) = sLoading (getSlot side st)
  /\ canSaveComposite (fst (fst r)) = canSaveComposite st.
Proof.
  intros Ht Hm Hty r. unfold r, onFileSelect. rewrite Ht, Hm, Hty.
  cbn [optStringEq]. rewrite String.eqb_refl.
  assert (Et : optTypeEq (Some t) (Some t) = true) by (destruct t; reflexivity).
  rewrite Et. cbn [andb fst snd].
  destruct side; cbn; repeat split.
Qed.

Lemma same_file_is_not_reloaded_witness :
  let r := onFileSelect Left "image/png" (Some "data:image/png;base64,iVBORw0KGgo=")
             zoomedLeft in
  snd (fst r) = [] /\ snd r = None
  /\ sElement (getSlot Left (fst (fst r))) = sElement (getSlot Left zoomedLeft)
  /\ sZoom (getSlot Left (fst (fst r))) = sZoom (getSlot Left zoomedLeft)
  /\ sFocus (getSlot Left (fst (fst r))) = sFocus (getSlot Left zoomedLeft)
  /\ sLoading (getSlot Left (fst (fst r))) = sLoading (getSlot Left zoomedLeft)
  /\ canSaveComposite (fst (fst r)) = canSaveComposite zoomedLeft.
Proof.
  apply (@same_file_is_not_reloaded Left "image/png"
           "data:image/png;base64,iVBORw0KGgo=" image zoomedLeft);
    reflexivity.
Defined.

(** ** Export *)

Lemma saveCompositeImage_run (container : option Container) (getContext : bool)
    (st : CombinerState) (l r : HTMLImageElement) :
  canSaveComposite st = true ->
  leftMediaElement st = Some (Image l) ->
  rightMediaElement st = Some (Image r) ->
  let width := (2 * Z.max (Z.max (naturalWidth l) (naturalWidth r)) 500)%Z in
  let height := Qceiling (inject_Z width / containerAspect container) in
  let st1 := setSaveError None (setIsSaving true st) in
  (1000 <= width)%Z /\ (1 <= height)%Z
  /\ saveCompositeImage container getContext st
     = if getContext
       then (st1,
             createCanvas (ofZ width) (ofZ height)
             :: map ctx
                  ([fillStyle "#ffffff"; fillRect n0 n0 (ofZ width) (ofZ height)]
                   ++ drawFinalMedia l Left (ofZ width) (ofZ height)
                        (leftZoom st) (leftRelativeFocus st)
                   ++ drawFinalMedia r Right (ofZ width) (ofZ height)
                        (rightZoom st) (rightRelativeFocus st)
                   ++ match logoElement (logoSlot st) with
                      | Some img =>
                          drawFinalLogo img (ofZ width) (ofZ height)
                            (logoZoom (logoSlot st)) (logoPosition (logoSlot st))
                      | None => []
                      end)
             ++ [toBlob "image/png" (Fin (19 # 20))])
       else if isMounted st
       then (setIsSaving false (setSaveError (Some (saveFailed noContext2d)) st1),
             [createCanvas (ofZ width) (ofZ height)])
       else (st1, [createCanvas (ofZ width) (ofZ height)]).
Proof.
  intros Hcan El Er width height st1.
  destruct (exportSize container (naturalWidth l) (naturalWidth r))
    as [EW [EH [Hwidth Hheight]]].
  fold width in EW, EH, Hwidth, Hheight. fold height in EH, Hheight.
  split; [exact Hwidth|]. split; [exact Hheight|].
  unfold saveCompositeImage. rewrite Hcan, El, Er. cbn [negb].
  rewrite EH, EW. unfold ofZ at 1 3. cbn [Number_isFinite negb orb].
  fold (ofZ width). fold (ofZ height).
  rewrite !ofZ_le0.
  destruct (Z.leb_spec width 0); [lia|].
  destruct (Z.leb_spec height 0); [lia|].
  destruct getContext; cbn [negb]; reflexivity.
Qed.

(** X16. When the download button is enabled, a click exports: the error
    is cleared and saving turned on (which disables the button until the
    blob callback), a canvas of at least 1000 x 1 pixels is created and
    first filled white over its whole area, and the last effect is the
    PNG encoding; the check of the final dimensions never fails, with or
    without a 2D context. *)
Theorem enabled_download_exports (container : option Container) (st : CombinerState) :
  downloadDisabled st = false ->
  let r := saveCompositeImage container true st in
  fst r = setSaveError None (setIsSaving true st)
  /\ downloadDisabled (fst r) = true
  /\ (exists (w h : Z) (calls : list CanvasCall),
        (1000 <= w)%Z /\ (1 <= h)%Z
        /\ snd r = createCanvas (ofZ w) (ofZ h)
                   :: map ctx (fillStyle "#ffffff"
                               :: fillRect n0 n0 (ofZ w) (ofZ h) :: calls)
                   ++ [toBlob "image/png" (Fin (19 # 20))])
  /\ forall getContext w h,
       saveError (fst (saveCompositeImage container getContext st))
       <> Some (saveFailed (invalidFinalDimensions w h)).
Proof.
  intros Hd r. unfold downloadDisabled in Hd.
  apply orb_false_iff in Hd. destruct Hd as [Hd _].
  apply orb_false_iff in Hd. destruct Hd as [Hcan _].
  apply negb_false_iff in Hcan.
  destruct (canSave_images st Hcan) as [l [rr [El [Er _]]]].
  assert (Hrun := fun g => saveCompositeImage_run container g st Hcan El Er).
  cbv zeta in Hrun.
  destruct (Hrun true) as [Hw [Hh E]]. unfold r. rewrite E. cbn [fst snd].
  split; [reflexivity|]. split.
  { unfold downloadDisabled. cbn [isSaving setSaveError setIsSaving].
    rewrite orb_true_r. reflexivity. }
  split.
  { eexists _, _, _. split; [exact Hw|]. split; [exact Hh|]. reflexivity. }
  intros getContext w h. destruct (Hrun getContext) as [_ [_ E']]. rewrite E'.
  destruct getContext; [cbn; discriminate|].
  destruct (isMounted st); cbn; discriminate.
Qed.

Lemma enabled_download_exports_witness :
  let container := Some {| offsetWidth := 640; offsetHeight := 360 |} in
  let r := saveCompositeImage container true scenarioA in
  downloadDisabled scenarioA = false
  /\ fst r = setSaveError None (setIsSaving true scenarioA)
  /\ downloadDisabled (fst r) = true
  /\ canvasSize (snd r) = Some (Fin 2400, Fin 1350).
Proof.
  intros container r.
  assert (Hd : downloadDisabled scenarioA = false) by reflexivity.
  destruct (enabled_download_exports container scenarioA Hd) as [Hst [Hdis _]].
  assert (Hsize : canvasSize (snd r) = Some (Fin 2400, Fin 1350))
    by (vm_compute; reflexivity).
  exact (conj Hd (conj Hst (conj Hdis Hsize))).
Defined.

(** X17. Exporting never changes the picture: whatever the outcome, the
    export and its blob callback keep both slots and the logo (sources,
    elements, zooms, focus, position) and the mounted flag; only the
    saving flag and the save error change. *)
Theorem export_keeps_the_view (container : option Container) (getContext : bool)
    (blob : option string) (st : CombinerState) :
  let st1 := fst (saveCompositeImage container getContext st) in
  let st2 := fst (saveCompositeImage_onBlob blob st) in
  (leftSlot st1 = leftSlot st /\ rightSlot st1 = rightSlot st
   /\ logoSlot st1 = logoSlot st /\ isMounted st1 = isMounted st)
  /\ (leftSlot st2 = leftSlot st /\ rightSlot st2 = rightSlot st
      /\ logoSlot st2 = logoSlot st /\ isMounted st2 = isMounted st).
Proof.
  intros st1 st2. split.
  - unfold st1, saveCompositeImage.
    destruct (negb (canSaveComposite st)); [repeat split|].
    destruct (leftMediaElement st) as [[l|v]|]; try (repeat split; fail).
    destruct (rightMediaElement st) as [[r|v]|]; try (repeat split; fail).
    cbv zeta. cbn [isMounted setSaveError setIsSaving].
    destruct (_ || _).
    + destruct (isMounted st) eqn:Em; repeat split; exact Em.
    + destruct (negb getContext); [destruct (isMounted st) eqn:Em|];
        repeat split; exact Em.
  - unfold st2, saveCompositeImage_onBlob.
    destruct blob, (isMounted st) eqn:Em; repeat split; exact Em.
Qed.

Lemma le_Fin (p q : Q) : (Fin p <=? Fin q)%js = true <-> (p <= q)%Q.
Proof. unfold le. apply Qle_bool_iff. Qed.

(** What [clamp] into [[0, max(0, u)]] gives, in the comparisons of the
    source. *)
Lemma clampInto_bounds (v u : Q) :
  exists r, clamp (Fin v) n0 (Math_max n0 (Fin u)) = Fin r
    /\ (n0 <=? Fin r)%js = true
    /\ (Fin r <=? Math_max n0 (Fin u))%js = true
    /\ ((0 <= u)%Q -> (Fin r <=? Fin u)%js = true).
Proof.
  unfold clamp, Math_max, Math_min, lt, le, n0.
  qcases; qbool; eexists; (split; [reflexivity |]); simpl;
    repeat split; intros; qbool; lra.
Qed.

(** [clamp] into [[0, max(0, u)]] leaves a value of [[0, u]] as it is. *)
Lemma clampInto_fixes (v u : number) :
  (n0 <=? v)%js = true -> (v <=? u)%js = true ->
  clamp v n0 (Math_max n0 u) = v.
Proof.
  unfold clamp, Math_max, Math_min, lt, le, n0.
  destruct v as [p| | |], u as [q| | |]; simpl; try discriminate; try reflexivity.
  - intros H1 H2. qbool. qcases; qbool; try reflexivity; exfalso; lra.
  - intros H1 _. qbool. qcases; qbool; try reflexivity; exfalso; lra.
Qed.

(** X18. The logo of an export, for a logo image of positive size, a
    positive output size and a positive logo zoom, is drawn once, with a
    positive width and height; its top-left corner is never negative and
    never beyond [max(0, output size - logo size)] as the exporter
    computes it, so that the corner of a logo that is no larger than the
    output is at most the output size less the logo size. *)
Theorem export_logo_inside_canvas (img : HTMLImageElement) (W H zq px py : Q) :
  (0 < naturalWidth img)%Z -> (0 < naturalHeight img)%Z ->
  (0 < W)%Q -> (0 < H)%Q -> (0 < zq)%Q ->
  exists dx dy tw th : number,
    drawFinalLogo img (Fin W) (Fin H) (Fin zq) {| x := Fin px; y := Fin py |}
    = [drawImageAt (Image img) dx dy tw th]
    /\ (tw >? n0)%js = true /\ (th >? n0)%js = true
    /\ (n0 <=? dx)%js = true /\ (dx <=? Math_max n0 (Fin W - tw))%js = true
    /\ (n0 <=? dy)%js = true /\ (dy <=? Math_max n0 (Fin H - th))%js = true
    /\ ((tw <=? Fin W)%js = true -> (dx <=? Fin W - tw)%js = true)
    /\ ((th <=? Fin H)%js = true -> (dy <=? Fin H - th)%js = true).
Proof.
  intros Hw Hh HW HH Hz.
  assert (Hnw : (0 < inject_Z (naturalWidth img))%Q) by (apply inject_Z_pos; exact Hw).
  assert (Hnh : (0 < inject_Z (naturalHeight img))%Q) by (apply inject_Z_pos; exact Hh).
  unfold drawFinalLogo, ofZ.
  revert Hnw Hnh. generalize (inject_Z (naturalWidth img)) (inject_Z (naturalHeight img)).
  intros nw nh Hnw Hnh.
  unfold n100, n2. cbn [x y].
  rewrite (div_pos nh Hnw). unfold fin. cbn [isNaN mul]. unfold fin.
  rewrite !div_pos by lra. unfold fin. cbn [mul sub add neg fin]. unfold fin.
  set (tw := Qred (Qred (W * zq) / 100)).
  set (th := Qred (tw * Qred (nh / nw))).
  rewrite !div_pos by lra. unfold fin. cbn [sub add neg fin]. unfold fin.
  assert (Ptw : (0 < tw)%Q).
  { unfold tw. rewrite !Qred_correct. apply Qdiv_pos; [nra | lra]. }
  assert (Pth : (0 < th)%Q).
  { unfold th. rewrite !Qred_correct.
    assert (P : (0 < nh / nw)%Q) by (apply Qdiv_pos; assumption). nra. }
  match goal with
  | |- context [clamp (Fin ?v) n0 (Math_max n0 (Fin ?u))] =>
      destruct (clampInto_bounds v u) as (dx & Edx & Hdx0 & Hdxm & Hdxu)
  end.
  rewrite Edx.
  match goal with
  | |- context [clamp (Fin ?v) n0 (Math_max n0 (Fin ?u))] =>
      destruct (clampInto_bounds v u) as (dy & Edy & Hdy0 & Hdym & Hdyu)
  end.
  rewrite Edy.
  assert (G1 : gt (Fin tw) n0 = true) by (apply gt0_Fin; exact Ptw).
  assert (G2 : gt (Fin th) n0 = true) by (apply gt0_Fin; exact Pth).
  rewrite G1, G2. cbn [andb].
  exists (Fin dx), (Fin dy), (Fin tw), (Fin th).
  split; [reflexivity|]. split; [exact G1|]. split; [exact G2|].
  cbn [sub add neg fin]. unfold fin.
  split; [exact Hdx0|]. split; [exact Hdxm|]. split; [exact Hdy0|]. split; [exact Hdym|].
  split.
  - intros Hle. apply le_Fin in Hle. apply Hdxu. rewrite !Qred_correct. lra.
  - intros Hle. apply le_Fin in Hle. apply Hdyu. rewrite !Qred_correct. lra.
Qed.

Lemma export_logo_inside_canvas_witness :
  exists dx dy tw th : number,
    drawFinalLogo (imageOf 200 100 "blob:logo") (Fin 2400) (Fin 1350) (Fin 10)
      {| x := Fin 50; y := Fin 90 |}
    = [drawImageAt (Image (imageOf 200 100 "blob:logo")) dx dy tw th]
    /\ (tw >? n0)%js = true /\ (th >? n0)%js = true
    /\ (n0 <=? dx)%js = true /\ (dx <=? Math_max n0 (Fin 2400 - tw))%js = true
    /\ (n0 <=? dy)%js = true /\ (dy <=? Math_max n0 (Fin 1350 - th))%js = true
    /\ ((tw <=? Fin 2400)%js = true -> (dx <=? Fin 2400 - tw)%js = true)
    /\ ((th <=? Fin 1350)%js = true -> (dy <=? Fin 1350 - th)%js = true).
Proof.
  apply (@export_logo_inside_canvas (imageOf 200 100 "blob:logo") 2400 1350 10 50 90);
    reflexivity.
Defined.

(** X19. At the size of the preview container the exporter draws the
    logo box of the preview: the logo of an export on a canvas of the
    container's size has the width and the height of the box
    [getLogoStyle] gives the preview, and its top-left corner is that of
    the box clamped into the canvas, which is the corner of the box
    itself whenever the box lies inside the container.  The preview does
    not clamp: a box that sticks out of the container is drawn inside
    the export. *)
Theorem export_logo_is_clamped_preview_box (c : Container) (img : HTMLImageElement)
    (st : CombinerState) :
  logoElement (logoSlot st) = Some img ->
  (0 < naturalWidth img)%Z -> (0 < naturalHeight img)%Z ->
  (0 < offsetWidth c)%Z -> (0 < offsetHeight c)%Z ->
  let cw := ofZ (offsetWidth c) in
  let ch := ofZ (offsetHeight c) in
  exists l t w h : number,
    getLogoStyle (Some c) st = logoBox l t w h
    /\ drawFinalLogo img cw ch (logoZoom (logoSlot st)) (logoPosition (logoSlot st))
       = (if (w >? n0)%js && (h >? n0)%js
          then [drawImageAt (Image img)
                  (clamp l n0 (Math_max n0 (cw - w)%js))
                  (clamp t n0 (Math_max n0 (ch - h)%js)) w h]
          else [])
    /\ ((n0 <=? l)%js = true -> (l <=? cw - w)%js = true ->
        clamp l n0 (Math_max n0 (cw - w)%js) = l)
    /\ ((n0 <=? t)%js = true -> (t <=? ch - h)%js = true ->
        clamp t n0 (Math_max n0 (ch - h)%js) = t).
Proof.
  intros El Hw Hh Hcw Hch cw ch.
  unfold getLogoStyle. rewrite El.
  destruct (Z.leb_spec (naturalWidth img) 0); [lia|].
  destruct (Z.leb_spec (naturalHeight img) 0); [lia|].
  rewrite !ofZ_le0.
  destruct (Z.leb_spec (offsetWidth c) 0); [lia|].
  destruct (Z.leb_spec (offsetHeight c) 0); [lia|].
  cbn [orb]. cbv zeta. unfold drawFinalLogo. fold cw ch.
  eexists _, _, _, _. split; [reflexivity|]. split; [reflexivity|].
  split; apply clampInto_fixes.
Qed.

Lemma export_logo_is_clamped_preview_box_witness :
  let c := {| offsetWidth := 640; offsetHeight := 360 |} in
  let cw := ofZ (offsetWidth c) in
  let ch := ofZ (offsetHeight c) in
  exists l t w h : number,
    getLogoStyle (Some c) withLogo = logoBox l t w h
    /\ drawFinalLogo (imageOf 200 100 "blob:logo") cw ch
         (logoZoom (logoSlot withLogo)) (logoPosition (logoSlot withLogo))
       = (if (w >? n0)%js && (h >? n0)%js
          then [drawImageAt (Image (imageOf 200 100 "blob:logo"))
                  (clamp l n0 (Math_max n0 (cw - w)%js))
                  (clamp t n0 (Math_max n0 (ch - h)%js)) w h]
          else [])
    /\ ((n0 <=? l)%js = true -> (l <=? cw - w)%js = true ->
        clamp l n0 (Math_max n0 (cw - w)%js) = l)
    /\ ((n0 <=? t)%js = true -> (t <=? ch - h)%js = true ->
        clamp t n0 (Math_max n0 (ch - h)%js) = t).
Proof.
  apply (@export_logo_is_clamped_preview_box
           {| offsetWidth := 640; offsetHeight := 360 |}
           (imageOf 200 100 "blob:logo") withLogo);
    reflexivity.
Defined.

(** ** The layer store *)

Lemma existsb_eqb_In (i : string) (l : list string) :
  existsb (fun layerId => layerId =? i)%string l = true <-> In i l.
Proof.
  rewrite existsb_exists. split.
  - intros [y [Hy E]]. apply String.eqb_eq in E. subst y. exact Hy.
  - intros H. exists i. split; [exact H | apply String.eqb_refl].
Qed.

Lemma slice_last_app (A : Type) (n : nat) (l : list A) :
  exists dropped, dropped ++ LayerStore.slice_last n l = l
                  /\ List.length (LayerStore.slice_last n l) = Nat.min n (List.length l).
Proof.
  unfold LayerStore.slice_last. exists (firstn (List.length l - n) l).
  split; [apply firstn_skipn|]. rewrite length_skipn. lia.
Qed.

(** X20. Toggling a layer in the comparison flips its membership and
    keeps at most the two most recent: an id that is compared is removed
    (the others stay, in order), an id that is not is appended and only
    the last two ids are kept; comparison mode is on exactly when an id is
    left; the layers and the active layer are not touched. *)
Theorem toggle_compared_layer_keeps_last_two (i : string) (state : LayerStore.State) :
  let state' := LayerStore.toggleComparedLayer i state in
  let before := LayerStore.comparedLayers state in
  let after := LayerStore.comparedLayers state' in
  (In i before ->
   ~ In i after
   /\ after = filter (fun layerId => negb (layerId =? i)%string) before
   /\ (List.length after < List.length before)%nat)
  /\ (~ In i before ->
      (exists dropped, dropped ++ after = before ++ [i])
      /\ List.length after = Nat.min 2 (S (List.length before))
      /\ In i after)
  /\ (LayerStore.layerComparisonMode state' = true <-> after <> [])
  /\ LayerStore.layers state' = LayerStore.layers state
  /\ LayerStore.activeLayer state' = LayerStore.activeLayer state.
Proof.
  intros state' before after.
  split; [|split; [|split; [|split; reflexivity]]].
  - intros Hin.
    assert (E : after = filter (fun layerId => negb (layerId =? i)%string) before).
    { unfold after, state', LayerStore.toggleComparedLayer. fold before.
      rewrite (proj2 (existsb_eqb_In i before) Hin). reflexivity. }
    split; [|split; [exact E|]].
    + rewrite E. intros H. apply filter_In in H. destruct H as [_ H].
      rewrite String.eqb_refl in H. discriminate H.
    + rewrite E. clear E. induction before as [|b rest IH]; [destruct Hin|].
      cbn [filter]. destruct (String.eqb_spec b i) as [->|Hne]; cbn [negb].
      * pose proof (filter_length_le (fun layerId => negb (layerId =? i)%string) rest).
        cbn [List.length]. lia.
      * destruct Hin as [Hin|Hin]; [contradiction|].
        cbn [List.length]. apply IH in Hin. lia.
  - intros Hnot.
    assert (E : after = LayerStore.slice_last 2 (before ++ [i])).
    { unfold after, state', LayerStore.toggleComparedLayer. fold before.
      destruct (existsb _ before) eqn:Ex; [|reflexivity].
      apply existsb_eqb_In in Ex. contradiction. }
    destruct (slice_last_app 2 (before ++ [i])) as [dropped [Ed El]].
    rewrite <- E in Ed, El. rewrite length_app in El. cbn [List.length] in El.
    split; [exists dropped; exact Ed|]. split; [lia|].
    assert (Hlast : In i (dropped ++ after)) by (rewrite Ed, in_app_iff; right; left; reflexivity).
    apply in_app_iff in Hlast. destruct Hlast as [Hd|Ha]; [|exact Ha].
    exfalso.
    assert (Hlen : (List.length dropped + List.length after
                    = List.length before + 1)%nat).
    { rewrite <- length_app, Ed, length_app. reflexivity. }
    assert (Hpre : exists tail, before = dropped ++ tail).
    { assert (Hlt : (List.length dropped <= List.length before)%nat) by lia.
      exists (skipn (List.length dropped) before).
      assert (F : firstn (List.length dropped) (before ++ [i]) = dropped).
      { rewrite <- Ed. rewrite firstn_app, Nat.sub_diag, firstn_all. cbn.
        apply app_nil_r. }
      rewrite firstn_app in F.
      replace (List.length dropped - List.length before)%nat with 0%nat in F by lia.
      cbn in F. rewrite app_nil_r in F.
      rewrite <- (firstn_skipn (List.length dropped) before) at 1.
      rewrite F. reflexivity. }
    destruct Hpre as [tail Et]. apply Hnot. rewrite Et, in_app_iff. left. exact Hd.
  - unfold state', LayerStore.toggleComparedLayer. cbn [LayerStore.withCompared
      LayerStore.layerComparisonMode]. fold before.
    unfold after, state', LayerStore.toggleComparedLayer.
    cbn [LayerStore.withCompared LayerStore.comparedLayers]. fold before.
    destruct (if existsb _ before then _ else _) as [|c rest]; cbn.
    + split; [discriminate | intros H; contradiction H; reflexivity].
    + split; [discriminate | reflexivity].
Qed.

(** X21. Removing a layer removes every layer of that id and nothing
    else, keeping the order of the others; removing a layer that was just
    added under a fresh id gives back the layers as they were; the active
    layer and the compared ids are not updated by the removal. *)
Theorem remove_layer_removes_only_that_id (i : string) (new : LayerStore.Layer)
    (state : LayerStore.State) :
  let state' := LayerStore.removeLayer i state in
  (forall l, In l (LayerStore.layers state')
             <-> In l (LayerStore.layers state) /\ LayerStore.id l <> i)
  /\ (exists keep : LayerStore.Layer -> bool,
        LayerStore.layers state' = filter keep (LayerStore.layers state))
  /\ ((forall l, In l (LayerStore.layers state)
                 -> LayerStore.id l <> LayerStore.id new) ->
      LayerStore.layers
        (LayerStore.removeLayer (LayerStore.id new) (LayerStore.addLayer new state))
      = LayerStore.layers state)
  /\ LayerStore.activeLayer state' = LayerStore.activeLayer state
  /\ LayerStore.comparedLayers state' = LayerStore.comparedLayers state.
Proof.
  intros state'. split; [|split; [|split; [|split; reflexivity]]].
  - intros l. unfold state', LayerStore.removeLayer. cbn [LayerStore.withLayers
      LayerStore.layers]. rewrite filter_In. split; intros [H1 H2]; split; try exact H1.
    + intros E. rewrite E, String.eqb_refl in H2. discriminate H2.
    + destruct (String.eqb_spec (LayerStore.id l) i); [contradiction | reflexivity].
  - eexists. reflexivity.
  - intros Hfresh. unfold LayerStore.removeLayer, LayerStore.addLayer.
    cbn [LayerStore.withLayers LayerStore.layers].
    rewrite filter_app. cbn [filter]. rewrite String.eqb_refl. cbn [negb].
    rewrite app_nil_r.
    induction (LayerStore.layers state) as [|l rest IH]; [reflexivity|].
    cbn [filter].
    destruct (String.eqb_spec (LayerStore.id l) (LayerStore.id new)) as [E|_].
    + exfalso. apply (Hfresh l); [left; reflexivity | exact E].
    + cbn [negb]. f_equal. apply IH. intros l' Hl'. apply Hfresh. right. exact Hl'.
Qed.

(** X22. Updating a layer, setting a poster and setting a transcription
    keep the number, the order and the ids of the layers; a poster or a
    transcription changes only that field, and only in the layers of the
    given id; setting a poster and setting a transcription commute. *)
Theorem layer_updates_keep_ids (layer : LayerStore.Layer)
    (i j posterUrl transcriptionURL : string) (state : LayerStore.State) :
  map LayerStore.id (LayerStore.layers (LayerStore.updateLayer layer state))
  = map LayerStore.id (LayerStore.layers state)
  /\ map LayerStore.id (LayerStore.layers (LayerStore.setPoster i posterUrl state))
     = map LayerStore.id (LayerStore.layers state)
  /\ map LayerStore.id
       (LayerStore.layers (LayerStore.setTranscription i transcriptionURL state))
     = map LayerStore.id (LayerStore.layers state)
  /\ (forall l, In l (LayerStore.layers (LayerStore.setPoster i posterUrl state)) ->
                LayerStore.id l = i -> LayerStore.poster l = Some posterUrl)
  /\ (forall l, In l (LayerStore.layers state) -> LayerStore.id l <> i ->
                In l (LayerStore.layers (LayerStore.setPoster i posterUrl state)))
  /\ map LayerStore.transcriptionURL
       (LayerStore.layers (LayerStore.setPoster i posterUrl state))
     = map LayerStore.transcriptionURL (LayerStore.layers state)
  /\ LayerStore.setPoster i posterUrl
       (LayerStore.setTranscription j transcriptionURL state)
     = LayerStore.setTranscription j transcriptionURL
         (LayerStore.setPoster i posterUrl state).
Proof.
  unfold LayerStore.updateLayer, LayerStore.setPoster, LayerStore.setTranscription.
  cbn [LayerStore.withLayers LayerStore.layers LayerStore.activeLayer
       LayerStore.layerComparisonMode LayerStore.comparedLayers LayerStore.combinerMode
       LayerStore.isToolsSidebarOpen LayerStore.isLayersSidebarOpen].
  split; [|split; [|split; [|split; [|split; [|split]]]]].
  - rewrite map_map. apply map_ext_in. intros l _.
    destruct (String.eqb_spec (LayerStore.id l) (LayerStore.id layer)) as [E|_];
      [symmetry; exact E | reflexivity].
  - rewrite map_map. apply map_ext. intros l.
    destruct (LayerStore.id l =? i)%string; reflexivity.
  - rewrite map_map. apply map_ext. intros l.
    destruct (LayerStore.id l =? i)%string; reflexivity.
  - intros l Hl Hi. apply in_map_iff in Hl. destruct Hl as [l0 [E Hl0]].
    destruct (String.eqb_spec (LayerStore.id l0) i) as [_|Hne].
    + rewrite <- E. reflexivity.
    + exfalso. apply Hne. rewrite E. exact Hi.
  - intros l Hl Hne. apply in_map_iff. exists l. split; [|exact Hl].
    destruct (String.eqb_spec (LayerStore.id l) i); [contradiction | reflexivity].
  - rewrite map_map. apply map_ext. intros l.
    destruct (LayerStore.id l =? i)%string; reflexivity.
  - unfold LayerStore.withLayers. cbn. f_equal. rewrite !map_map.
    apply map_ext. intros l.
    destruct (LayerStore.id l =? j)%string eqn:Ej, (LayerStore.id l =? i)%string eqn:Ei;
      cbn [LayerStore.withPoster LayerStore.withTranscription LayerStore.id];
      rewrite ?Ei, ?Ej; reflexivity.
Qed.

(** X23. Activating a layer by id makes the first layer of that id the
    active one when there is one, and falls back to the first layer
    otherwise; the active layer is then one of the layers, unless there
    are none, and the layers are not touched. *)
Theorem set_active_layer_finds_or_falls_back (i : string) (state : LayerStore.State) :
  let state' := LayerStore.setActiveLayer i state in
  ((exists l, In l (LayerStore.layers state) /\ LayerStore.id l = i) ->
   exists before l after,
     LayerStore.activeLayer state' = Some l
     /\ LayerStore.id l = i
     /\ LayerStore.layers state = before ++ l :: after
     /\ forall b, In b before -> LayerStore.id b <> i)
  /\ ((forall l, In l (LayerStore.layers state) -> LayerStore.id l <> i) ->
      LayerStore.activeLayer state' = hd_error (LayerStore.layers state))
  /\ (forall l, LayerStore.activeLayer state' = Some l ->
                In l (LayerStore.layers state))
  /\ (LayerStore.activeLayer state' = None <-> LayerStore.layers state = [])
  /\ LayerStore.layers state' = LayerStore.layers state.
Proof.
  intros state'. unfold state', LayerStore.setActiveLayer.
  cbn [LayerStore.activeLayer LayerStore.layers].
  set (ls := LayerStore.layers state). clearbody ls.
  assert (Hfind : forall ls,
    match find (fun l => (LayerStore.id l =? i)%string) ls with
    | Some l => exists before after, ls = before ++ l :: after
                  /\ LayerStore.id l = i
                  /\ forall b, In b before -> LayerStore.id b <> i
    | None => forall l, In l ls -> LayerStore.id l <> i
    end).
  { clear. intros ls. induction ls as [|a rest IH]; [intros l []|].
    cbn [find]. destruct (String.eqb_spec (LayerStore.id a) i) as [E|Hne].
    - exists [], rest. split; [reflexivity|]. split; [exact E | intros b []].
    - destruct (find _ rest) as [l|].
      + destruct IH as (before & after & E & Hi & Hb).
        exists (a :: before), after. split; [rewrite E; reflexivity|].
        split; [exact Hi|]. intros b [<-|Hin]; [exact Hne | apply Hb, Hin].
      + intros l [<-|Hin]; [exact Hne | apply IH, Hin]. }
  specialize (Hfind ls).
  split; [|split; [|split; [|split; [|reflexivity]]]].
  - intros [l [Hl Hi]]. destruct (find _ ls) as [l0|].
    + destruct Hfind as (before & after & E & Hi0 & Hb).
      exists before, l0, after. repeat split; assumption.
    + exfalso. apply (Hfind l Hl Hi).
  - intros Hnone. destruct (find _ ls) as [l0|]; [|reflexivity].
    destruct Hfind as (before & after & E & Hi0 & _).
    exfalso. apply (Hnone l0); [rewrite E, in_app_iff; right; left; reflexivity | exact Hi0].
  - intros l E. destruct (find _ ls) as [l0|].
    + injection E as <-. destruct Hfind as (before & after & E & _).
      rewrite E, in_app_iff. right; left; reflexivity.
    + destruct ls as [|a rest]; [discriminate E|]. injection E as <-. left; reflexivity.
  - destruct (find _ ls) as [l0|].
    + split; [discriminate|]. intros E. destruct Hfind as (before & after & E' & _).
      rewrite E in E'. destruct before; discriminate E'.
    + destruct ls; cbn; split; try discriminate; reflexivity.
Qed.

(** ** The control panel and [clamp] *)

(** X24. The zoom slider of the control panel stores the value it emits
    as it is: every value of the slider's range [[0.1, 2]] becomes the
    slot's zoom unclamped, which is below the minimum of 10 that wheel and
    pinch keep, in a state the component can reach; the focus and the
    other slot are kept, and a wheel event over the slot's media brings
    the zoom back into [[10, 500]]. *)
Theorem zoom_slider_stores_unclamped (Math_sqrt : number -> number) (side : Side)
    (v deltaY : Q) (a : App) :
  reachable Math_sqrt a ->
  (sliderMin <= v)%Q -> (v <= sliderMax)%Q ->
  let a' := step Math_sqrt a (ZoomSlider side (Fin v)) in
  reachable Math_sqrt a'
  /\ sZoom (getSlot side (combiner a')) = Fin v
  /\ ~ inRange 10 500 (sZoom (getSlot side (combiner a')))
  /\ sFocus (getSlot side (combiner a')) = sFocus (getSlot side (combiner a))
  /\ getSlot (otherSide side) (combiner a') = getSlot (otherSide side) (combiner a)
  /\ (sElement (getSlot side (combiner a)) <> None ->
      inRange 10 500
        (sZoom (getSlot side (combiner (handleWheelZoom deltaY side a'))))).
Proof.
  intros Hr Hlo Hhi a'. unfold sliderMin, sliderMax in *.
  assert (Ez : sZoom (getSlot side (combiner a')) = Fin v) by (destruct side; reflexivity).
  split; [apply reachable_step, Hr|]. split; [exact Ez|]. split.
  { rewrite Ez. cbn [inRange]. lra. }
  split; [destruct side; reflexivity|]. split; [destruct side; reflexivity|].
  intros He.
  assert (He' : sElement (getSlot side (combiner a')) <> None)
    by (destruct side; exact He).
  destruct (wheel_target deltaY side a') as [[E _]|[_ [Hs _]]]; [contradiction|].
  eapply inRange_sameValue; [exact Hs|].
  apply clamp_inRange; [|lra]. rewrite Ez. exact I.
Qed.

Lemma zoom_slider_stores_unclamped_witness :
  let a := run sqrtSquares initialApp farDrag in
  let a' := step sqrtSquares a (ZoomSlider Left (Fin 1)) in
  reachable sqrtSquares a
  /\ reachable sqrtSquares a'
  /\ sZoom (getSlot Left (combiner a')) = Fin 1
  /\ ~ inRange 10 500 (sZoom (getSlot Left (combiner a')))
  /\ inRange 10 500
       (sZoom (getSlot Left (combiner (handleWheelZoom (-100) Left a')))).
Proof.
  intros a a'.
  assert (Hr : reachable sqrtSquares a) by (apply reachable_run, reachable_init).
  assert (Hlo : (sliderMin <= 1)%Q) by (unfold sliderMin; lra).
  assert (Hhi : (1 <= sliderMax)%Q) by (unfold sliderMax; lra).
  assert (He : sElement (getSlot Left (combiner a)) <> None)
    by (vm_compute; discriminate).
  destruct (@zoom_slider_stores_unclamped sqrtSquares Left 1 (-100) a Hr Hlo Hhi)
    as [Hr' [Hz [Hout [_ [_ Hback]]]]].
  exact (conj Hr (conj Hr' (conj Hz (conj Hout (Hback He))))).
Defined.

(** X25. [clamp] with bounds in order returns a value of the range and
    fixes exactly the values of the range; with the bounds swapped it
    returns the upper argument; it is monotone in the value whatever the
    bounds; and NaN goes through. *)
Theorem clamp_fixes_exactly_the_range (v v' lo hi : Q) :
  ((lo <= hi)%Q ->
     inRange lo hi (clamp (Fin v) (Fin lo) (Fin hi))
     /\ (clamp (Fin v) (Fin lo) (Fin hi) = Fin v <-> (lo <= v)%Q /\ (v <= hi)%Q))
  /\ ((hi < lo)%Q -> clamp (Fin v) (Fin lo) (Fin hi) = Fin hi)
  /\ ((v <= v')%Q ->
      (clamp (Fin v) (Fin lo) (Fin hi) <=? clamp (Fin v') (Fin lo) (Fin hi))%js = true)
  /\ clamp NaN (Fin lo) (Fin hi) = NaN.
Proof.
  split; [|split; [|split; [|reflexivity]]].
  - intros Hle. split; [apply clamp_inRange; [exact I | exact Hle]|].
    unfold clamp, Math_max, Math_min, lt. split.
    + qcases; qbool; intros Heq; try (injection Heq as Heq; rewrite <- ?Heq in *; lra); lra.
    + intros [H1 H2].
      rewrite (proj2 (Qltb_ge v lo)) by exact H1.
      rewrite (proj2 (Qltb_ge hi v)) by exact H2. reflexivity.
  - intros H. unfold clamp, Math_max, Math_min, lt.
    qcases; qbool; try reflexivity; lra.
  - intros H. unfold clamp, Math_max, Math_min, lt, le.
    qcases; qbool; lra.
Qed.

(** ** The preview frame *)

Lemma Math_max_1_ge (H : Q) :
  (1 <= H)%Q -> exists pH, Math_max n1 (Fin H) = Fin pH /\ (pH == H)%Q.
Proof.
  intros HH. unfold Math_max, n1, lt. destruct (Qltb 1 H) eqn:E.
  - exists H. split; reflexivity.
  - qbool. exists 1%Q. split; [reflexivity | lra].
Qed.

Lemma Math_max_1_ofZ (z : Z) : (1 <= z)%Z -> Math_max n1 (ofZ z) = ofZ z.
Proof.
  intros Hz. change n1 with (ofZ 1). rewrite Math_max_ofZ. f_equal. lia.
Qed.

(** X26. An animation frame clears the pending-frame mark and keeps the
    combiner's state, whatever the container; requesting a draw twice
    leaves one frame pending.  On a container at least 2 wide and 1 high
    and a slot with a loaded element, a positive zoom and a finite focus,
    the frame clears a resized canvas over its own size, [floor(W / 2)]
    by [H], and then draws the slot once over [W / 2] by [H]: the
    destination is at least as wide as the canvas and less than one pixel
    wider. *)
Theorem preview_frame_draws_each_half (side : Side) (el : MediaElement)
    (W H zq fx fy : Q) (a : App) :
  sElement (getSlot side (combiner a)) = Some el ->
  (0 < elementWidth el)%Z -> (0 < elementHeight el)%Z ->
  sZoom (getSlot side (combiner a)) = Fin zq -> (0 < zq)%Q ->
  sFocus (getSlot side (combiner a)) = {| x := Fin fx; y := Fin fy |} ->
  (2 <= W)%Q -> (1 <= H)%Q ->
  let r := drawPreviewCanvases (Some {| width := W; height := H |}) true true a in
  let calls := match side with Left => snd (fst r) | Right => snd r end in
  (forall container rl rr,
     let a' := fst (fst (drawPreviewCanvases container rl rr a)) in
     animationFrameId (gesture a') = false /\ combiner a' = combiner a)
  /\ requestDraw (requestDraw a) = requestDraw a
  /\ animationFrameId (gesture (requestDraw a)) = true
  /\ exists (pw : Z) (dW pH : Q) (src : SourceRect),
       calls = [clearRect n0 n0 (ofZ pw) (Fin pH); save;
                clearRect n0 n0 (Fin dW) (Fin pH);
                drawImage el (rect_sx src) (rect_sy src)
                  (rect_sWidth src) (rect_sHeight src) n0 n0 (Fin dW) (Fin pH);
                restore]
       /\ (dW == W / 2)%Q /\ (pH == H)%Q
       /\ (inject_Z pw <= dW)%Q /\ (dW < inject_Z pw + 1)%Q.
Proof.
  intros Hel Hw Hh Hzoom Hz Hfocus HW HH r calls.
  split; [|split; [|split]].
  - intros container rl rr. unfold drawPreviewCanvases.
    destruct container as [rect|]; [destruct (_ || _)|]; split; reflexivity.
  - unfold requestDraw. destruct (animationFrameId (gesture a)) eqn:E.
    + rewrite E. reflexivity.
    + reflexivity.
  - unfold requestDraw. destruct (animationFrameId (gesture a)) eqn:E;
      [exact E | reflexivity].
  - assert (E0 : le (Fin W) n0 || le (Fin H) n0 = false).
    { unfold le, n0. apply orb_false_iff. split; qbool; lra. }
    destruct (Math_max_1_ge HH) as [pH [EpH HpH]].
    assert (Hfl : (1 <= Qfloor (Qred (W / 2)))%Z).
    { assert (Hle : (1 <= Qred (W / 2))%Q).
      { rewrite Qred_correct. apply Qle_shift_div_l; lra. }
      apply Qfloor_resp_le in Hle. exact Hle. }
    assert (Ecalls : calls
              = [clearRect n0 n0 (ofZ (Qfloor (Qred (W / 2)))) (Fin pH)]
                ++ drawMediaSection (Some el) side (Fin W) (Fin pH) (Fin zq)
                     {| x := Fin fx; y := Fin fy |}).
    { unfold calls, r, drawPreviewCanvases. cbn [width height]. rewrite E0, EpH.
      rewrite half_width. cbn [Math_floor]. rewrite (Math_max_1_ofZ Hfl).
      unfold leftMediaElement, rightMediaElement, leftZoom, rightZoom,
        leftRelativeFocus, rightRelativeFocus.
      destruct side; cbn [getSlot] in Hel, Hzoom, Hfocus; cbn [fst snd];
        rewrite Hel, Hzoom, Hfocus; reflexivity. }
    assert (PpH : (0 < pH)%Q) by lra.
    assert (Hsw : (0 < inject_Z (elementWidth el))%Q) by (apply inject_Z_pos; exact Hw).
    assert (Hsh : (0 < inject_Z (elementHeight el))%Q) by (apply inject_Z_pos; exact Hh).
    assert (HdW : (0 < Qred (W / 2))%Q) by (apply Qred_pos, Qdiv_pos; lra).
    destruct (specFinalScale_pos Hsw Hsh HdW PpH Hz) as [fq [Efs Hfq]].
    assert (Ea : specAborted (Fin fq) = false).
    { unfold specAborted, le, n0. cbn [Number_isFinite negb orb]. qbool. exact Hfq. }
    assert (Ed : exists src,
              drawMediaSection (Some el) side (Fin W) (Fin pH) (Fin zq)
                {| x := Fin fx; y := Fin fy |}
              = [save; clearRect n0 n0 (Fin (Qred (W / 2))) (Fin pH);
                 drawImage el (rect_sx src) (rect_sy src)
                   (rect_sWidth src) (rect_sHeight src)
                   n0 n0 (Fin (Qred (W / 2))) (Fin pH);
                 restore]).
    { rewrite (drawMediaSection_calls _ _ _ _ _ _ Hw Hh), half_width.
      unfold ofZ. cbv zeta. rewrite Efs, Ea.
      rewrite (drawable_pos (inject_Z (elementWidth el)) (inject_Z (elementHeight el))
                 fx fy HdW PpH Hfq).
      eexists. reflexivity. }
    destruct Ed as [src Ed]. rewrite Ed in Ecalls.
    exists (Qfloor (Qred (W / 2))), (Qred (W / 2)), pH, src.
    split; [exact Ecalls|].
    split; [apply Qred_correct|]. split; [exact HpH|].
    split; [apply Qfloor_le|].
    pose proof (Qlt_floor (Qred (W / 2))) as Hlt. rewrite inject_Z_plus in Hlt.
    exact Hlt.
Qed.

Lemma preview_frame_draws_each_half_witness :
  let r := drawPreviewCanvases (Some {| width := 801; height := 450 |}) true true
             draggingLeft in
  let calls := match Left with Left => snd (fst r) | Right => snd r end in
  exists (pw : Z) (dW pH : Q) (src : SourceRect),
    calls = [clearRect n0 n0 (ofZ pw) (Fin pH); save;
             clearRect n0 n0 (Fin dW) (Fin pH);
             drawImage (Image (imageOf 800 600 "blob:left"))
               (rect_sx src) (rect_sy src) (rect_sWidth src) (rect_sHeight src)
               n0 n0 (Fin dW) (Fin pH);
             restore]
    /\ (dW == 801 / 2)%Q /\ (pH == 450)%Q
    /\ (inject_Z pw <= dW)%Q /\ (dW < inject_Z pw + 1)%Q.
Proof.
  intros r calls.
  destruct (@preview_frame_draws_each_half Left (Image (imageOf 800 600 "blob:left"))
              801 450 100 (1 # 2) (1 # 2) draggingLeft
              eq_refl eq_refl eq_refl eq_refl eq_refl eq_refl
              ltac:(lra) ltac:(lra))
    as [_ [_ [_ Hdraw]]].
  exact Hdraw.
Defined.

(** ** Dragging the logo *)

(** X27. While the logo is being dragged, a move of the pointer moves the
    logo with the pointer: its position stays in [[0, 100]], it is never
    to the left of the position the drag started from when the pointer is
    to the right of the drag origin, never to the right of it when the
    pointer is to the left, and the same vertically, so that a pointer
    back at the origin brings back the position the drag started from;
    no frame is requested for it and both slots are kept. *)
Theorem logo_drag_follows_pointer (img : HTMLImageElement)
    (cX cY W H px0 py0 x0 y0 : Q) (a : App) :
  activeDrag (gesture a) = Some Logo ->
  isPinching (gesture a) = false ->
  logoElement (logoSlot (combiner a)) = Some img ->
  initialLogoPos (gesture a) = {| x := Fin px0; y := Fin py0 |} ->
  (0 <= px0)%Q -> (px0 <= 100)%Q -> (0 <= py0)%Q -> (py0 <= 100)%Q ->
  dragStart (gesture a) = {| x := Fin x0; y := Fin y0 |} ->
  (0 < W)%Q -> (0 < H)%Q ->
  let a' := handleDragMove cX cY (Some {| width := W; height := H |}) a in
  let position' := logoPosition (logoSlot (combiner a')) in
  inRange 0 100 (x position') /\ inRange 0 100 (y position')
  /\ ((x0 <= cX)%Q -> (Fin px0 <=? x position')%js = true)
  /\ ((cX <= x0)%Q -> (x position' <=? Fin px0)%js = true)
  /\ ((y0 <= cY)%Q -> (Fin py0 <=? y position')%js = true)
  /\ ((cY <= y0)%Q -> (y position' <=? Fin py0)%js = true)
  /\ gesture a' = gesture a
  /\ leftSlot (combiner a') = leftSlot (combiner a)
  /\ rightSlot (combiner a') = rightSlot (combiner a).
Proof.
  intros Hdrag Hpinch Hel Hinit Hx0 Hx1 Hy0 Hy1 Hstart HW HH a' position'.
  unfold position', a', handleDragMove. rewrite Hdrag, Hpinch, Hstart, Hinit, Hel.
  cbn [x y width height].
  assert (E0 : le (Fin W) n0 || le (Fin H) n0 = false).
  { unfold le, n0. apply orb_false_iff. split; qbool; assumption. }
  rewrite E0. cbn [sub add neg fin]. unfold fin. unfold n100, n0.
  rewrite !div_pos by assumption. unfold fin. cbn [mul add fin]. unfold fin.
  match goal with
  | |- context [clamp (Fin ?v) (Fin 0) (Fin 100)] =>
      destruct (@clamp_toward v px0 0 100 Hx0 Hx1) as (nx & Enx & Hnx0 & Hnx1 & Hnxl & Hnxr);
      rewrite Enx
  end.
  match goal with
  | |- context [clamp (Fin ?v) (Fin 0) (Fin 100)] =>
      destruct (@clamp_toward v py0 0 100 Hy0 Hy1) as (ny & Eny & Hny0 & Hny1 & Hnyl & Hnyr);
      rewrite Eny
  end.
  repeat rewrite Qred_correct in Hnxl. repeat rewrite Qred_correct in Hnxr.
  repeat rewrite Qred_correct in Hnyl. repeat rewrite Qred_correct in Hnyr.
  assert (Hpos : forall cur : RelativeFocus,
            logoPosition (logoSlot (combiner a)) = cur ->
            let a1 := if strictNe (Fin nx) (x cur) || strictNe (Fin ny) (y cur)
                      then onLogoPositionChange {| x := Fin nx; y := Fin ny |} a
                      else a in
            sameValue (x (logoPosition (logoSlot (combiner a1)))) (Fin nx)
            /\ sameValue (y (logoPosition (logoSlot (combiner a1)))) (Fin ny)
            /\ gesture a1 = gesture a
            /\ leftSlot (combiner a1) = leftSlot (combiner a)
            /\ rightSlot (combiner a1) = rightSlot (combiner a)).
  { intros cur Ecur. cbv zeta.
    destruct (strictNe (Fin nx) (x cur)) eqn:Sx; cbn [orb].
    - cbn. repeat split; reflexivity.
    - destruct (strictNe (Fin ny) (y cur)) eqn:Sy.
      + cbn. repeat split; reflexivity.
      + rewrite Ecur. split; [apply strictNe_false_sameValue, Sx|].
        split; [apply strictNe_false_sameValue, Sy|]. repeat split. }
  destruct (Hpos _ eq_refl) as (Hx & Hy & Hg & Hl & Hr). cbv zeta in Hx, Hy, Hg, Hl, Hr.
  assert (Dx : (x0 <= cX)%Q -> (0 <= (cX + - x0) / W * 100)%Q).
  { intros Hd. assert (P : (0 <= (cX + - x0) / W)%Q)
      by (apply Qle_shift_div_l; [exact HW | lra]). lra. }
  assert (Dx' : (cX <= x0)%Q -> ((cX + - x0) / W * 100 <= 0)%Q).
  { intros Hd. assert (P : ((cX + - x0) / W <= 0)%Q)
      by (apply Qle_shift_div_r; [exact HW | lra]). lra. }
  assert (Dy : (y0 <= cY)%Q -> (0 <= (cY + - y0) / H * 100)%Q).
  { intros Hd. assert (P : (0 <= (cY + - y0) / H)%Q)
      by (apply Qle_shift_div_l; [exact HH | lra]). lra. }
  assert (Dy' : (cY <= y0)%Q -> ((cY + - y0) / H * 100 <= 0)%Q).
  { intros Hd. assert (P : ((cY + - y0) / H <= 0)%Q)
      by (apply Qle_shift_div_r; [exact HH | lra]). lra. }
  split; [apply (inRange_sameValue _ _ _ _ Hx); simpl; split; assumption|].
  split; [apply (inRange_sameValue _ _ _ _ Hy); simpl; split; assumption|].
  split; [intros Hd; specialize (Dx Hd); apply (ge_sameValue _ _ _ Hx);
          unfold le; qbool; apply Hnxr; lra|].
  split; [intros Hd; specialize (Dx' Hd); apply (le_sameValue _ _ _ Hx);
          unfold le; qbool; apply Hnxl; lra|].
  split; [intros Hd; specialize (Dy Hd); apply (ge_sameValue _ _ _ Hy);
          unfold le; qbool; apply Hnyr; lra|].
  split; [intros Hd; specialize (Dy' Hd); apply (le_sameValue _ _ _ Hy);
          unfold le; qbool; apply Hnyl; lra|].
  split; [exact Hg | split; [exact Hl | exact Hr]].
Qed.

Lemma logo_drag_follows_pointer_witness :
  let a := fst (handleInteractionStart 400 405 Logo false
                  {| combiner := withLogo; gesture := initialGesture |}) in
  let a' := handleDragMove 480 360 (Some {| width := 800; height := 450 |}) a in
  let position' := logoPosition (logoSlot (combiner a')) in
  inRange 0 100 (x position') /\ inRange 0 100 (y position')
  /\ ((400 <= 480)%Q -> (Fin 50 <=? x position')%js = true)
  /\ ((480 <= 400)%Q -> (x position' <=? Fin 50)%js = true)
  /\ ((405 <= 360)%Q -> (Fin 90 <=? y position')%js = true)
  /\ ((360 <= 405)%Q -> (y position' <=? Fin 90)%js = true)
  /\ gesture a' = gesture a
  /\ leftSlot (combiner a') = leftSlot (combiner a)
  /\ rightSlot (combiner a') = rightSlot (combiner a).
Proof.
  intros a.
  apply (@logo_drag_follows_pointer (imageOf 200 100 "blob:logo")
           480 360 800 450 50 90 400 405 a);
    try reflexivity; discriminate.
Defined.

(** ** A fetch that fails *)

(** X28. When making the object URL for a slot fails, the load goes on
    with the data URL itself, with no object URL to release, and the
    failure message is set; when that load then succeeds the element is
    stored and loading ends, and the message set for the failed fetch is
    still there.  For the logo a failed fetch ends the attempt: no load
    is started, loading is turned off and the logo's message is set. *)
Theorem fetch_failure_falls_back_to_data_url (side : Side) (mediaUrl logoUrl : string)
    (t : MediaType) (el : MediaElement) (st : CombinerState) :
  mediaUrl <> "" ->
  isMounted st = true ->
  prefix "data:image/svg+xml" logoUrl = false ->
  let r := loadMediaEffect_fetched mediaUrl t side None st in
  let st1 := fst (fst r) in
  let settled := loadMediaEffect_settled side (snd (fst r)) (resolved (Some el)) st1 in
  let rl := loadLogoEffect_fetched logoUrl None st in
  (exists effects,
     snd r = pending {| pSide := Slot side; pType := t; pSrc := mediaUrl;
                        pTimeout := 20000 |} effects
     /\ In (setElementSrc mediaUrl) effects)
  /\ snd (fst r) = None
  /\ sLoadError (getSlot side st1) = Some "Failed to process file for preview."
  /\ snd settled = []
  /\ sElement (getSlot side (fst settled)) = Some el
  /\ sLoading (getSlot side (fst settled)) = false
  /\ sLoadError (getSlot side (fst settled)) = Some "Failed to process file for preview."
  /\ snd rl = None
  /\ isLoadingLogo (logoSlot (fst (fst rl))) = false
  /\ logoLoadError (logoSlot (fst (fst rl))) = Some "Failed to process logo for preview.".
Proof.
  intros Hurl Hm Hsvg r st1 settled rl.
  assert (Hm1 : isMounted st1 = true) by (destruct side; exact Hm).
  split.
  { unfold r, loadMediaEffect_fetched, loadMediaElement. cbn [snd].
    destruct (String.eqb_spec mediaUrl ""); [contradiction|].
    eexists. split; [reflexivity|]. destruct t; right; left; reflexivity. }
  split; [reflexivity|]. split; [destruct side; reflexivity|].
  unfold settled, loadMediaEffect_settled. rewrite Hm1. cbn [fst snd].
  split; [reflexivity|]. split; [destruct side; reflexivity|].
  split; [destruct side; reflexivity|]. split; [destruct side; reflexivity|].
  unfold rl, loadLogoEffect_fetched. rewrite Hsvg. repeat split.
Qed.

Lemma fetch_failure_falls_back_to_data_url_witness :
  let mediaUrl := "data:image/png;base64,iVBORw0KGgo=" in
  let el := Image (imageOf 1200 900 "data:image/png;base64,iVBORw0KGgo=") in
  let r := loadMediaEffect_fetched mediaUrl image Right None scenarioB in
  let settled := loadMediaEffect_settled Right (snd (fst r)) (resolved (Some el))
                   (fst (fst r)) in
  mediaUrl <> ""
  /\ isMounted scenarioB = true
  /\ snd (fst r) = None
  /\ sElement (getSlot Right (fst settled)) = Some el
  /\ sLoadError (getSlot Right (fst settled))
     = Some "Failed to process file for preview.".
Proof.
  intros mediaUrl el r settled.
  assert (Hne : mediaUrl <> "") by discriminate.
  assert (Hm : isMounted scenarioB = true) by reflexivity.
  destruct (@fetch_failure_falls_back_to_data_url Right mediaUrl
              "data:image/png;base64,iVBORw0KGgo=" image el scenarioB Hne Hm eq_refl)
    as [_ [Hnone [_ [_ [Hel [_ [Herr _]]]]]]].
  exact (conj Hne (conj Hm (conj Hnone (conj Hel Herr)))).
Defined.

(** ** The zoom of the slots over a run *)

Ltac zkept := unfold zoomKept; cbn; tauto.

Lemma loadMediaEffect_start_zoom (mediaUrl : option string)
    (mediaType : option MediaType) (side : Side) (st : CombinerState) :
  zoomKept st (fst (fst (loadMediaEffect_start mediaUrl mediaType side st))).
Proof.
  unfold loadMediaEffect_start.
  destruct mediaUrl as [url|], mediaType as [t|]; try destruct (url =? "")%string;
    destruct side; zkept.
Qed.

Lemma onFileSelect_zoom (side : Side) (fileType : string) (result : option string)
    (st : CombinerState) :
  zoomKept st (fst (fst (onFileSelect side fileType result st))).
Proof.
  unfold onFileSelect. destruct result as [dataUrl|]; [|destruct side; zkept].
  destruct (detectType fileType) as [t|]; [|destruct side; zkept].
  destruct (_ && _); [destruct side; zkept|].
  match goal with
  | |- zoomKept _ (fst (fst (loadMediaEffect_start ?u ?ty ?s ?st1))) =>
      pose proof (loadMediaEffect_start_zoom u ty s st1) as Hk;
      revert Hk; generalize (fst (fst (loadMediaEffect_start u ty s st1)))
  end.
  intros st2. destruct side; unfold zoomKept; cbn; tauto.
Qed.

Lemma loadLogoEffect_start_zoom (logoUrl : option string) (st : CombinerState) :
  zoomKept st (fst (fst (loadLogoEffect_start logoUrl st))).
Proof.
  unfold loadLogoEffect_start.
  destruct logoUrl as [url|]; try destruct (url =? "")%string; zkept.
Qed.

Lemma onLogoSelect_zoom (fileType : string) (result : option string)
    (st : CombinerState) :
  zoomKept st (fst (fst (onLogoSelect fileType result st))).
Proof.
  unfold onLogoSelect. destruct (negb _); [zkept|].
  destruct result as [dataUrl|]; [|zkept].
  destruct (optStringEq _ _); [zkept|].
  match goal with
  | |- zoomKept _ (fst (fst (loadLogoEffect_start ?u ?st1))) =>
      pose proof (loadLogoEffect_start_zoom u st1) as Hk;
      revert Hk; generalize (fst (fst (loadLogoEffect_start u st1)))
  end.
  intros st2. unfold zoomKept; cbn; tauto.
Qed.

Lemma saveCompositeImage_zoom (container : option Container) (getContext : bool)
    (st : CombinerState) :
  zoomKept st (fst (saveCompositeImage container getContext st)).
Proof.
  unfold saveCompositeImage. destruct (negb _); [zkept|].
  destruct (leftMediaElement st) as [[l|v]|]; try zkept.
  destruct (rightMediaElement st) as [[r|v]|]; try zkept.
  destruct (_ || _);
    [cbn [isMounted setSaveError setIsSaving]; destruct (isMounted st); zkept|].
  destruct (negb getContext); [|zkept].
  cbn [isMounted setSaveError setIsSaving]; destruct (isMounted st); zkept.
Qed.

Section ZoomRange.

Variable Math_sqrt : number -> number.
Variable lo : Q.
Hypothesis Hsqrt : sqrtFinite Math_sqrt.
Hypothesis Hlo : (lo <= 10)%Q.

Ltac zoom_same := unfold zoomInRange in *; cbn in *; tauto.

Lemma n100_inRange : inRange lo 500 n100.
Proof. cbn. lra. Qed.

Lemma gesture_range (z : number) : inRange 10 500 z -> inRange lo 500 z.
Proof. destruct z; cbn; try tauto. lra. Qed.

Lemma withCombiner_zoom (f : CombinerState -> CombinerState) (a : App) :
  zoomKept (combiner a) (f (combiner a)) ->
  zoomInRange lo a -> zoomInRange lo (withCombiner f a).
Proof.
  intros [Hl Hr] (H1 & H2 & H3 & H4). unfold zoomInRange.
  cbn [withCombiner combiner gesture]. repeat split; try assumption.
  - destruct Hl as [->| ->]; [exact H1 | apply n100_inRange].
  - destruct Hr as [->| ->]; [exact H2 | apply n100_inRange].
Qed.

Lemma requestDraw_zoom (a : App) : zoomInRange lo a -> zoomInRange lo (requestDraw a).
Proof. intros H. unfold requestDraw. split_ifs; zoom_same. Qed.

Lemma handleDragEnd_zoom (a : App) : zoomInRange lo a -> zoomInRange lo (handleDragEnd a).
Proof. intros H. unfold handleDragEnd. split_ifs; zoom_same. Qed.

Lemma handleInteractionStart_zoom (cX cY : Q) (type : Target) (isTouch : bool)
    (a : App) :
  zoomInRange lo a ->
  zoomInRange lo (fst (handleInteractionStart cX cY type isTouch a)).
Proof.
  intros H. unfold handleInteractionStart.
  destruct (negb (mediaExists type (combiner a))); [zoom_same|].
  destruct (isTouch && isPinching (gesture a)); [zoom_same|].
  destruct type as [[|]|]; zoom_same.
Qed.

Lemma handleDragMove_zoom (cX cY : Q) (container : option DOMRect) (a : App) :
  zoomInRange lo a -> zoomInRange lo (handleDragMove cX cY container a).
Proof.
  intros H. unfold handleDragMove.
  destruct (activeDrag (gesture a)) as [drag|]; [|exact H].
  destruct (isPinching (gesture a)); [exact H|].
  destruct container as [rect|]; [|exact H].
  destruct (_ || _); [exact H|].
  destruct drag as [side|].
  - destruct (sElement (getSlot side (combiner a))) as [el|]; [|exact H].
    destruct (panMedia _ _ _ _ _ _ _ _) as [focus|]; [|exact H].
    apply requestDraw_zoom. destruct side; zoom_same.
  - destruct (logoElement (logoSlot (combiner a))); [|exact H].
    destruct (_ || _); [|exact H]. zoom_same.
Qed.

Lemma onZoomChange_zoom (side : Side) (z : number) (a : App) :
  inRange lo 500 z -> zoomInRange lo a -> zoomInRange lo (onZoomChange side z a).
Proof. intros Hz H. destruct side; zoom_same. Qed.

Lemma zoom_finite (side : Side) (a : App) :
  zoomInRange lo a -> finite (sZoom (getSlot side (combiner a))).
Proof.
  intros (H1 & H2 & _). destruct side; cbn [getSlot];
    [exact (inRange_finite _ _ _ H1) | exact (inRange_finite _ _ _ H2)].
Qed.

Lemma handleWheelZoom_zoom (deltaY : Q) (side : Side) (a : App) :
  zoomInRange lo a -> zoomInRange lo (handleWheelZoom deltaY side a).
Proof.
  intros H. unfold handleWheelZoom.
  destruct (sElement _); [|exact H]. destruct (strictNe _ _); [|exact H].
  apply requestDraw_zoom, onZoomChange_zoom; [|exact H].
  apply gesture_range, clamp_inRange; [|lra].
  apply finite_add; [apply zoom_finite, H | exact I].
Qed.

Lemma handleMouseDown_zoom (button : Z) (onArea : bool) (type : Target)
    (cX cY : Q) (a : App) :
  zoomInRange lo a -> zoomInRange lo (handleMouseDown button onArea type cX cY a).
Proof.
  intros H. unfold handleMouseDown.
  destruct (negb _); [exact H|]. destruct onArea; [|exact H].
  apply handleInteractionStart_zoom, H.
Qed.

Lemma handleMouseMove_zoom (cX cY : Q) (container : option DOMRect) (a : App) :
  zoomInRange lo a -> zoomInRange lo (handleMouseMove cX cY container a).
Proof.
  intros H. unfold handleMouseMove. destruct (_ && _); [|exact H].
  apply handleDragMove_zoom, H.
Qed.

Lemma handleMouseUp_zoom (button : Z) (a : App) :
  zoomInRange lo a -> zoomInRange lo (handleMouseUp button a).
Proof.
  intros H. unfold handleMouseUp.
  assert (H1 : zoomInRange lo
                 (if (button =? 0)%Z && isSome (activeDrag (gesture a))
                     && negb (isTouching (gesture a)) && negb (isPinching (gesture a))
                  then handleDragEnd a else a)).
  { destruct (_ && _); [apply handleDragEnd_zoom, H | exact H]. }
  destruct (isTouching (gesture a)); [|exact H1].
  revert H1. generalize (if (button =? 0)%Z && isSome (activeDrag (gesture a))
                     && negb (isTouching (gesture a)) && negb (isPinching (gesture a))
                  then handleDragEnd a else a).
  intros b Hb. zoom_same.
Qed.

Lemma calculateDistance_finite (touch1 touch2 : Touch) :
  finite (calculateDistance Math_sqrt touch1 touch2).
Proof.
  unfold calculateDistance. cbn [sub add neg mul fin]. unfold fin.
  cbn [mul add fin]. unfold fin. apply Hsqrt.
  rewrite !Qred_correct.
  match goal with
  | |- (0 <= ?u * ?u + ?v * ?v)%Q => generalize u v
  end.
  intros u v. nra.
Qed.

Lemma handleTouchStart_zoom (onArea : bool) (type : Target) (touches : list Touch)
    (a : App) :
  zoomInRange lo a ->
  zoomInRange lo (handleTouchStart Math_sqrt onArea type touches a).
Proof.
  intros H. unfold handleTouchStart.
  destruct (negb onArea); [exact H|].
  destruct (negb (mediaExists type (combiner a))); [exact H|].
  destruct touches as [|t0 [|t1 [|t2 rest]]], type as [side|]; try exact H.
  - destruct (negb _); [apply handleInteractionStart_zoom, H | exact H].
  - destruct (negb _); [apply handleInteractionStart_zoom, H | exact H].
  - assert (H1 : zoomInRange lo (if isSome (activeDrag (gesture a))
                                 then handleDragEnd a else a)).
    { destruct (isSome _); [apply handleDragEnd_zoom, H | exact H]. }
    pose proof (calculateDistance_finite t0 t1) as Hd.
    pose proof (zoom_finite side H) as Hz.
    revert H1. generalize (if isSome (activeDrag (gesture a))
                               then handleDragEnd a else a).
    intros b Hb. unfold zoomInRange in *. cbn in *. tauto.
Qed.

Lemma handleTouchMove_zoom (touches : list Touch) (container : option DOMRect)
    (a : App) :
  zoomInRange lo a ->
  zoomInRange lo (handleTouchMove Math_sqrt touches container a).
Proof.
  intros H. unfold handleTouchMove.
  assert (Hdrag : forall ts,
     zoomInRange lo
       match ts with
       | [touch] =>
           if isSome (activeDrag (gesture a)) && isTouching (gesture a)
              && negb (isPinching (gesture a))
           then handleDragMove (clientX touch) (clientY touch) container a
           else a
       | _ => a
       end).
  { intros [|t [|t' ts]]; try exact H.
    destruct (_ && _); [apply handleDragMove_zoom, H | exact H]. }
  destruct (isPinching (gesture a)); [|apply Hdrag].
  destruct touches as [|t0 [|t1 [|t2 rest]]];
    try apply (Hdrag []); try apply (Hdrag [t0]); try apply (Hdrag (t0 :: t1 :: t2 :: rest)).
  destruct (pinchSide (gesture a)) as [side|]; [|exact H].
  destruct (le _ _) eqn:Ele; [exact H|].
  destruct (strictNe _ _); [|exact H].
  apply requestDraw_zoom, onZoomChange_zoom; [|exact H].
  apply gesture_range, clamp_inRange; [|lra].
  destruct H as (_ & _ & Hzs & Hd).
  apply finite_mul; [exact Hzs|].
  destruct (initialPinchDistance (gesture a)) as [d| | |]; try contradiction.
  apply finite_div; [apply calculateDistance_finite|].
  unfold le, n0 in Ele. qbool. lra.
Qed.

Lemma handleTouchEnd_zoom (touches : list Touch) (a : App) :
  zoomInRange lo a -> zoomInRange lo (handleTouchEnd touches a).
Proof.
  intros H. unfold handleTouchEnd.
  destruct touches as [|t0 [|t1 rest]]; try exact H.
  - assert (H1 : zoomInRange lo
                   (if isSome (activeDrag (gesture a)) && isTouching (gesture a)
                    then handleDragEnd a else a)).
    { destruct (_ && _); [apply handleDragEnd_zoom, H | exact H]. }
    revert H1. generalize (if isSome (activeDrag (gesture a)) && isTouching (gesture a)
                               then handleDragEnd a else a).
    intros b Hb. zoom_same.
  - destruct (isPinching (gesture a)); [zoom_same | exact H].
Qed.

Lemma step_zoom (hi : Q) (a : App) (ev : Event) :
  (hi <= 500)%Q -> sliderWithin lo hi ev ->
  zoomInRange lo a -> zoomInRange lo (step Math_sqrt a ev).
Proof.
  intros Hhi Hev H. destruct ev; cbn [step].
  - apply withCombiner_zoom; [apply onFileSelect_zoom | exact H].
  - apply withCombiner_zoom; [|exact H].
    unfold loadMediaEffect_fetched. destruct fetched, side; zkept.
  - apply withCombiner_zoom; [|exact H].
    unfold loadMediaEffect_settled. destruct outcome, (isMounted _), side; zkept.
  - apply withCombiner_zoom; [apply onLogoSelect_zoom | exact H].
  - apply withCombiner_zoom; [|exact H].
    unfold loadLogoEffect_fetched. destruct (prefix _ _); [zkept|]. destruct fetched; zkept.
  - apply withCombiner_zoom; [|exact H].
    unfold loadLogoEffect_settled. destruct outcome, (isMounted _); zkept.
  - apply withCombiner_zoom; [apply saveCompositeImage_zoom | exact H].
  - apply withCombiner_zoom; [|exact H].
    unfold saveCompositeImage_onBlob. destruct blob; [destruct (isMounted _); zkept|].
    destruct (negb _); zkept.
  - apply withCombiner_zoom; [zkept | exact H].
  - apply handleMouseDown_zoom, H.
  - apply handleMouseMove_zoom, H.
  - apply handleMouseUp_zoom, H.
  - apply handleTouchStart_zoom, H.
  - apply handleTouchMove_zoom, H.
  - apply handleTouchEnd_zoom, H.
  - apply handleWheelZoom_zoom, H.
  - unfold drawPreviewCanvases. destruct container as [rect|]; [|zoom_same].
    destruct (_ || _); zoom_same.
  - cbn [sliderWithin] in Hev.
    assert (Hv : inRange lo 500 v).
    { destruct v; cbn in *; try tauto. lra. }
    destruct side; zoom_same.
  - apply withCombiner_zoom; [zkept | exact H].
  - apply withCombiner_zoom; [zkept | exact H].
  - apply withCombiner_zoom; [zkept | exact H].
Qed.

Lemma run_zoom (hi : Q) (events : list Event) (a : App) :
  (hi <= 500)%Q -> Forall (sliderWithin lo hi) events ->
  zoomInRange lo a -> zoomInRange lo (run Math_sqrt a events).
Proof.
  intros Hhi Hev. revert a. induction Hev as [|ev events Hev1 _ IH]; intros a H.
  - exact H.
  - apply IH. apply (@step_zoom hi a ev Hhi Hev1 H).
Qed.

End ZoomRange.

Lemma sqrtSquares_finite : sqrtFinite sqrtSquares.
Proof.
  intros q Hq. unfold sqrtSquares.
  rewrite (proj2 (Qle_bool_iff 0 q) Hq). exact I.
Qed.

(** X29. Over every run in which the zoom sliders emit values of a range
    [[lo, hi]] with [0 < lo <= 10] and [hi <= 500] (both variants of the
    control panel are of this kind), and with a [Math.sqrt] that is
    finite on finite numbers that are not negative, both zooms stay in
    [[lo, 500]]: file choices reset a zoom to 100, wheel and pinch clamp
    it into [[10, 500]], and nothing else writes it.  So the preview
    never goes blank: for a slot with an element of positive size and a
    canvas of positive size, the draw with the stored zoom and focus
    calls [drawImage]. *)
Theorem zoom_stays_in_range (Math_sqrt : number -> number) (lo hi : Q)
    (events : list Event) :
  sqrtFinite Math_sqrt ->
  (0 < lo)%Q -> (lo <= 10)%Q -> (hi <= 500)%Q ->
  Forall (sliderWithin lo hi) events ->
  let a := run Math_sqrt initialApp events in
  inRange lo 500 (sZoom (leftSlot (combiner a)))
  /\ inRange lo 500 (sZoom (rightSlot (combiner a)))
  /\ forall side el W H,
       sElement (getSlot side (combiner a)) = Some el ->
       (0 < elementWidth el)%Z -> (0 < elementHeight el)%Z ->
       (0 < W)%Q -> (0 < H)%Q ->
       exists r,
         sourceRectOf (drawMediaSection (Some el) side (Fin W) (Fin H)
                         (sZoom (getSlot side (combiner a)))
                         (sFocus (getSlot side (combiner a))))
         = Some r.
Proof.
  intros Hsqrt Hlo0 Hlo Hhi Hev a.
  assert (H0 : zoomInRange lo initialApp).
  { unfold zoomInRange. cbn. repeat split; lra. }
  pose proof (@run_zoom Math_sqrt lo Hsqrt Hlo hi events initialApp Hhi Hev H0) as Hz. fold a in Hz.
  assert (Hview : viewInDomain a).
  { apply (reachable_view (Math_sqrt := Math_sqrt)). apply reachable_run, reachable_init. }
  destruct Hz as (HL & HR & _). split; [exact HL|]. split; [exact HR|].
  intros side el W H He Hw Hh HW HH.
  assert (Hzoom : inRange lo 500 (sZoom (getSlot side (combiner a))))
    by (destruct side; assumption).
  assert (Hfocus : focusInDomain (sFocus (getSlot side (combiner a)))).
  { destruct Hview as (F1 & F2 & _). destruct side; assumption. }
  destruct (sZoom (getSlot side (combiner a))) as [zq| | |]; try contradiction.
  destruct (sFocus (getSlot side (combiner a))) as [fx fy].
  destruct Hfocus as [Hfx Hfy]. cbn [x y] in Hfx, Hfy.
  destruct fx as [fxq| | |]; try contradiction.
  destruct fy as [fyq| | |]; try contradiction.
  rewrite (drawMediaSection_plan _ _ _ _ _ _ Hw Hh), half_width. unfold ofZ.
  assert (Hsw : (0 < inject_Z (elementWidth el))%Q) by (apply inject_Z_pos; exact Hw).
  assert (Hsh : (0 < inject_Z (elementHeight el))%Q) by (apply inject_Z_pos; exact Hh).
  assert (HdW : (0 < Qred (W / 2))%Q) by (apply Qred_pos, Qdiv_pos; lra).
  assert (Hzq : (0 < zq)%Q) by (cbn in Hzoom; lra).
  destruct (drawPlan_Q fxq fyq Hsw Hsh HdW HH Hzq)
    as (c & sx & sy & vW & vH & _ & Ep & _).
  eexists. exact Ep.
Qed.

Lemma zoom_stays_in_range_witness :
  let a := run sqrtSquares initialApp sliderRun in
  Forall (sliderWithin sliderMin sliderMax) sliderRun
  /\ sZoom (leftSlot (combiner a)) = Fin (1 # 2)
  /\ inRange sliderMin 500 (sZoom (leftSlot (combiner a)))
  /\ inRange sliderMin 500 (sZoom (rightSlot (combiner a)))
  /\ exists r,
       sourceRectOf (drawMediaSection (Some (Image (imageOf 800 600 "blob:left"))) Left
                       (Fin 800) (Fin 450)
                       (sZoom (getSlot Left (combiner a)))
                       (sFocus (getSlot Left (combiner a))))
       = Some r.
Proof.
  intros a.
  assert (Hev : Forall (sliderWithin sliderMin sliderMax) sliderRun).
  { unfold sliderRun, farDrag, sliderMin, sliderMax.
    repeat (apply Forall_cons; [cbn; try exact I; lra|]). apply Forall_nil. }
  assert (Hlo0 : (0 < sliderMin)%Q) by reflexivity.
  assert (Hlo : (sliderMin <= 10)%Q) by (unfold sliderMin; lra).
  assert (Hhi : (sliderMax <= 500)%Q) by (unfold sliderMax; lra).
  assert (Hz : sZoom (leftSlot (combiner a)) = Fin (1 # 2)) by (vm_compute; reflexivity).
  assert (He : sElement (getSlot Left (combiner a))
               = Some (Image (imageOf 800 600 "blob:left")))
    by (vm_compute; reflexivity).
  destruct (zoom_stays_in_range sqrtSquares_finite Hlo0 Hlo Hhi Hev)
    as [HL [HR Hdraw]].
  exact (conj Hev (conj Hz (conj HL (conj HR
           (Hdraw Left (Image (imageOf 800 600 "blob:left")) 800 450 He
              eq_refl eq_refl eq_refl eq_refl))))).
Defined.

(** ** Polling for a transcription *)

Lemma pollFrom_final (publicId : string) (answers : nat -> ApiAnswer) (k : nat) :
  forall remaining attempt w,
    (k < remaining)%nat ->
    (forall j, (j < k)%nat -> keepsPolling (answers (attempt + j)%nat) = true) ->
    keepsPolling (answers (attempt + k)%nat) = false ->
    pollFrom remaining attempt publicId answers w
    = {| result := verdict publicId (answers (attempt + k)%nat);
         checks := S (attempt + k);
         waited := (w + delay * Z.of_nat k)%Z |}.
Proof.
  induction k as [|k IH]; intros remaining attempt w Hlt Hkeep Hfinal.
  - destruct remaining as [|remaining]; [lia|]. cbn [pollFrom].
    rewrite Nat.add_0_r in *. unfold keepsPolling, verdict in *.
    destruct (checkTranscriptionStatus (answers attempt)) as [status|].
    + destruct (status =? "complete")%string.
      * f_equal. cbn. lia.
      * destruct (status =? "failed")%string; [|discriminate Hfinal].
        f_equal. cbn. lia.
    + f_equal. cbn. lia.
  - destruct remaining as [|remaining]; [lia|]. cbn [pollFrom].
    pose proof (Hkeep 0%nat ltac:(lia)) as H0. rewrite Nat.add_0_r in H0.
    unfold keepsPolling in H0.
    destruct (checkTranscriptionStatus (answers attempt)) as [status|];
      [|discriminate H0].
    apply andb_true_iff in H0. destruct H0 as [Hc Hf].
    apply negb_true_iff in Hc, Hf. rewrite Hc, Hf.
    rewrite (IH remaining (S attempt) (w + delay)%Z).
    + replace (S attempt + k)%nat with (attempt + S k)%nat by lia.
      f_equal. unfold delay. lia.
    + lia.
    + intros j Hj. replace (S attempt + j)%nat with (attempt + S j)%nat by lia.
      apply Hkeep. lia.
    + replace (S attempt + k)%nat with (attempt + S k)%nat by lia. exact Hfinal.
Qed.

Lemma pollFrom_timeout (publicId : string) (answers : nat -> ApiAnswer) :
  forall remaining attempt w,
    (forall j, (j < remaining)%nat -> keepsPolling (answers (attempt + j)%nat) = true) ->
    pollFrom remaining attempt publicId answers w
    = {| result := transcriptionTimedOut;
         checks := (attempt + remaining)%nat;
         waited := (w + delay * Z.of_nat remaining)%Z |}.
Proof.
  induction remaining as [|remaining IH]; intros attempt w Hkeep.
  - cbn [pollFrom]. f_equal; [lia | cbn; lia].
  - cbn [pollFrom].
    pose proof (Hkeep 0%nat ltac:(lia)) as H0. rewrite Nat.add_0_r in H0.
    unfold keepsPolling in H0.
    destruct (checkTranscriptionStatus (answers attempt)) as [status|];
      [|discriminate H0].
    apply andb_true_iff in H0. destruct H0 as [Hc Hf].
    apply negb_true_iff in Hc, Hf. rewrite Hc, Hf.
    rewrite IH.
    + f_equal; [lia | unfold delay; lia].
    + intros j Hj. replace (S attempt + j)%nat with (attempt + S j)%nat by lia.
      apply Hkeep. lia.
Qed.

Lemma pollFrom_bounds (publicId : string) (answers : nat -> ApiAnswer) :
  forall remaining attempt w,
    let p := pollFrom remaining attempt publicId answers w in
    (checks p <= attempt + remaining)%nat
    /\ (w <= waited p <= w + delay * Z.of_nat remaining)%Z.
Proof.
  induction remaining as [|remaining IH]; intros attempt w; cbn [pollFrom].
  - cbn. unfold delay. lia.
  - destruct (checkTranscriptionStatus (answers attempt)) as [status|];
      [|cbn; unfold delay; lia].
    destruct (status =? "complete")%string; [cbn; unfold delay; lia|].
    destruct (status =? "failed")%string; [cbn; unfold delay; lia|].
    specialize (IH (S attempt) (w + delay)%Z). cbv zeta in IH.
    destruct IH as [H1 H2]. unfold delay in *. split; lia.
Qed.

(** X30. The transcription action polls at most 20 times and spends at
    most 40 seconds waiting.  Its result is decided by the first status
    check that throws or answers "complete" or "failed": when that is
    check number [k + 1] (counting from 1, among the first 20) the action
    ends right there, after [k] waits of 2 seconds, with the error, the
    success or the failure; when none of the first 20 checks is final it
    ends with the timeout error after 20 checks and 20 waits. *)
Theorem transcription_polling_is_bounded (publicId : string)
    (answers : nat -> ApiAnswer) :
  let p := initiateTranscription publicId false answers in
  (checks p <= 20)%nat
  /\ (0 <= waited p <= 40000)%Z
  /\ (forall k, (k < 20)%nat ->
        (forall j, (j < k)%nat -> keepsPolling (answers j) = true) ->
        keepsPolling (answers k) = false ->
        result p = verdict publicId (answers k)
        /\ checks p = S k /\ waited p = (2000 * Z.of_nat k)%Z)
  /\ ((forall j, (j < 20)%nat -> keepsPolling (answers j) = true) ->
      result p = transcriptionTimedOut /\ checks p = 20%nat /\ waited p = 40000%Z)
  /\ initiateTranscription publicId true answers
     = {| result := transcriptionThrew; checks := 0; waited := 0 |}.
Proof.
  intros p. unfold p, initiateTranscription, maxAttempts.
  pose proof (pollFrom_bounds publicId answers 20 0 0%Z) as Hb. cbv zeta in Hb.
  unfold delay in Hb.
  split; [lia|]. split; [lia|]. split; [|split; [|reflexivity]].
  - intros k Hk Hkeep Hfinal.
    rewrite (@pollFrom_final publicId answers k 20 0 0%Z Hk Hkeep Hfinal).
    cbn [result checks waited Nat.add]. unfold delay. repeat split; lia.
  - intros Hkeep.
    rewrite (@pollFrom_timeout publicId answers 20 0 0%Z Hkeep).
    cbn [result checks waited]. unfold delay. repeat split; lia.
Qed.
